(** * libtiny3d: the transform, project, sort and rasterise pipeline

    A shallow embedding of the C sources of libtiny3d (math3d.c,
    animation.c, canvas.c, lighting.c, renderer.c, obj_loader.c), the
    properties of the specification that concern them, and further
    properties read off the code.

    Conventions of the embedding.
    - A C [float] is an IEEE 754 binary32 number: [spec_float] with
      precision 24 and exponent bound 128, every operation rounded to
      nearest even (one rounding per C operator, no contraction).
    - A C [int] is a [Z]; a conversion from [float] to [int] whose value
      does not fit has no defined behaviour in C and yields [Undefined].
    - The loops over a [float] counter need not terminate (adding 0.5 to a
      large value leaves it unchanged), so they run on fuel and yield
      [OutOfFuel] when it is exhausted.
    - libm's functions and libc's [sscanf] conversions are not part of
      the repository: [acosf] and [atan2f] are the members of the class
      [Libm], [sinf], [cosf] and [tanf] those of the class [Trig], and the
      conversions are section variables of the loader.
    - Pointers are assumed non-null and allocation is assumed to succeed,
      except for the [lights] array of the renderer, whose null case the
      code treats on purpose. *)

From Stdlib Require Import ZArith List Bool Lia String Ascii Sorted.
From Stdlib Require Import Floats.SpecFloat.
From Equations Require Import Equations.
Import ListNotations.
Open Scope Z_scope.

(** ** Results of code that may be undefined or may not terminate *)

Inductive res (A : Type) : Type :=
| Ok (a : A)
| Undefined
| OutOfFuel.
Arguments Ok {A} a.
Arguments Undefined {A}.
Arguments OutOfFuel {A}.

Definition bind {A B : Type} (r : res A) (k : A -> res B) : res B :=
  match r with
  | Ok a => k a
  | Undefined => Undefined
  | OutOfFuel => OutOfFuel
  end.

Notation "'let*' x ':=' r 'in' k" := (bind r (fun x => k))
  (at level 10, x name, r at level 100, k at level 200).

(** Sequential execution of a body over a list of loop indices. *)
Fixpoint for_each {A S : Type} (body : A -> S -> res S) (l : list A) (s : S) : res S :=
  match l with
  | [] => Ok s
  | a :: l' => let* s' := body a s in for_each body l' s'
  end.

(** [a[i] = v] on an array held as a list; the index is in range at every
    use in the sources modelled here. *)
Fixpoint set_nth {A : Type} (l : list A) (i : nat) (v : A) : list A :=
  match l, i with
  | [], _ => []
  | _ :: t, O => v :: t
  | h :: t, S i' => h :: set_nth t i' v
  end.

(** ** IEEE 754 binary32 arithmetic *)

Module F32.

Definition float : Type := spec_float.

Definition prec : Z := 24.
Definition emax : Z := 128.

Definition fadd : float -> float -> float := SFadd prec emax.
Definition fsub : float -> float -> float := SFsub prec emax.
Definition fmul : float -> float -> float := SFmul prec emax.
Definition fdiv : float -> float -> float := SFdiv prec emax.
Definition sqrtf : float -> float := SFsqrt prec emax.
Definition fabsf : float -> float := SFabs.
Definition fneg : float -> float := SFopp.

(** The C comparisons; each is false when an operand is NaN. *)
Definition flt (a b : float) : bool := SFltb a b.
Definition fle (a b : float) : bool := SFleb a b.
Definition fgt (a b : float) : bool := SFltb b a.
Definition fge (a b : float) : bool := SFleb b a.
Definition feq (a b : float) : bool := SFeqb a b.

Definition is_nan (a : float) : bool :=
  match a with S754_nan => true | _ => false end.

(** [(float)n] for an [int] n. *)
Definition of_int (n : Z) : float := binary_normalize prec emax n 0 false.

(** A decimal literal [n / 10^k], correctly rounded. *)
Definition of_dec (n : Z) (k : Z) : float :=
  match n with
  | Z0 => S754_zero false
  | Zpos p => SFdiv prec emax (S754_finite false p 0) (S754_finite false (Z.to_pos (10 ^ k)) 0)
  | Zneg p => SFdiv prec emax (S754_finite true p 0) (S754_finite false (Z.to_pos (10 ^ k)) 0)
  end.

Definition F0 : float := S754_zero false.
Definition F1 : float := Eval cbv in of_int 1.
Definition F2 : float := Eval cbv in of_int 2.
Definition F0_5 : float := Eval cbv in of_dec 5 1.
(** [#define FLT_EPSILON 1.19209290E-07F], which is 2^-23. *)
Definition FLT_EPSILON : float := Eval cbv in of_dec 119209290 15.

(** C99 [fmaxf] and [fminf]: a NaN operand is ignored in favour of the
    other operand. *)
Definition fmaxf (a b : float) : float :=
  if is_nan a then b
  else if is_nan b then a
  else if flt a b then b else a.

Definition fminf (a b : float) : float :=
  if is_nan a then b
  else if is_nan b then a
  else if flt b a then b else a.

(** [floorf]: the largest integral value not above the operand. *)
Definition floorf (a : float) : float :=
  match a with
  | S754_finite s m e =>
      if 0 <=? e then a
      else
        let n := Z.shiftr (cond_Zopp s (Zpos m)) (- e) in
        if n =? 0 then S754_zero s else of_int n
  | _ => a
  end.

Definition INT_MIN : Z := - 2 ^ 31.
Definition INT_MAX : Z := 2 ^ 31 - 1.

(** [(int)a]: truncation toward zero, undefined when the truncated value
    is not representable (also for NaN and the infinities). *)
Definition to_int (a : float) : res Z :=
  match a with
  | S754_zero _ => Ok 0
  | S754_finite s m e =>
      let n := if 0 <=? e then Zpos m * 2 ^ e else Z.shiftr (Zpos m) (- e) in
      let t := cond_Zopp s n in
      if (INT_MIN <=? t) && (t <=? INT_MAX) then Ok t else Undefined
  | _ => Undefined
  end.

(** The range [0, 1] of a stored intensity. *)
Definition in01 (a : float) : bool := fle F0 a && fle a F1.

End F32.
Import F32.

#[global] Arguments fadd : simpl never.
#[global] Arguments fsub : simpl never.
#[global] Arguments fmul : simpl never.
#[global] Arguments fdiv : simpl never.
#[global] Arguments sqrtf : simpl never.
#[global] Arguments of_int : simpl never.
#[global] Arguments floorf : simpl never.
#[global] Arguments to_int : simpl never.
#[global] Arguments fmaxf : simpl never.
#[global] Arguments fminf : simpl never.

(** ** math3d.c *)

(** The libm functions the vector code calls. *)
Class Libm : Type := {
  acosf : float -> float;
  atan2f : float -> float -> float
}.

(** Those of the rotations and of the perspective matrix. *)
Class Trig : Type := {
  sinf : float -> float;
  cosf : float -> float;
  tanf : float -> float
}.

Module Math3d.

(** [vec3_t]: Cartesian and spherical coordinates side by side. *)
Record vec3_t : Type := mkvec3 {
  x : float; y : float; z : float;
  r : float; theta : float; phi : float
}.

(** [mat4_t]: sixteen floats, column major; [m[i]] is [at_ m i]. *)
Definition mat4_t : Type := list float.
Definition at_ (mat : mat4_t) (i : nat) : float := nth i mat F0.

Definition set_at (mat : mat4_t) (i : nat) (v : float) : mat4_t := set_nth mat i v.

(** [M_PI] is a [double]; [phi += 2.0f * M_PI] is evaluated in binary64
    and converted back to [float] on assignment. *)
Definition M_PI : spec_float := S754_finite false 7074237752028440 (-51).

Definition double_to_float (d : spec_float) : float :=
  match d with
  | S754_finite s m e => binary_round prec emax s m e
  | _ => d
  end.

Definition add_two_pi (a : float) : float :=
  double_to_float (SFadd 53 1024 a (SFmul 53 1024 F2 M_PI)).

Definition norm3 (vx vy vz : float) : float :=
  sqrtf (fadd (fadd (fmul vx vx) (fmul vy vy)) (fmul vz vz)).

Section WithLibm.
Context {L : Libm}.

Definition _vec3_update_spherical_from_cartesian (v : vec3_t) : vec3_t :=
  let r' := norm3 (x v) (y v) (z v) in
  if feq r' F0 then
    mkvec3 (x v) (y v) (z v) r' F0 F0
  else
    let theta' := acosf (fdiv (z v) r') in
    let phi' := atan2f (y v) (x v) in
    let phi'' := if flt phi' F0 then add_two_pi phi' else phi' in
    mkvec3 (x v) (y v) (z v) r' theta' phi''.

Definition vec3_set_cartesian (v : vec3_t) (x' y' z' : float) : vec3_t :=
  _vec3_update_spherical_from_cartesian
    (mkvec3 x' y' z' (r v) (theta v) (phi v)).

Definition vec3_create_cartesian (x' y' z' : float) : vec3_t :=
  _vec3_update_spherical_from_cartesian (mkvec3 x' y' z' F0 F0 F0).

(** The homogeneous product, [w] of the point taken as 1, with the
    divide by the resulting [w] under the guard of the source. *)
Definition mat4_transform_point (mat : mat4_t) (p : vec3_t) : vec3_t :=
  let x0 := x p in
  let y0 := y p in
  let z0 := z p in
  let w := F1 in
  let rx := fadd (fadd (fadd (fmul (at_ mat 0) x0) (fmul (at_ mat 4) y0))
                       (fmul (at_ mat 8) z0)) (fmul (at_ mat 12) w) in
  let ry := fadd (fadd (fadd (fmul (at_ mat 1) x0) (fmul (at_ mat 5) y0))
                       (fmul (at_ mat 9) z0)) (fmul (at_ mat 13) w) in
  let rz := fadd (fadd (fadd (fmul (at_ mat 2) x0) (fmul (at_ mat 6) y0))
                       (fmul (at_ mat 10) z0)) (fmul (at_ mat 14) w) in
  let res_w := fadd (fadd (fadd (fmul (at_ mat 3) x0) (fmul (at_ mat 7) y0))
                          (fmul (at_ mat 11) z0)) (fmul (at_ mat 15) w) in
  let res :=
    if fgt (fabsf res_w) FLT_EPSILON && fgt (fabsf (fsub res_w F1)) FLT_EPSILON
    then mkvec3 (fdiv rx res_w) (fdiv ry res_w) (fdiv rz res_w) F0 F0 F0
    else mkvec3 rx ry rz F0 F0 F0 in
  _vec3_update_spherical_from_cartesian res.

End WithLibm.

(** [vec3_normalize]: [theta] and [phi] are left as they were unless the
    vector is degenerate. *)
Definition vec3_normalize (v : vec3_t) : vec3_t :=
  let current_r := norm3 (x v) (y v) (z v) in
  if flt current_r FLT_EPSILON then
    mkvec3 F0 F0 F0 F0 F0 F0
  else
    mkvec3 (fdiv (x v) current_r) (fdiv (y v) current_r) (fdiv (z v) current_r)
           F1 (theta v) (phi v).

Definition mat4_identity : mat4_t :=
  [F1; F0; F0; F0;  F0; F1; F0; F0;  F0; F0; F1; F0;  F0; F0; F0; F1].

Definition mat4_translate (tx ty tz : float) : mat4_t :=
  set_at (set_at (set_at mat4_identity 12 tx) 13 ty) 14 tz.

Definition mat4_zero : mat4_t := repeat F0 16.

Definition mat4_frustum_asymmetric (l r' b t n f : float) : mat4_t :=
  let mat := mat4_zero in
  let mat := set_at mat 0 (fdiv (fmul F2 n) (fsub r' l)) in
  let mat := set_at mat 5 (fdiv (fmul F2 n) (fsub t b)) in
  let mat := set_at mat 8 (fdiv (fadd r' l) (fsub r' l)) in
  let mat := set_at mat 9 (fdiv (fadd t b) (fsub t b)) in
  let mat := set_at mat 10 (fdiv (fneg (fadd f n)) (fsub f n)) in
  let mat := set_at mat 11 (fneg F1) in
  let mat := set_at mat 14 (fdiv (fneg (fmul (fmul F2 f) n)) (fsub f n)) in
  mat.

(** What the specification calls the homogeneous transform: the product
    of the column-major matrix with the column vector [v], component
    [j] being the sum over [k] of [m[k*4+j] * v[k]], summed in the order
    of the columns. *)
Definition hom_component (mat : mat4_t) (v : list float) (j : nat) : float :=
  match map (fun k => fmul (at_ mat (k * 4 + j)) (nth k v F0)) (seq 0 4) with
  | [] => F0
  | t :: ts => fold_left fadd ts t
  end.

(** "approximately c, within epsilon": not farther than epsilon from c
    in the sense of the C comparison. *)
Definition approx (a c : float) : bool :=
  negb (fgt (fabsf (fsub a c)) FLT_EPSILON).

(** *** The other matrices and the cross product *)

Definition mat4_scale (sx sy sz : float) : mat4_t :=
  set_at (set_at (set_at mat4_identity 0 sx) 5 sy) 10 sz.

Section Rotations.
Context {T : Trig}.

Definition mat4_rotate_x (angle_rad : float) : mat4_t :=
  let m := mat4_identity in
  let c := cosf angle_rad in
  let s := sinf angle_rad in
  let m := set_at m 5 c in
  let m := set_at m 6 s in
  let m := set_at m 9 (fneg s) in
  let m := set_at m 10 c in
  m.

Definition mat4_rotate_y (angle_rad : float) : mat4_t :=
  let m := mat4_identity in
  let c := cosf angle_rad in
  let s := sinf angle_rad in
  let m := set_at m 0 c in
  let m := set_at m 2 (fneg s) in
  let m := set_at m 8 s in
  let m := set_at m 10 c in
  m.

Definition mat4_rotate_z (angle_rad : float) : mat4_t :=
  let m := mat4_identity in
  let c := cosf angle_rad in
  let s := sinf angle_rad in
  let m := set_at m 0 c in
  let m := set_at m 1 s in
  let m := set_at m 4 (fneg s) in
  let m := set_at m 5 c in
  m.

Definition mat4_perspective (fovy_rad aspect n f : float) : mat4_t :=
  let tan_half_fovy := tanf (fdiv fovy_rad F2) in
  let t := fmul n tan_half_fovy in
  let b := fneg t in
  let r' := fmul t aspect in
  let l := fneg r' in
  mat4_frustum_asymmetric l r' b t n f.

End Rotations.

Section Uninitialised.
(** The content of a local [mat4_t] or [vec3_t] before it is written. *)
Variable indeterminate : float.

(** The three nested loops: [i] the column and [j] the row of the
    result, [k] the index of the sum, which starts from 0. *)
Definition mat4_multiply (a b : mat4_t) : mat4_t :=
  fold_left (fun res i =>
    fold_left (fun res j =>
      let sum :=
        fold_left (fun sum k =>
                     fadd sum (fmul (at_ a (k * 4 + j)) (at_ b (i * 4 + k))))
                  (seq 0 4) F0 in
      set_at res (i * 4 + j) sum)
    (seq 0 4) res)
  (seq 0 4) (repeat indeterminate 16).

Definition mat4_rotate_xyz {T : Trig} (rx_rad ry_rad rz_rad : float) : mat4_t :=
  let rot_x := mat4_rotate_x rx_rad in
  let rot_y := mat4_rotate_y ry_rad in
  let rot_z := mat4_rotate_z rz_rad in
  let ry_rz := mat4_multiply rot_y rot_z in
  mat4_multiply rot_x ry_rz.

Definition unset_vec3 : vec3_t :=
  mkvec3 indeterminate indeterminate indeterminate
         indeterminate indeterminate indeterminate.

Context {L : Libm}.

Definition vec3_cross (a b : vec3_t) : vec3_t :=
  let x' := fsub (fmul (y a) (z b)) (fmul (z a) (y b)) in
  let y' := fsub (fmul (z a) (x b)) (fmul (x a) (z b)) in
  let z' := fsub (fmul (x a) (y b)) (fmul (y a) (x b)) in
  vec3_set_cartesian unset_vec3 x' y' z'.

(** The product with the point's [w] taken as 0: the last column of
    the matrix is not read, and nothing is divided. *)
Definition mat4_transform_vector (mat : mat4_t) (v_vec : vec3_t) : vec3_t :=
  let x0 := x v_vec in
  let y0 := y v_vec in
  let z0 := z v_vec in
  let rx := fadd (fadd (fmul (at_ mat 0) x0) (fmul (at_ mat 4) y0)) (fmul (at_ mat 8) z0) in
  let ry := fadd (fadd (fmul (at_ mat 1) x0) (fmul (at_ mat 5) y0)) (fmul (at_ mat 9) z0) in
  let rz := fadd (fadd (fmul (at_ mat 2) x0) (fmul (at_ mat 6) y0)) (fmul (at_ mat 10) z0) in
  _vec3_update_spherical_from_cartesian
    (mkvec3 rx ry rz indeterminate indeterminate indeterminate).

End Uninitialised.

(** *** Quaternions *)

Record quat_t : Type := mkquat { qx : float; qy : float; qz : float; qw : float }.

Definition quat_to_mat4 (q : quat_t) : mat4_t :=
  let m := mat4_identity in
  let qx2 := fmul (qx q) (qx q) in
  let qy2 := fmul (qy q) (qy q) in
  let qz2 := fmul (qz q) (qz q) in
  let m := set_at m 0 (fsub (fsub F1 (fmul F2 qy2)) (fmul F2 qz2)) in
  let m := set_at m 5 (fsub (fsub F1 (fmul F2 qx2)) (fmul F2 qz2)) in
  let m := set_at m 10 (fsub (fsub F1 (fmul F2 qx2)) (fmul F2 qy2)) in
  let m := set_at m 1 (fadd (fmul (fmul F2 (qx q)) (qy q)) (fmul (fmul F2 (qz q)) (qw q))) in
  let m := set_at m 2 (fsub (fmul (fmul F2 (qx q)) (qz q)) (fmul (fmul F2 (qy q)) (qw q))) in
  let m := set_at m 4 (fsub (fmul (fmul F2 (qx q)) (qy q)) (fmul (fmul F2 (qz q)) (qw q))) in
  let m := set_at m 6 (fadd (fmul (fmul F2 (qy q)) (qz q)) (fmul (fmul F2 (qx q)) (qw q))) in
  let m := set_at m 8 (fadd (fmul (fmul F2 (qx q)) (qz q)) (fmul (fmul F2 (qy q)) (qw q))) in
  let m := set_at m 9 (fsub (fmul (fmul F2 (qy q)) (qz q)) (fmul (fmul F2 (qx q)) (qw q))) in
  m.

End Math3d.

(** ** animation.c *)

Module Animation.
Import Math3d.

Definition F3 : float := Eval cbv in of_int 3.

Section WithLibm.
Context {L : Libm}.
(** The content of the local [result] before it is written. *)
Variable indeterminate : float.

Definition bezier_cubic (p0 p1 p2 p3 : vec3_t) (t : float) : vec3_t :=
  let t := if flt t F0 then F0 else t in
  let t := if fgt t F1 then F1 else t in
  let u := fsub F1 t in
  let tt := fmul t t in
  let uu := fmul u u in
  let uuu := fmul uu u in
  let ttt := fmul tt t in
  let p0x := fmul uuu (x p0) in
  let p0y := fmul uuu (y p0) in
  let p0z := fmul uuu (z p0) in
  let p1x := fmul (fmul (fmul F3 uu) t) (x p1) in
  let p1y := fmul (fmul (fmul F3 uu) t) (y p1) in
  let p1z := fmul (fmul (fmul F3 uu) t) (z p1) in
  let p2x := fmul (fmul (fmul F3 u) tt) (x p2) in
  let p2y := fmul (fmul (fmul F3 u) tt) (y p2) in
  let p2z := fmul (fmul (fmul F3 u) tt) (z p2) in
  let p3x := fmul ttt (x p3) in
  let p3y := fmul ttt (y p3) in
  let p3z := fmul ttt (z p3) in
  let final_x := fadd (fadd (fadd p0x p1x) p2x) p3x in
  let final_y := fadd (fadd (fadd p0y p1y) p2y) p3y in
  let final_z := fadd (fadd (fadd p0z p1z) p2z) p3z in
  vec3_set_cartesian (unset_vec3 indeterminate) final_x final_y final_z.

End WithLibm.

End Animation.

(** ** canvas.c *)

Module Canvas.

Record canvas_t : Type := mkcanvas {
  width : Z;
  height : Z;
  pixels : list float;
  active_viewport_radius : float
}.

Definition with_pixels (c : canvas_t) (px : list float) : canvas_t :=
  mkcanvas (width c) (height c) px (active_viewport_radius c).

Definition _canvas_is_pixel_in_circular_viewport (c : canvas_t) (px py : Z) : bool :=
  if fle (active_viewport_radius c) F0 then true
  else
    let radius := active_viewport_radius c in
    let center_x := fdiv (of_int (width c)) F2 in
    let center_y := fdiv (of_int (height c)) F2 in
    let dist_sq :=
      fadd (fmul (fsub (of_int px) center_x) (fsub (of_int px) center_x))
           (fmul (fsub (of_int py) center_y) (fsub (of_int py) center_y)) in
    fle dist_sq (fmul radius radius).

(** [None] is the NULL the source returns for non-positive dimensions. *)
Definition canvas_create (w h : Z) : option canvas_t :=
  if (w <=? 0) || (h <=? 0) then None
  else Some (mkcanvas w h (repeat F0 (Z.to_nat (w * h))) F0).

Definition canvas_set_circular_viewport (c : canvas_t) (radius : float) : canvas_t :=
  mkcanvas (width c) (height c) (pixels c) radius.

Definition canvas_clear (c : canvas_t) (intensity : float) : canvas_t :=
  with_pixels c (repeat intensity (Z.to_nat (width c * height c))).

Definition clamp01 (a : float) : float := fmaxf F0 (fminf F1 a).

(** One cell of the 2x2 neighbourhood: offsets [i], [j] in {0, 1}. *)
Definition splat_cell (x_int y_int : Z) (fx fy intensity : float)
    (c : canvas_t) (ij : Z * Z) : canvas_t :=
  let '(i, j) := ij in
  let current_x := x_int + i in
  let current_y := y_int + j in
  if (0 <=? current_x) && (current_x <? width c) &&
     (0 <=? current_y) && (current_y <? height c) then
    if negb (_canvas_is_pixel_in_circular_viewport c current_x current_y) then c
    else
      let weight_x := if i =? 0 then fsub F1 fx else fx in
      let weight_y := if j =? 0 then fsub F1 fy else fy in
      let weight := fmul weight_x weight_y in
      let pixel_index := Z.to_nat (current_y * width c + current_x) in
      let sum := fadd (nth pixel_index (pixels c) F0) (fmul intensity weight) in
      with_pixels c (set_nth (pixels c) pixel_index (clamp01 sum))
  else c.

(** The cells in the order of the two nested loops, [j] outermost. *)
Definition neighbourhood : list (Z * Z) := [(0, 0); (1, 0); (0, 1); (1, 1)].

Definition set_pixel_f (c : canvas_t) (x y intensity : float) : res canvas_t :=
  let intensity := clamp01 intensity in
  let* x_int := to_int (floorf x) in
  let* y_int := to_int (floorf y) in
  let fx := fsub x (of_int x_int) in
  let fy := fsub y (of_int y_int) in
  Ok (fold_left (splat_cell x_int y_int fx fy intensity) neighbourhood c).

(** [draw_line_f], over the operation it calls for every sub-pixel
    sample: [set_pixel_f] on a canvas, or a recorder of the calls. *)
Section DrawLine.
Context {St : Type}.
Variable put : St -> float -> float -> float -> res St.

(** [for (float t = lo; t <= hi; t += 0.5f) body] *)
Fixpoint for_float (fuel : nat) (t hi : float)
    (body : float -> St -> res St) (s : St) : res St :=
  if fle t hi then
    match fuel with
    | O => OutOfFuel
    | S fuel' =>
        let* s' := body t s in
        for_float fuel' (fadd t F0_5) hi body s'
    end
  else Ok s.

(** The brush of the single-point case: the offsets inside the disc. *)
Definition brush_point (fuel : nat) (half_thick x0 y0 intensity : float)
    (s : St) : res St :=
  for_float fuel (fneg half_thick) half_thick (fun ty s1 =>
    for_float fuel (fneg half_thick) half_thick (fun tx s2 =>
      if fle (fadd (fmul tx tx) (fmul ty ty)) (fmul half_thick half_thick)
      then put s2 (fadd x0 tx) (fadd y0 ty) intensity
      else Ok s2) s1) s.

(** The brush of the line walk: every offset of the grid. *)
Definition brush_step (fuel : nat) (half_thick x y intensity : float)
    (s : St) : res St :=
  for_float fuel (fneg half_thick) half_thick (fun brush_y s1 =>
    for_float fuel (fneg half_thick) half_thick (fun brush_x s2 =>
      put s2 (fadd x brush_x) (fadd y brush_y) intensity) s1) s.

(** [for (int i = 0; i <= steps; ++i)], [n] iterations left. *)
Fixpoint walk (n : nat) (fuel : nat) (half_thick x y x_increment y_increment
    intensity : float) (s : St) : res St :=
  match n with
  | O => Ok s
  | S n' =>
      let* s' := brush_step fuel half_thick x y intensity s in
      walk n' fuel half_thick (fadd x x_increment) (fadd y y_increment)
           x_increment y_increment intensity s'
  end.

Definition line_steps (x0 y0 x1 y1 : float) : res Z :=
  let dx := fsub x1 x0 in
  let dy := fsub y1 y0 in
  if fgt (fabsf dx) (fabsf dy) then to_int (fabsf dx) else to_int (fabsf dy).

Definition draw_line_with (fuel : nat) (s : St)
    (x0 y0 x1 y1 thickness line_intensity : float) : res St :=
  let clamped_intensity := clamp01 line_intensity in
  if flt clamped_intensity FLT_EPSILON then Ok s
  else
    let dx := fsub x1 x0 in
    let dy := fsub y1 y0 in
    let* steps := line_steps x0 y0 x1 y1 in
    if steps =? 0 then
      let half_thick := fdiv thickness F2 in
      brush_point fuel half_thick x0 y0 clamped_intensity s
    else
      let x_increment := fdiv dx (of_int steps) in
      let y_increment := fdiv dy (of_int steps) in
      let half_thick := fmaxf F0_5 (fdiv thickness F2) in
      walk (Z.to_nat (steps + 1)) fuel half_thick x0 y0
           x_increment y_increment clamped_intensity s.
End DrawLine.

Definition draw_line_f (fuel : nat) (c : canvas_t)
    (x0 y0 x1 y1 thickness line_intensity : float) : res canvas_t :=
  draw_line_with set_pixel_f fuel c x0 y0 x1 y1 thickness line_intensity.

(** The calls of [set_pixel_f] a [draw_line_f] makes, in order: the
    coordinates and the intensity of each. *)
Definition sample : Type := (float * float * float)%type.

Definition record_sample (log : list sample) (x y intensity : float) : res (list sample) :=
  Ok (log ++ [(x, y, intensity)]).

Definition draw_line_samples (fuel : nat)
    (x0 y0 x1 y1 thickness line_intensity : float) : res (list sample) :=
  draw_line_with record_sample fuel [] x0 y0 x1 y1 thickness line_intensity.

(** Every stored intensity lies in [0, 1]. *)
Definition pixels_in_range (c : canvas_t) : Prop :=
  Forall (fun v => in01 v = true) (pixels c).

End Canvas.

(** ** lighting.c *)

Module Lighting.
Import Math3d.

(** [light_type_t] is an enumeration with the single enumerator
    [LIGHT_TYPE_DIRECTIONAL]; a field of that type holds an integer, which
    the code compares with the enumerator. *)
Definition light_type_t : Type := Z.
Definition LIGHT_TYPE_DIRECTIONAL : light_type_t := 0.

Record light_t : Type := mklight {
  type : light_type_t;
  direction : vec3_t
}.

Definition _vec3_dot_product (v1 v2 : vec3_t) : float :=
  fadd (fadd (fmul (x v1) (x v2)) (fmul (y v1) (y v2))) (fmul (z v1) (z v2)).

Definition calculate_lambertian_intensity (surface_normal light_direction : vec3_t) : float :=
  fmaxf F0 (_vec3_dot_product surface_normal light_direction).

(** [for (int i = 0; i < num_lights; ++i)], [n] iterations left; reading
    past the end of the array is undefined. *)
Fixpoint light_loop (n : nat) (i : nat) (surface_normal : vec3_t)
    (lights : list light_t) (total_intensity : float) : res float :=
  match n with
  | O => Ok total_intensity
  | S n' =>
      match nth_error lights i with
      | None => Undefined
      | Some l =>
          let total' :=
            if type l =? LIGHT_TYPE_DIRECTIONAL then
              fadd total_intensity
                   (calculate_lambertian_intensity surface_normal (direction l))
            else total_intensity in
          light_loop n' (S i) surface_normal lights total'
      end
  end.

Definition clamp_total (total_intensity : float) : float :=
  let t1 := if fgt total_intensity F1 then F1 else total_intensity in
  if flt t1 F0 then F0 else t1.

(** [lights] is [None] for a NULL array. *)
Definition calculate_total_lighting_intensity (surface_normal : vec3_t)
    (lights : option (list light_t)) (num_lights : Z) : res float :=
  match lights with
  | None => Ok F0_5
  | Some ls =>
      if num_lights <=? 0 then Ok F0_5
      else
        let* total := light_loop (Z.to_nat num_lights) 0 surface_normal ls F0 in
        Ok (clamp_total total)
  end.



End Lighting.

(** ** libc's qsort

    The order among elements the comparator reports equal is not fixed by
    C; the sort below keeps them in their original order.  For elements
    the comparator orders strictly every sorting algorithm gives the same
    result. *)

Fixpoint qsort_insert {A : Type} (cmp : A -> A -> Z) (a : A) (l : list A) : list A :=
  match l with
  | [] => [a]
  | b :: l' => if cmp a b <=? 0 then a :: b :: l' else b :: qsort_insert cmp a l'
  end.

Definition qsort {A : Type} (cmp : A -> A -> Z) (l : list A) : list A :=
  fold_right (qsort_insert cmp) [] l.

(** ** renderer.c *)

Module Renderer.
Import Math3d Canvas Lighting.

(** [model_t]: [num_vertices] and [num_edges] are the lengths of the two
    lists; an edge is a pair of vertex indices. *)
Record model_t : Type := mkmodel {
  vertices : list vec3_t;
  edges : list (Z * Z)
}.

Definition num_vertices (model : model_t) : Z := Z.of_nat (List.length (vertices model)).

(** [is_clipped]: 0 unclipped, 1 behind the eye, 2 outside the frustum. *)
Record projected_vertex_t : Type := mkpv {
  position_screen : vec3_t;
  is_clipped : Z
}.

Record renderable_edge_t : Type := mkedge {
  v0 : projected_vertex_t;
  v1 : projected_vertex_t;
  avg_z : float;
  original_edge_index : Z
}.

Definition compare_renderable_edges (edge_a edge_b : renderable_edge_t) : Z :=
  if flt (avg_z edge_a) (avg_z edge_b) then 1
  else if fgt (avg_z edge_a) (avg_z edge_b) then -1
  else 0.

(** One call of [draw_line_f]. *)
Record draw_call : Type := mkcall {
  call_x0 : float; call_y0 : float;
  call_x1 : float; call_y1 : float;
  call_thickness : float;
  call_intensity : float
}.

Section WithLibm.
Context {L : Libm}.
(** The content of a struct field that was never written. *)
Variable indeterminate : float.

Definition camera_position (local_vertex : vec3_t) (model_matrix view_matrix : mat4_t) : vec3_t :=
  let world_pos := mat4_transform_point model_matrix local_vertex in
  mat4_transform_point view_matrix world_pos.

Definition clip_row (projection_matrix : mat4_t) (row : nat) (camera_pos : vec3_t) : float :=
  fadd (fadd (fadd (fmul (at_ projection_matrix row) (x camera_pos))
                   (fmul (at_ projection_matrix (4 + row)) (y camera_pos)))
             (fmul (at_ projection_matrix (8 + row)) (z camera_pos)))
       (at_ projection_matrix (12 + row)).

Definition project_vertex (local_vertex : vec3_t)
    (model_matrix view_matrix projection_matrix : mat4_t)
    (screen_width screen_height : Z) : projected_vertex_t :=
  let camera_pos := camera_position local_vertex model_matrix view_matrix in
  let z_cam := z camera_pos in
  let clip_x := clip_row projection_matrix 0 camera_pos in
  let clip_y := clip_row projection_matrix 1 camera_pos in
  let clip_z := clip_row projection_matrix 2 camera_pos in
  let w_clip := clip_row projection_matrix 3 camera_pos in
  if flt w_clip FLT_EPSILON then
    mkpv (mkvec3 (of_int (-10000)) (of_int (-10000)) z_cam
                 indeterminate indeterminate indeterminate) 1
  else
    let ndc_x := fdiv clip_x w_clip in
    let ndc_y := fdiv clip_y w_clip in
    let ndc_z := fdiv clip_z w_clip in
    let clipped :=
      if flt ndc_x (fneg F1) || fgt ndc_x F1 ||
         flt ndc_y (fneg F1) || fgt ndc_y F1 ||
         flt ndc_z (fneg F1) || fgt ndc_z F1
      then 2 else 0 in
    let screen_x := fmul (fmul (fadd ndc_x F1) F0_5) (of_int screen_width) in
    let screen_y := fmul (fmul (fsub F1 ndc_y) F0_5) (of_int screen_height) in
    mkpv (vec3_set_cartesian
            (mkvec3 screen_x screen_y z_cam indeterminate indeterminate indeterminate)
            screen_x screen_y z_cam)
         clipped.

Definition unset_vertex : projected_vertex_t :=
  mkpv (mkvec3 indeterminate indeterminate indeterminate
               indeterminate indeterminate indeterminate) 0.

Definition project_all (model : model_t)
    (model_matrix view_matrix projection_matrix : mat4_t)
    (screen_width screen_height : Z) : list projected_vertex_t :=
  map (fun v => project_vertex v model_matrix view_matrix projection_matrix
                               screen_width screen_height)
      (vertices model).

Definition index_ok (n idx : Z) : bool := (0 <=? idx) && (idx <? n).

(** The loop that fills [edges_to_render]; [i] is the index of the
    first edge of [es] in the model. *)
Fixpoint collect_edges (projected_vertices : list projected_vertex_t)
    (i : Z) (es : list (Z * Z)) : list renderable_edge_t :=
  match es with
  | [] => []
  | (idx0, idx1) :: es' =>
      let n := Z.of_nat (List.length projected_vertices) in
      if (idx0 <? 0) || (idx0 >=? n) || (idx1 <? 0) || (idx1 >=? n) then
        collect_edges projected_vertices (i + 1) es'
      else
        let pv0 := nth (Z.to_nat idx0) projected_vertices unset_vertex in
        let pv1 := nth (Z.to_nat idx1) projected_vertices unset_vertex in
        if (is_clipped pv0 =? 1) || (is_clipped pv1 =? 1) then
          collect_edges projected_vertices (i + 1) es'
        else
          mkedge pv0 pv1
                 (fmul (fadd (z (position_screen pv0)) (z (position_screen pv1))) F0_5)
                 i
          :: collect_edges projected_vertices (i + 1) es'
  end.

Definition edges_to_render (model : model_t)
    (model_matrix view_matrix projection_matrix : mat4_t)
    (screen_width screen_height : Z) : list renderable_edge_t :=
  collect_edges
    (project_all model model_matrix view_matrix projection_matrix
                 screen_width screen_height)
    0 (edges model).

Definition sorted_edges (model : model_t)
    (model_matrix view_matrix projection_matrix : mat4_t)
    (screen_width screen_height : Z) : list renderable_edge_t :=
  qsort compare_renderable_edges
    (edges_to_render model model_matrix view_matrix projection_matrix
                     screen_width screen_height).

Definition zero_vertex : vec3_t :=
  mkvec3 indeterminate indeterminate indeterminate
         indeterminate indeterminate indeterminate.

(** The drawing loop, over the lighting function it may call and the
    line drawing it performs. *)
Section Draw.
Context {St : Type}.
Variable shade : vec3_t -> option (list light_t) -> Z -> res float.
Variable draw : St -> draw_call -> res St.

Definition edge_direction (model : model_t) (model_matrix : mat4_t)
    (edge : renderable_edge_t) : vec3_t :=
  let e := nth (Z.to_nat (original_edge_index edge)) (edges model) (0, 0) in
  let v0_world :=
    mat4_transform_point model_matrix
      (nth (Z.to_nat (fst e)) (vertices model) zero_vertex) in
  let v1_world :=
    mat4_transform_point model_matrix
      (nth (Z.to_nat (snd e)) (vertices model) zero_vertex) in
  vec3_normalize
    (mkvec3 (fsub (x v1_world) (x v0_world))
            (fsub (y v1_world) (y v0_world))
            (fsub (z v1_world) (z v0_world))
            indeterminate indeterminate indeterminate).

Definition line_intensity (model : model_t) (model_matrix : mat4_t)
    (lights : option (list light_t)) (num_lights : Z)
    (edge : renderable_edge_t) : res float :=
  match lights with
  | Some _ =>
      if 0 <? num_lights then
        shade (edge_direction model model_matrix edge) lights num_lights
      else Ok F1
  | None => Ok F1
  end.

Definition draw_edge (model : model_t) (model_matrix : mat4_t)
    (lights : option (list light_t)) (num_lights : Z) (line_thickness : float)
    (edge : renderable_edge_t) (s : St) : res St :=
  if (is_clipped (v0 edge) =? 0) && (is_clipped (v1 edge) =? 0) then
    let* intensity := line_intensity model model_matrix lights num_lights edge in
    draw s (mkcall (x (position_screen (v0 edge))) (y (position_screen (v0 edge)))
                   (x (position_screen (v1 edge))) (y (position_screen (v1 edge)))
                   line_thickness intensity)
  else Ok s.

Definition draw_edges (model : model_t) (model_matrix : mat4_t)
    (lights : option (list light_t)) (num_lights : Z) (line_thickness : float)
    (sorted : list renderable_edge_t) (s : St) : res St :=
  for_each (draw_edge model model_matrix lights num_lights line_thickness) sorted s.
End Draw.

Definition draw_on_canvas (fuel : nat) (c : canvas_t) (d : draw_call) : res canvas_t :=
  draw_line_f fuel c (call_x0 d) (call_y0 d) (call_x1 d) (call_y1 d)
              (call_thickness d) (call_intensity d).

Definition render_wireframe (fuel : nat) (canvas : canvas_t) (model : model_t)
    (model_matrix view_matrix projection_matrix : mat4_t)
    (lights : option (list light_t)) (num_lights : Z)
    (viewport_radius_param line_thickness : float) : res canvas_t :=
  match vertices model, edges model with
  | [], _ | _, [] => Ok canvas
  | _, _ =>
      let canvas' := canvas_set_circular_viewport canvas viewport_radius_param in
      draw_edges calculate_total_lighting_intensity (draw_on_canvas fuel)
        model model_matrix lights num_lights line_thickness
        (sorted_edges model model_matrix view_matrix projection_matrix
                      (width canvas) (height canvas))
        canvas'
  end.

(** The calls of [draw_line_f] a [render_wireframe] makes, in order,
    with [shade] in the place of the lighting function. *)
Definition record_call (log : list draw_call) (d : draw_call) : res (list draw_call) :=
  Ok (log ++ [d]).

Definition render_calls_with (shade : vec3_t -> option (list light_t) -> Z -> res float)
    (screen_width screen_height : Z) (model : model_t)
    (model_matrix view_matrix projection_matrix : mat4_t)
    (lights : option (list light_t)) (num_lights : Z)
    (line_thickness : float) : res (list draw_call) :=
  match vertices model, edges model with
  | [], _ | _, [] => Ok []
  | _, _ =>
      draw_edges shade record_call
        model model_matrix lights num_lights line_thickness
        (sorted_edges model model_matrix view_matrix projection_matrix
                      screen_width screen_height)
        []
  end.

Definition render_wireframe_calls :=
  render_calls_with calculate_total_lighting_intensity.

End WithLibm.

End Renderer.

(** ** obj_loader.c *)

Module ObjLoader.
Import Math3d Renderer.

Definition MAX_LINE_LENGTH : nat := 256.
Definition MAX_FACE_VERTS : nat := 32.

Fixpoint take (n : nat) (s : string) : string :=
  match n, s with
  | S n', String c s' => String c (take n' s')
  | _, _ => EmptyString
  end.

Fixpoint drop (n : nat) (s : string) : string :=
  match n, s with
  | S n', String _ s' => drop n' s'
  | _, _ => s
  end.

Definition newline : ascii := "010"%char.
Definition carriage_return : ascii := "013"%char.
Definition space : ascii := " "%char.

(** [strchr(current_pos, newline)]: the text before the first newline
    and, when there is one, the text after it. *)
Fixpoint split_newline (s : string) : string * option string :=
  match s with
  | EmptyString => (EmptyString, None)
  | String c s' =>
      if Ascii.eqb c newline then (EmptyString, Some s')
      else let '(l, rest) := split_newline s' in (String c l, rest)
  end.

(** The content of [line_buffer] and the new [current_pos]. *)
Definition next_line (s : string) : string * string :=
  match split_newline s with
  | (l, Some rest) => (take (MAX_LINE_LENGTH - 1) l, rest)
  | (_, None) =>
      let l := take (MAX_LINE_LENGTH - 1) s in
      (l, drop (String.length l) s)
  end.

Fixpoint trim_cr (line : string) : string :=
  match line with
  | EmptyString => EmptyString
  | String c EmptyString => if Ascii.eqb c carriage_return then EmptyString else line
  | String c rest => String c (trim_cr rest)
  end.

(** The loop that steps [token_start] over spaces. *)
Fixpoint skip_spaces (s : string) : string :=
  match s with
  | String c s' => if Ascii.eqb c space then skip_spaces s' else s
  | EmptyString => s
  end.

(** The loop that steps [token_start] to the next space or to the end. *)
Fixpoint skip_token (s : string) : string :=
  match s with
  | String c s' => if Ascii.eqb c space then s else skip_token s'
  | EmptyString => s
  end.

Lemma skip_spaces_length (s : string) :
  (String.length (skip_spaces s) <= String.length s)%nat.
Proof.
  induction s as [|c s IH]; simpl; [lia|].
  destruct (Ascii.eqb c space); simpl; lia.
Qed.

Lemma skip_token_length (s : string) :
  (String.length (skip_token s) <= String.length s)%nat.
Proof.
  induction s as [|c s IH]; simpl; [lia|].
  destruct (Ascii.eqb c space); simpl; lia.
Qed.

Lemma skip_token_progress (s : string) :
  skip_spaces s <> EmptyString ->
  (String.length (skip_token (skip_spaces s)) < String.length s)%nat.
Proof.
  induction s as [|c s IH]; simpl; [congruence|].
  destruct (Ascii.eqb c space) eqn:Hc; intros H.
  - specialize (IH H). lia.
  - simpl. rewrite Hc. pose proof (skip_token_length s). lia.
Qed.

Lemma split_newline_rest (s l rest : string) :
  split_newline s = (l, Some rest) -> (String.length rest < String.length s)%nat.
Proof.
  revert l rest. induction s as [|c s IH]; simpl; intros l rest H; [congruence|].
  destruct (Ascii.eqb c newline).
  - inversion H; subst. lia.
  - destruct (split_newline s) as [l' r'] eqn:E. inversion H; subst.
    specialize (IH _ _ eq_refl). lia.
Qed.

Lemma drop_length (n : nat) (s : string) :
  String.length (drop n s) = (String.length s - n)%nat.
Proof.
  revert s. induction n as [|n IH]; intros [|c s]; simpl; auto.
Qed.

Lemma next_line_progress (s : string) :
  s <> EmptyString -> (String.length (snd (next_line s)) < String.length s)%nat.
Proof.
  intros Hs. unfold next_line.
  destruct (split_newline s) as [l [rest|]] eqn:E; simpl.
  - eapply split_newline_rest; eauto.
  - rewrite drop_length. destruct s as [|c s]; [congruence|]. simpl. lia.
Qed.

Definition is_empty (s : string) : bool :=
  match s with EmptyString => true | _ => false end.

Lemma next_token_progress (s : string) :
  s <> EmptyString ->
  (String.length (skip_token (skip_spaces s)) < String.length s)%nat.
Proof.
  intros Hs. destruct (skip_spaces s) eqn:E.
  - simpl. destruct s; [congruence | simpl; lia].
  - rewrite <- E. apply skip_token_progress. rewrite E. discriminate.
Qed.

(** The loader's dynamic arrays and what it has written to stderr. *)
Record loader : Type := mkloader {
  vertices_da : list vec3_t;
  edges_da : list (Z * Z);
  diagnostics : list string
}.

Definition out_of_bounds_message (line_buffer : string) : string :=
  String.append "OBJ Loader: Vertex index out of bounds in face definition. Line: "
    (String.append line_buffer (String newline EmptyString)).

(** The edge loop of a face over the index array [face_verts_indices];
    [k] iterations are left and [i] is the loop counter. *)
Fixpoint face_edge_loop (k : nat) (i : nat) (face_verts_indices : list Z)
    (line_buffer : string) (st : loader) : loader :=
  match k with
  | O => st
  | S k' =>
      let n := List.length face_verts_indices in
      let idx1 := nth i face_verts_indices 0 - 1 in
      let idx2 := nth ((i + 1) mod n) face_verts_indices 0 - 1 in
      let count := Z.of_nat (List.length (vertices_da st)) in
      let st' :=
        if (idx1 <? 0) || (idx1 >=? count) || (idx2 <? 0) || (idx2 >=? count) then
          mkloader (vertices_da st) (edges_da st)
                   (diagnostics st ++ [out_of_bounds_message line_buffer])
        else
          mkloader (vertices_da st) (edges_da st ++ [(idx1, idx2)]) (diagnostics st) in
      face_edge_loop k' (S i) face_verts_indices line_buffer st'
  end.

Definition add_face (face_verts_indices : list Z) (line_buffer : string)
    (st : loader) : loader :=
  if (3 <=? List.length face_verts_indices)%nat then
    face_edge_loop (List.length face_verts_indices) 0 face_verts_indices line_buffer st
  else st.

Section Parser.
Context {L : Libm}.
(** [sscanf(line_buffer, "v %f %f %f", &x, &y, &z) == 3] with the three
    values, and [sscanf(token_start, "%d", &v_idx) == 1] with the value. *)
Variable sscanf_v : string -> option (float * float * float).
Variable sscanf_d : string -> option Z.

(** The token loop of a face line: [acc] is the index array filled so
    far, at most [MAX_FACE_VERTS] entries. *)
Equations? parse_face_indices (token_start : string) (acc : list Z) : list Z
    by wf (String.length token_start) lt :=
  parse_face_indices EmptyString acc := acc;
  parse_face_indices s acc :=
    if (List.length acc <? MAX_FACE_VERTS)%nat then
      if is_empty (skip_spaces s) then acc
      else
        parse_face_indices (skip_token (skip_spaces s))
          (match sscanf_d (skip_spaces s) with
           | Some v_idx => acc ++ [v_idx]
           | None => acc
           end)
    else acc.
Proof.
  apply (next_token_progress (String a s0)). discriminate.
Qed.

Definition process_line (line_buffer : string) (st : loader) : loader :=
  if String.prefix "v "%string line_buffer then
    match sscanf_v line_buffer with
    | Some (vx, vy, vz) =>
        mkloader (vertices_da st ++ [vec3_create_cartesian vx vy vz])
                 (edges_da st) (diagnostics st)
    | None => st
    end
  else if String.prefix "f "%string line_buffer then
    add_face (parse_face_indices (drop 2 line_buffer) []) line_buffer st
  else st.

(** The loop over the lines, until [current_pos] is at the end. *)
Equations? parse_lines (current_pos : string) (st : loader) : loader
    by wf (String.length current_pos) lt :=
  parse_lines EmptyString st := st;
  parse_lines s st :=
    parse_lines (snd (next_line s)) (process_line (trim_cr (fst (next_line s))) st).
Proof.
  apply (next_line_progress (String a s0)). discriminate.
Qed.

Definition initial_loader : loader := mkloader [] [] [].

(** [model_create] refuses an empty vertex array, and the loader then
    returns NULL. *)
Definition obj_load_from_string (obj_data_string : string) : option model_t * list string :=
  let st := parse_lines obj_data_string initial_loader in
  match vertices_da st with
  | [] => (None, diagnostics st)
  | _ => (Some (mkmodel (vertices_da st) (edges_da st)), diagnostics st)
  end.

(** The line buffers the loop goes through, in order. *)
Equations? lines_of (current_pos : string) : list string
    by wf (String.length current_pos) lt :=
  lines_of EmptyString := [];
  lines_of s := trim_cr (fst (next_line s)) :: lines_of (snd (next_line s)).
Proof.
  apply (next_line_progress (String a s0)). discriminate.
Qed.

End Parser.

(** The edges of the polygon with the 1-based corners [idxs], in 0-based
    indices: each corner joined to the next, the last to the first. *)
Definition polygon_edges (idxs : list Z) : list (Z * Z) :=
  match idxs with
  | [] => []
  | first :: rest => combine (map Z.pred idxs) (map Z.pred (rest ++ [first]))
  end.

Definition edge_in_range (count : Z) (e : Z * Z) : bool :=
  (0 <=? fst e) && (fst e <? count) && (0 <=? snd e) && (snd e <? count).

End ObjLoader.

(** ** Interpretations of the library functions, for evaluating examples

    The examples below evaluate the code on concrete inputs and need some
    interpretation of the external functions.  The angle functions are never
    looked at by what the examples state, so any interpretation serves; the
    conversions read decimal numbers as [sscanf] does, without the
    exponents, infinities and hexadecimal forms it also accepts. *)

Module Interp.
Import ObjLoader.

Definition libm : Libm := {| acosf := fun _ => F0; atan2f := fun _ _ => F0 |}.

Definition trig : Trig :=
  {| sinf := fun _ => F0; cosf := fun _ => F1; tanf := fun _ => F1 |}.

Definition is_space (c : ascii) : bool :=
  let n := nat_of_ascii c in
  ((n =? 32) || ((9 <=? n) && (n <=? 13)))%nat.

Fixpoint skip_ws (s : string) : string :=
  match s with
  | String c s' => if is_space c then skip_ws s' else s
  | EmptyString => s
  end.

Definition digit (c : ascii) : option Z :=
  let n := nat_of_ascii c in
  if ((48 <=? n) && (n <=? 57))%nat then Some (Z.of_nat (n - 48)) else None.

Fixpoint read_digits (s : string) (acc : option Z) : option Z * string :=
  match s with
  | String c s' =>
      match digit c with
      | Some d => read_digits s' (Some (10 * match acc with Some a => a | None => 0 end + d))
      | None => (acc, s)
      end
  | EmptyString => (acc, s)
  end.

(** A decimal integer after optional white space and sign, and the text
    that follows it. *)
Definition read_int (s : string) : option (Z * string) :=
  let t := skip_ws s in
  let '(negative, t') :=
    match t with
    | String c r =>
        if Ascii.eqb c "-"%char then (true, r)
        else if Ascii.eqb c "+"%char then (false, r)
        else (false, t)
    | EmptyString => (false, t)
    end in
  match read_digits t' None with
  | (Some n, rest) => Some (if negative then - n else n, rest)
  | (None, _) => None
  end.

(** The conversion of the format %d. *)
Definition sscanf_d (s : string) : option Z := option_map fst (read_int s).

(** The digits of a fraction: their value and their number. *)
Fixpoint read_fraction (s : string) (acc : Z) (k : Z) : Z * Z * string :=
  match s with
  | String c s' =>
      match digit c with
      | Some d => read_fraction s' (10 * acc + d) (k + 1)
      | None => (acc, k, s)
      end
  | EmptyString => (acc, k, s)
  end.

(** The decimal [n / 10^k] of sign [negative], rounded to nearest even. *)
Definition decimal (negative : bool) (n k : Z) : float :=
  match n with
  | Z.pos p => SFdiv prec emax (S754_finite negative p 0) (S754_finite false (Z.to_pos (10 ^ k)) 0)
  | _ => S754_zero negative
  end.

(** A decimal number after optional white space and sign, without
    exponent, and the text that follows it. *)
Definition read_float (s : string) : option (float * string) :=
  let t := skip_ws s in
  let '(negative, t') :=
    match t with
    | String c r =>
        if Ascii.eqb c "-"%char then (true, r)
        else if Ascii.eqb c "+"%char then (false, r)
        else (false, t)
    | EmptyString => (false, t)
    end in
  let '(whole, r1) := read_digits t' None in
  match r1 with
  | String c r2 =>
      if Ascii.eqb c "."%char then
        let '(n, k, r3) := read_fraction r2 (match whole with Some w => w | None => 0 end) 0 in
        match whole, k with
        | None, 0 => None
        | _, _ => Some (decimal negative n k, r3)
        end
      else option_map (fun w => (decimal negative w 0, r1)) whole
  | EmptyString => option_map (fun w => (decimal negative w 0, r1)) whole
  end.

(** The conversion of a vertex line, format "v %f %f %f", for coordinates
    written as decimal numbers without exponent. *)
Definition sscanf_v (s : string) : option (float * float * float) :=
  match s with
  | String c r =>
      if Ascii.eqb c "v"%char then
        match read_float r with
        | Some (a, r1) =>
            match read_float r1 with
            | Some (b, r2) =>
                match read_float r2 with
                | Some (c', _) => Some (a, b, c')
                | None => None
                end
            | None => None
            end
        | None => None
        end
      else None
  | EmptyString => None
  end.

End Interp.

(** * Definitions the statements use *)

(** ** Classes of binary32 numbers *)

Definition is_finite (a : float) : bool :=
  match a with
  | S754_zero _ | S754_finite _ _ _ => true
  | _ => false
  end.

(** The floats that are numbers and not negative: +0, the positive
    finite numbers and +infinity. *)
Definition nonneg (a : float) : bool :=
  match a with
  | S754_zero false | S754_finite false _ _ | S754_infinity false => true
  | _ => false
  end.

(** A position in the order of the binary32 numbers: the infinities at
    the ends, the zeros in the middle, the finite numbers by sign, then
    exponent, then mantissa. *)
Definition rank (a : float) : Z * Z * Z :=
  match a with
  | S754_infinity true => (-2, 0, 0)
  | S754_finite true m e => (-1, - e, - Z.pos m)
  | S754_zero _ => (0, 0, 0)
  | S754_nan => (0, 0, 0)
  | S754_finite false m e => (1, e, Z.pos m)
  | S754_infinity false => (2, 0, 0)
  end.

Definition rank_lt (p q : Z * Z * Z) : Prop :=
  let '(p1, p2, p3) := p in
  let '(q1, q2, q3) := q in
  p1 < q1 \/ (p1 = q1 /\ (p2 < q2 \/ (p2 = q2 /\ p3 < q3))).

(** ** The samples of a line *)

(** The values a loop [for (float t = lo; t <= hi; t += 0.5f)] gives its
    counter, in order. *)
Fixpoint grid (fuel : nat) (t hi : float) : res (list float) :=
  if fle t hi then
    match fuel with
    | O => OutOfFuel
    | S fuel' => let* g := grid fuel' (fadd t F0_5) hi in Ok (t :: g)
    end
  else Ok [].

(** The offsets of two nested loops over the same grid, the outer one
    giving the second component. *)
Definition offsets (g : list float) : list (float * float) :=
  flat_map (fun ty => map (fun tx => (tx, ty)) g) g.

Definition in_disc (half_thick : float) (o : float * float) : bool :=
  fle (fadd (fmul (fst o) (fst o)) (fmul (snd o) (snd o))) (fmul half_thick half_thick).

(** The samples of one brush stamped at (x, y). *)
Definition stamp (x y intensity : float) (os : list (float * float)) : list Canvas.sample :=
  map (fun o => (fadd x (fst o), fadd y (snd o), intensity)) os.

(** The points of the line walk: [n] of them, each the previous one plus
    the increments. *)
Fixpoint walk_positions (n : nat) (x y x_increment y_increment : float) : list (float * float) :=
  match n with
  | O => []
  | S n' => (x, y) :: walk_positions n' (fadd x x_increment) (fadd y y_increment)
                                     x_increment y_increment
  end.

(** Performing a list of samples, one call of [put] for each. *)
Definition replay {St : Type} (put : St -> float -> float -> float -> res St)
    (l : list Canvas.sample) (s : St) : res St :=
  for_each (fun (smp : Canvas.sample) s' => put s' (fst (fst smp)) (snd (fst smp)) (snd smp)) l s.

(** The samples of [draw_line_f], as the source takes them: none for an
    intensity below epsilon; for a segment of no step the grid offsets
    inside the disc of radius thickness/2 around the start; otherwise, at
    each of the steps+1 points of the walk, every offset of the grid of
    half-width max(0.5, thickness/2), corners included. *)
Definition line_samples (fuel : nat) (x0 y0 x1 y1 thickness line_intensity : float)
    : res (list Canvas.sample) :=
  let clamped_intensity := Canvas.clamp01 line_intensity in
  if flt clamped_intensity FLT_EPSILON then Ok []
  else
    let* steps := Canvas.line_steps x0 y0 x1 y1 in
    if steps =? 0 then
      let half_thick := fdiv thickness F2 in
      let* g := grid fuel (fneg half_thick) half_thick in
      Ok (stamp x0 y0 clamped_intensity (List.filter (in_disc half_thick) (offsets g)))
    else
      let half_thick := fmaxf F0_5 (fdiv thickness F2) in
      let* g := grid fuel (fneg half_thick) half_thick in
      Ok (flat_map (fun p => stamp (fst p) (snd p) clamped_intensity (offsets g))
                   (walk_positions (Z.to_nat (steps + 1)) x0 y0
                      (fdiv (fsub x1 x0) (of_int steps))
                      (fdiv (fsub y1 y0) (of_int steps)))).

(** ** The edges of a scene *)

Section EdgeDefinitions.
Import Math3d Renderer.
Variable indeterminate : float.

(** What the edge loop does with the edge of index [i] and endpoints
    [e]: the renderable edge it appends, if any. *)
Definition kept_edge (projected_vertices : list projected_vertex_t) (i : Z) (e : Z * Z)
    : option renderable_edge_t :=
  let n := Z.of_nat (List.length projected_vertices) in
  if index_ok n (fst e) && index_ok n (snd e) then
    let pv0 := nth (Z.to_nat (fst e)) projected_vertices (unset_vertex indeterminate) in
    let pv1 := nth (Z.to_nat (snd e)) projected_vertices (unset_vertex indeterminate) in
    if (is_clipped pv0 =? 1) || (is_clipped pv1 =? 1) then None
    else Some (mkedge pv0 pv1
                 (fmul (fadd (z (position_screen pv0)) (z (position_screen pv1))) F0_5) i)
  else None.

(** The call the drawing loop issues for an edge at a given intensity. *)
Definition call_of (line_thickness intensity : float) (edge : renderable_edge_t) : draw_call :=
  mkcall (x (position_screen (v0 edge))) (y (position_screen (v0 edge)))
         (x (position_screen (v1 edge))) (y (position_screen (v1 edge)))
         line_thickness intensity.

(** The test of the drawing loop. *)
Definition both_unclipped (edge : renderable_edge_t) : bool :=
  (is_clipped (v0 edge) =? 0) && (is_clipped (v1 edge) =? 0).

Definition depth_is_number (edge : renderable_edge_t) : Prop := is_nan (avg_z edge) = false.

(** [a] may come before [b]: [a] is not farther than [b]. *)
Definition not_farther (a b : renderable_edge_t) : Prop :=
  flt (avg_z a) (avg_z b) = false.

End EdgeDefinitions.

(** ** The bookkeeping of the loader *)

Section LoaderDefinitions.
Import ObjLoader.

Definition rejected (count : Z) (e : Z * Z) : bool := negb (edge_in_range count e).

(** Every edge stored so far is within the vertices read so far. *)
Definition edges_in_range (st : loader) : Prop :=
  Forall (fun e => edge_in_range (Z.of_nat (List.length (vertices_da st))) e = true)
         (edges_da st).

End LoaderDefinitions.

(** ** Numbers up to the sign of zero *)

Definition is_zero (a : float) : bool :=
  match a with S754_zero _ => true | _ => false end.

(** The same number: identical, or both a zero, of either sign. *)
Definition same_number (a b : float) : Prop :=
  a = b \/ (is_zero a = true /\ is_zero b = true).

(** A finite number in the canonical form of binary32, as every finite
    value of a C [float] is: the mantissa has 24 bits, or fewer at the
    smallest exponent. *)
Definition finite32 (a : float) : bool :=
  is_finite a && valid_binary prec emax a.

Definition finite_vec (v : Math3d.vec3_t) : bool :=
  finite32 (Math3d.x v) && finite32 (Math3d.y v) && finite32 (Math3d.z v).

(** The same point, coordinate by coordinate. *)
Definition same_point (v : Math3d.vec3_t) (vx vy vz : float) : Prop :=
  same_number (Math3d.x v) vx /\ same_number (Math3d.y v) vy /\ same_number (Math3d.z v) vz.

(** A matrix whose last row is (0, 0, 0, 1). *)
Definition affine (mat : Math3d.mat4_t) : Prop :=
  is_zero (Math3d.at_ mat 3) = true /\ is_zero (Math3d.at_ mat 7) = true /\
  is_zero (Math3d.at_ mat 11) = true /\ Math3d.at_ mat 15 = F1.

(** ** Pixels of a canvas *)

(** [canvas->pixels[py * canvas->width + px]] *)
Definition pixel_at (c : Canvas.canvas_t) (px py : Z) : float :=
  nth (Z.to_nat (py * Canvas.width c + px)) (Canvas.pixels c) F0.

Definition on_canvas (c : Canvas.canvas_t) (px py : Z) : Prop :=
  0 <= px < Canvas.width c /\ 0 <= py < Canvas.height c.

(** The same dimensions, viewport radius and number of pixels. *)
Definition same_frame (c c' : Canvas.canvas_t) : Prop :=
  Canvas.width c' = Canvas.width c /\ Canvas.height c' = Canvas.height c /\
  Canvas.active_viewport_radius c' = Canvas.active_viewport_radius c /\
  List.length (Canvas.pixels c') = List.length (Canvas.pixels c).

(** ** Texts of the loader *)

Section LoaderTexts.
Import ObjLoader.

Fixpoint has_char (c : ascii) (s : string) : bool :=
  match s with
  | EmptyString => false
  | String c' s' => Ascii.eqb c' c || has_char c s'
  end.

(** A text that is empty or ends with a newline. *)
Fixpoint terminated (s : string) : bool :=
  match s with
  | EmptyString => true
  | String c EmptyString => Ascii.eqb c newline
  | String _ s' => terminated s'
  end.

(** The vertex a line adds: one for a vertex record whose three
    coordinates convert, none otherwise. *)
Definition vertex_of_line {L : Libm} (sscanf_v : string -> option (float * float * float))
    (line : string) : list Math3d.vec3_t :=
  if String.prefix "v "%string line then
    match sscanf_v line with
    | Some (vx, vy, vz) => [Math3d.vec3_create_cartesian vx vy vz]
    | None => []
    end
  else [].

End LoaderTexts.

(** ** Concrete inputs *)

(** The canvas of a single pixel, as [canvas_create(1, 1)] returns it. *)
Definition one_pixel_canvas : Canvas.canvas_t := Canvas.mkcanvas 1 1 [F0] F0.

Definition zero_vector : Math3d.vec3_t := Math3d.mkvec3 F0 F0 F0 F0 F0 F0.

(** The vector (1e30, 0, 0), whose square overflows binary32. *)
Definition far_vector : Math3d.vec3_t :=
  Math3d.mkvec3 (of_int (10 ^ 30)) F0 F0 (of_int (10 ^ 30)) F0 F0.

(** Scenes for the renderer.

    The camera is at the origin and looks down -Z through the frustum
    [-1, 1] x [-1, 1] with the near plane at 1 and the far plane at 10; the
    model and view matrices are the identity and the screen is 8 by 8. *)

Module Scene.
Import Math3d Canvas Lighting Renderer.

Definition vertex (a b c : Z) : vec3_t :=
  vec3_create_cartesian (L := Interp.libm) (of_int a) (of_int b) (of_int c).

Definition frustum : mat4_t :=
  mat4_frustum_asymmetric (of_int (-1)) (of_int 1) (of_int (-1)) (of_int 1)
                          (of_int 1) (of_int 10).

Definition canvas : canvas_t := mkcanvas 8 8 (repeat F0 64) F0.

(** One edge from the axis, inside the frustum, to (3, 0, -2), whose
    x is 1.5 in normalised device coordinates: outside the frustum. *)
Definition wide_model : model_t := mkmodel [vertex 0 0 (-2); vertex 3 0 (-2)] [(0, 1)].

(** One edge from a vertex behind the camera to one in front of it. *)
Definition behind_model : model_t := mkmodel [vertex 0 0 5; vertex 0 0 (-2)] [(0, 1)].

(** A far edge, at z = -5, listed before a near edge, at z = -2. *)
Definition depth_model : model_t :=
  mkmodel [vertex 0 0 (-5); vertex 1 0 (-5); vertex 0 0 (-2); vertex 1 0 (-2)]
          [(0, 1); (2, 3)].

(** The same two edges listed in the other order. *)
Definition depth_model_swapped : model_t :=
  mkmodel [vertex 0 0 (-5); vertex 1 0 (-5); vertex 0 0 (-2); vertex 1 0 (-2)]
          [(2, 3); (0, 1)].

Definition project (model : model_t) : list projected_vertex_t :=
  project_all (L := Interp.libm) F0 model mat4_identity mat4_identity frustum 8 8.

Definition renderable (model : model_t) : list renderable_edge_t :=
  edges_to_render (L := Interp.libm) F0 model mat4_identity mat4_identity frustum 8 8.

Definition sorted (model : model_t) : list renderable_edge_t :=
  sorted_edges (L := Interp.libm) F0 model mat4_identity mat4_identity frustum 8 8.

Definition calls (model : model_t) : res (list draw_call) :=
  render_wireframe_calls (L := Interp.libm) F0 8 8 model mat4_identity mat4_identity
                         frustum None 0 F1.

Definition render (model : model_t) : res canvas_t :=
  render_wireframe (L := Interp.libm) F0 8 canvas model mat4_identity mat4_identity
                   frustum None 0 F0 F1.

End Scene.

(** Texts for the loader. *)

Module ObjText.
Import ObjLoader.

Definition nl : string := String newline EmptyString.

Definition load : string -> option Renderer.model_t * list string :=
  obj_load_from_string (L := Interp.libm) Interp.sscanf_v Interp.sscanf_d.






(** The text embedded in [generate_soccer_ball]: 60 vertices, 12
    pentagons and 20 hexagons. *)
Definition soccer_ball_text : string :=
"v 0.0 0.0 1.021
v 0.4035482 0.0 0.9378643
v -0.2274644 0.3333333 0.9378643
v -0.1471226 -0.375774 0.9378643
v 0.579632 0.3333333 0.7715933
v 0.5058321 -0.375774 0.8033483
v -0.6020514 0.2908927 0.7715933
v -0.05138057 0.6666667 0.7715933
v 0.1654988 -0.6080151 0.8033483
v -0.5217096 -0.4182147 0.7715933
v 0.8579998 0.2908927 0.4708062
v 0.3521676 0.6666667 0.6884578
v 0.7841999 -0.4182147 0.5025612
v -0.657475 0.5979962 0.5025612
v -0.749174 -0.08488134 0.6884578
v -0.3171418 0.8302373 0.5025612
v 0.1035333 -0.8826969 0.5025612
v -0.5836751 -0.6928964 0.4708062
v 0.8025761 0.5979962 0.2017741
v 0.9602837 -0.08488134 0.3362902
v 0.4899547 0.8302373 0.3362902
v 0.7222343 -0.6928964 0.2017741
v -0.8600213 0.5293258 0.1503935
v -0.9517203 -0.1535518 0.3362902
v -0.1793548 0.993808 0.1503935
v 0.381901 -0.9251375 0.2017741
v -0.2710537 -0.9251375 0.3362902
v -0.8494363 -0.5293258 0.2017741
v 0.8494363 0.5293258 -0.2017741
v 1.007144 -0.1535518 -0.06725804
v 0.2241935 0.993808 0.06725804
v 0.8600213 -0.5293258 -0.1503935
v -0.7222343 0.6928964 -0.2017741
v -1.007144 0.1535518 0.06725804
v -0.381901 0.9251375 -0.2017741
v 0.1793548 -0.993808 -0.1503935
v -0.2241935 -0.993808 -0.06725804
v -0.8025761 -0.5979962 -0.2017741
v 0.5836751 0.6928964 -0.4708062
v 0.9517203 0.1535518 -0.3362902
v 0.2710537 0.9251375 -0.3362902
v 0.657475 -0.5979962 -0.5025612
v -0.7841999 0.4182147 -0.5025612
v -0.9602837 0.08488134 -0.3362902
v -0.1035333 0.8826969 -0.5025612
v 0.3171418 -0.8302373 -0.5025612
v -0.4899547 -0.8302373 -0.3362902
v -0.8579998 -0.2908927 -0.4708062
v 0.5217096 0.4182147 -0.7715933
v 0.749174 0.08488134 -0.6884578
v 0.6020514 -0.2908927 -0.7715933
v -0.5058321 0.375774 -0.8033483
v -0.1654988 0.6080151 -0.8033483
v 0.05138057 -0.6666667 -0.7715933
v -0.3521676 -0.6666667 -0.6884578
v -0.579632 -0.3333333 -0.7715933
v 0.1471226 0.375774 -0.9378643
v 0.2274644 -0.3333333 -0.9378643
v -0.4035482 0.0 -0.9378643
v 0.0 0.0 -1.021
f 1 4 9 6 2
f 3 8 16 14 7
f 5 11 19 21 12
f 10 15 24 28 18
f 13 22 32 30 20
f 17 27 37 36 26
f 23 33 43 44 34
f 25 31 41 45 35
f 29 40 50 49 39
f 38 48 56 55 47
f 42 46 54 58 51
f 52 53 57 60 59
f 1 2 5 12 8 3
f 1 3 7 15 10 4
f 2 6 13 20 11 5
f 4 10 18 27 17 9
f 6 9 17 26 22 13
f 7 14 23 34 24 15
f 8 12 21 31 25 16
f 11 20 30 40 29 19
f 14 16 25 35 33 23
f 18 28 38 47 37 27
f 19 29 39 41 31 21
f 22 26 36 46 42 32
f 24 34 44 48 38 28
f 30 32 42 51 50 40
f 33 35 45 53 52 43
f 36 37 47 55 54 46
f 39 49 57 53 45 41
f 43 52 59 56 48 44
f 49 50 51 58 60 57
f 54 55 56 59 60 58
"%string.

End ObjText.

(** ** renderer.c: the soccer ball *)

Module SoccerBall.
Import Math3d Renderer ObjLoader.

Section WithLibm.
Context {L : Libm}.
Variable sscanf_v : string -> option (float * float * float).
Variable sscanf_d : string -> option Z.

(** The cube the source falls back to when the text does not load. *)
Definition cube_model : model_t :=
  let s := F1 in
  mkmodel
    [vec3_create_cartesian (fneg s) (fneg s) (fneg s);
     vec3_create_cartesian s (fneg s) (fneg s);
     vec3_create_cartesian s s (fneg s);
     vec3_create_cartesian (fneg s) s (fneg s);
     vec3_create_cartesian (fneg s) (fneg s) s;
     vec3_create_cartesian s (fneg s) s;
     vec3_create_cartesian s s s;
     vec3_create_cartesian (fneg s) s s]
    [(0, 1); (1, 2); (2, 3); (3, 0); (4, 5); (5, 6); (6, 7); (7, 4);
     (0, 4); (1, 5); (2, 6); (3, 7)].

Definition generate_soccer_ball : model_t :=
  match fst (obj_load_from_string sscanf_v sscanf_d ObjText.soccer_ball_text) with
  | Some model => model
  | None => cube_model
  end.

End WithLibm.

End SoccerBall.

(** Inputs for the further properties. *)

Module Examples.
Import Math3d Canvas Renderer.

Definition point (a b c : Z) : vec3_t := mkvec3 (of_int a) (of_int b) (of_int c) F0 F0 F0.

(** A model wholly behind the camera of [Scene]. *)
Definition hidden_model : model_t :=
  mkmodel [Scene.vertex 0 0 5; Scene.vertex 1 0 5] [(0, 1)].

(** The 8 by 8 canvas with a circular viewport of radius 2. *)
Definition clipped_canvas : canvas_t := mkcanvas 8 8 (repeat F0 64) F2.

(** The result of a call, for calls that return one. *)
Definition value {A : Type} (r : res A) (default : A) : A :=
  match r with Ok a => a | _ => default end.

End Examples.

(** * Properties *)

Lemma Ok_inj {A : Type} (a b : A) : Ok a = Ok b -> a = b.
Proof. congruence. Qed.

(** ** Facts about binary32 comparisons *)

Lemma flt_fle (a b : float) : flt a b = true -> fle a b = true.
Proof.
  unfold flt, fle, SFltb, SFleb.
  destruct (SFcompare a b) as [[ | | ]|]; congruence.
Qed.

Lemma fcompare_swap (a b : float) :
  SFcompare b a = option_map CompOpp (SFcompare a b).
Proof.
  destruct a as [sa|sa| |sa ma ea], b as [sb|sb| |sb mb eb]; simpl;
    try reflexivity;
    try (destruct sa; reflexivity);
    try (destruct sb; reflexivity);
    try (destruct sa, sb; reflexivity).
  destruct sa, sb; simpl; try reflexivity.
  - rewrite (Z.compare_antisym ea eb).
    destruct (ea ?= eb); simpl; try reflexivity.
    rewrite (Pos.compare_cont_antisym ma mb Eq). simpl.
    destruct (Pos.compare_cont Eq ma mb); reflexivity.
  - rewrite (Z.compare_antisym ea eb).
    destruct (ea ?= eb); simpl; try reflexivity.
    rewrite (Pos.compare_cont_antisym ma mb Eq). reflexivity.
Qed.

(** For operands that are not NaN, "not a < b" is "b <= a". *)
Lemma not_flt_fle (a b : float) :
  is_nan a = false -> is_nan b = false -> flt a b = false -> fle b a = true.
Proof.
  unfold flt, fle, SFltb, SFleb. intros Ha Hb.
  rewrite (fcompare_swap a b).
  destruct (SFcompare a b) as [c|] eqn:E.
  - destruct c; simpl; congruence.
  - destruct a, b; simpl in *; congruence.
Qed.

Lemma negb_flt_fle (a b : float) :
  is_nan a = false -> is_nan b = false -> negb (flt a b) = fle b a.
Proof.
  unfold flt, fle, SFltb, SFleb. intros Ha Hb. rewrite (fcompare_swap a b).
  destruct (SFcompare a b) as [c|] eqn:E.
  - destruct c; reflexivity.
  - destruct a, b; simpl in *; congruence.
Qed.

(** ** Rounding to binary32 never invents a NaN *)

Section Rounding.

Lemma shr_1_nonneg (mrs : shr_record) : 0 <= shr_m mrs -> 0 <= shr_m (shr_1 mrs).
Proof.
  destruct mrs as [m r s]. simpl.
  destruct m as [|[p|p|]|[p|p|]]; simpl; lia.
Qed.

Lemma iter_shr_1_nonneg (p : positive) (mrs : shr_record) :
  0 <= shr_m mrs -> 0 <= shr_m (iter_pos shr_1 p mrs).
Proof.
  revert mrs. induction p as [p IH|p IH|]; intros mrs H; simpl.
  - apply IH, IH, shr_1_nonneg, H.
  - apply IH, IH, H.
  - apply shr_1_nonneg, H.
Qed.

Lemma shr_fexp_nonneg (pr em m e : Z) (l : location) :
  0 <= m -> 0 <= shr_m (fst (shr_fexp pr em m e l)).
Proof.
  intros Hm. unfold shr_fexp, shr.
  assert (H0 : 0 <= shr_m (shr_record_of_loc m l))
    by (destruct l as [|[ | | ]]; simpl; exact Hm).
  destruct (fexp pr em (Zdigits2 m + e) - e) as [|p|p]; simpl; auto.
  apply iter_shr_1_nonneg, H0.
Qed.

Lemma round_nearest_even_nonneg (m : Z) (l : location) :
  0 <= m -> 0 <= round_nearest_even m l.
Proof.
  intros Hm. destruct l as [|[ | | ]]; simpl; try lia.
  destruct (Z.even m); lia.
Qed.

Lemma binary_round_aux_nonneg (pr em m e : Z) (l : location) :
  0 <= m -> nonneg (binary_round_aux pr em false m e l) = true.
Proof.
  intros Hm. unfold binary_round_aux.
  pose proof (shr_fexp_nonneg pr em m e l Hm) as H1.
  destruct (shr_fexp pr em m e l) as [mrs' e']. simpl in H1.
  pose proof (shr_fexp_nonneg pr em _ e' loc_Exact
                (round_nearest_even_nonneg _ (loc_of_shr_record mrs') H1)) as H2.
  destruct (shr_fexp pr em (round_nearest_even (shr_m mrs') (loc_of_shr_record mrs')) e' loc_Exact)
    as [mrs'' e'']. simpl in H2.
  destruct (shr_m mrs'') as [|p|p]; [reflexivity| |lia].
  destruct (e'' <=? em - pr); reflexivity.
Qed.

Lemma binary_round_aux_not_nan (pr em : Z) (sx : bool) (m e : Z) (l : location) :
  0 <= m -> is_nan (binary_round_aux pr em sx m e l) = false.
Proof.
  intros Hm. unfold binary_round_aux.
  pose proof (shr_fexp_nonneg pr em m e l Hm) as H1.
  destruct (shr_fexp pr em m e l) as [mrs' e']. simpl in H1.
  pose proof (shr_fexp_nonneg pr em _ e' loc_Exact
                (round_nearest_even_nonneg _ (loc_of_shr_record mrs') H1)) as H2.
  destruct (shr_fexp pr em (round_nearest_even (shr_m mrs') (loc_of_shr_record mrs')) e' loc_Exact)
    as [mrs'' e'']. simpl in H2.
  destruct (shr_m mrs'') as [|p|p]; [reflexivity| |lia].
  destruct (e'' <=? em - pr); reflexivity.
Qed.

Lemma binary_normalize_not_nan (pr em : Z) (m e : Z) (sz : bool) :
  is_nan (binary_normalize pr em m e sz) = false.
Proof.
  unfold binary_normalize, binary_round. destruct m as [|p|p]; [reflexivity| |].
  - destruct (shl_align p e _) as [mz ez]. apply binary_round_aux_not_nan. lia.
  - destruct (shl_align p e _) as [mz ez]. apply binary_round_aux_not_nan. lia.
Qed.

Lemma binary_round_nonneg (pr em : Z) (m : positive) (e : Z) :
  nonneg (binary_round pr em false m e) = true.
Proof.
  unfold binary_round.
  destruct (shl_align m e (fexp pr em (Z.pos (digits2_pos m) + e))) as [mz ez].
  apply binary_round_aux_nonneg. lia.
Qed.

End Rounding.

(** A difference with a finite subtrahend is NaN only when the minuend
    is. *)
Lemma fsub_not_nan (a c : float) :
  is_nan a = false -> is_finite c = true -> is_nan (fsub a c) = false.
Proof.
  unfold fsub.
  destruct a as [sa|sa| |sa ma ea], c as [sc|sc| |sc mc ec];
    simpl; try discriminate; try reflexivity; intros _ _;
    try (destruct sa, sc; reflexivity).
  apply binary_normalize_not_nan.
Qed.

Lemma fabsf_not_nan (a : float) : is_nan (fabsf a) = is_nan a.
Proof. destruct a; reflexivity. Qed.

(** [fmaxf(0, fminf(1, a))] lies in [0, 1] whatever [a] is, NaN
    included. *)
Lemma clamp01_in01 (a : float) : in01 (Canvas.clamp01 a) = true.
Proof.
  unfold Canvas.clamp01, fminf.
  change (is_nan F1) with false. cbv iota.
  destruct (is_nan a) eqn:Hnan; [reflexivity|].
  destruct (flt a F1) eqn:H1.
  - unfold fmaxf. change (is_nan F0) with false. cbv iota. rewrite Hnan.
    destruct (flt F0 a) eqn:H0.
    + unfold in01. rewrite (flt_fle _ _ H0), (flt_fle _ _ H1). reflexivity.
    + reflexivity.
  - reflexivity.
Qed.

(** ** canvas.c: the range of the stored intensities *)

Section CanvasRange.
Import Canvas.

Lemma Forall_set_nth {A : Type} (P : A -> Prop) (l : list A) (i : nat) (v : A) :
  Forall P l -> P v -> Forall P (set_nth l i v).
Proof.
  intros Hl Hv. revert i.
  induction Hl as [|a l Ha Hl IH]; intros [|i]; simpl; auto.
Qed.

Lemma splat_cell_in_range (x_int y_int : Z) (fx fy intensity : float)
    (c : canvas_t) (ij : Z * Z) :
  pixels_in_range c -> pixels_in_range (splat_cell x_int y_int fx fy intensity c ij).
Proof.
  intros Hc. unfold splat_cell. destruct ij as [i j].
  destruct (_ && _); [|exact Hc].
  destruct (negb _); [exact Hc|].
  unfold pixels_in_range, with_pixels. simpl.
  apply Forall_set_nth; [exact Hc | apply clamp01_in01].
Qed.

Lemma splat_cells_in_range (x_int y_int : Z) (fx fy intensity : float)
    (cells : list (Z * Z)) (c : canvas_t) :
  pixels_in_range c ->
  pixels_in_range (fold_left (splat_cell x_int y_int fx fy intensity) cells c).
Proof.
  revert c. induction cells as [|ij cells IH]; intros c Hc; cbn [fold_left].
  - exact Hc.
  - apply IH. apply splat_cell_in_range. exact Hc.
Qed.

Lemma set_pixel_f_in_range (c c' : canvas_t) (x y intensity : float) :
  pixels_in_range c -> set_pixel_f c x y intensity = Ok c' -> pixels_in_range c'.
Proof.
  intros Hc. unfold set_pixel_f.
  destruct (to_int (floorf x)) as [x_int| |]; cbn [bind]; try discriminate.
  destruct (to_int (floorf y)) as [y_int| |]; cbn [bind]; try discriminate.
  intros H. apply Ok_inj in H. subst c'.
  apply splat_cells_in_range. exact Hc.
Qed.

(** A property every call of [put] preserves is preserved by the whole
    of [draw_line_with]. *)
Section Preservation.
Context {St : Type}.
Variable put : St -> float -> float -> float -> res St.
Variable P : St -> Prop.
Hypothesis put_preserves :
  forall s x y i s', P s -> put s x y i = Ok s' -> P s'.

Lemma for_float_preserves (body : float -> St -> res St) :
  (forall t s s', P s -> body t s = Ok s' -> P s') ->
  forall fuel t hi s s',
    P s -> for_float fuel t hi body s = Ok s' -> P s'.
Proof.
  intros Hbody fuel. induction fuel as [|fuel IH]; intros t hi s s' Hs; simpl.
  - destruct (fle t hi); [discriminate|]. intros H; inversion H; subst; exact Hs.
  - destruct (fle t hi).
    + destruct (body t s) as [s1| |] eqn:E; simpl; try discriminate.
      apply IH. eapply Hbody; eauto.
    + intros H; inversion H; subst; exact Hs.
Qed.

Lemma brush_point_preserves (fuel : nat) (h x0 y0 i : float) (s s' : St) :
  P s -> brush_point put fuel h x0 y0 i s = Ok s' -> P s'.
Proof.
  unfold brush_point. apply for_float_preserves.
  intros ty s1 s1' Hs1. apply for_float_preserves; [|exact Hs1].
  intros tx s2 s2' Hs2. destruct (fle _ _).
  - apply put_preserves; exact Hs2.
  - intros H; inversion H; subst; exact Hs2.
Qed.

Lemma brush_step_preserves (fuel : nat) (h x0 y0 i : float) (s s' : St) :
  P s -> brush_step put fuel h x0 y0 i s = Ok s' -> P s'.
Proof.
  unfold brush_step. apply for_float_preserves.
  intros ty s1 s1' Hs1. apply for_float_preserves; [|exact Hs1].
  intros tx s2 s2' Hs2. apply put_preserves; exact Hs2.
Qed.

Lemma walk_preserves (n fuel : nat) (h x0 y0 xi yi i : float) (s s' : St) :
  P s -> walk put n fuel h x0 y0 xi yi i s = Ok s' -> P s'.
Proof.
  revert x0 y0 s. induction n as [|n IH]; intros x0 y0 s Hs; simpl.
  - intros H; inversion H; subst; exact Hs.
  - destruct (brush_step put fuel h x0 y0 i s) as [s1| |] eqn:E; simpl; try discriminate.
    apply IH. eapply brush_step_preserves; eauto.
Qed.

Lemma draw_line_with_preserves (fuel : nat) (s s' : St)
    (x0 y0 x1 y1 thickness line_intensity : float) :
  P s ->
  draw_line_with put fuel s x0 y0 x1 y1 thickness line_intensity = Ok s' ->
  P s'.
Proof.
  intros Hs. unfold draw_line_with.
  destruct (flt _ FLT_EPSILON).
  - intros H; inversion H; subst; exact Hs.
  - destruct (line_steps x0 y0 x1 y1) as [steps| |]; simpl; try discriminate.
    destruct (steps =? 0).
    + apply brush_point_preserves; exact Hs.
    + apply walk_preserves; exact Hs.
Qed.
End Preservation.

Lemma draw_line_f_in_range (fuel : nat) (c c' : canvas_t)
    (x0 y0 x1 y1 thickness line_intensity : float) :
  pixels_in_range c ->
  draw_line_f fuel c x0 y0 x1 y1 thickness line_intensity = Ok c' ->
  pixels_in_range c'.
Proof.
  apply draw_line_with_preserves.
  intros s x y i s'. apply set_pixel_f_in_range.
Qed.

Lemma Forall_repeat_iff {A : Type} (P : A -> Prop) (a : A) (n : nat) :
  (0 < n)%nat -> (Forall P (repeat a n) <-> P a).
Proof.
  intros Hn. destruct n as [|n]; [lia|]. simpl. split.
  - intros H. inversion H; assumption.
  - intros H. constructor; [exact H|]. apply Forall_forall.
    intros b Hb. apply repeat_spec in Hb. subst. exact H.
Qed.

End CanvasRange.

(** C5, as the code has it: every stored intensity lies in [0, 1] after
    [canvas_create]; [set_pixel_f], [draw_line_f] and
    [canvas_set_circular_viewport] keep it so for all arguments; and after
    [canvas_clear], which stores the given intensity unclamped in every
    pixel, it holds exactly when that intensity itself lies in [0, 1]. *)
Theorem canvas_intensity_range :
  (forall w h c, Canvas.canvas_create w h = Some c -> Canvas.pixels_in_range c) /\
  (forall c x y intensity c',
      Canvas.pixels_in_range c ->
      Canvas.set_pixel_f c x y intensity = Ok c' ->
      Canvas.pixels_in_range c') /\
  (forall fuel c x0 y0 x1 y1 thickness intensity c',
      Canvas.pixels_in_range c ->
      Canvas.draw_line_f fuel c x0 y0 x1 y1 thickness intensity = Ok c' ->
      Canvas.pixels_in_range c') /\
  (forall c radius,
      Canvas.pixels_in_range c ->
      Canvas.pixels_in_range (Canvas.canvas_set_circular_viewport c radius)) /\
  (forall c intensity,
      Canvas.pixels (Canvas.canvas_clear c intensity) =
        repeat intensity (Z.to_nat (Canvas.width c * Canvas.height c)) /\
      (0 < Canvas.width c * Canvas.height c ->
       (Canvas.pixels_in_range (Canvas.canvas_clear c intensity) <-> in01 intensity = true))).
Proof.
  split; [|split; [|split; [|split]]].
  - intros w h c H. unfold Canvas.canvas_create in H.
    destruct (_ || _); [discriminate|].
    injection H as <-. unfold Canvas.pixels_in_range. cbn [Canvas.pixels].
    apply Forall_forall. intros v Hv. apply repeat_spec in Hv. subst. reflexivity.
  - intros c x y i c'. apply set_pixel_f_in_range.
  - intros fuel c x0 y0 x1 y1 t i c'. apply draw_line_f_in_range.
  - intros c radius Hc. exact Hc.
  - intros c intensity. split; [reflexivity|]. intros Hpos.
    unfold Canvas.pixels_in_range, Canvas.canvas_clear, Canvas.with_pixels.
    cbn [Canvas.pixels].
    apply (Forall_repeat_iff (fun v => in01 v = true)). lia.
Qed.

Lemma canvas_intensity_range_witness :
  Canvas.pixels_in_range one_pixel_canvas /\
  (Canvas.pixels_in_range (Canvas.canvas_clear one_pixel_canvas F0_5) <-> in01 F0_5 = true).
Proof.
  split.
  - apply (proj1 canvas_intensity_range 1 1 one_pixel_canvas). reflexivity.
  - apply (proj2 (proj2 (proj2 (proj2 canvas_intensity_range))) one_pixel_canvas F0_5).
    simpl. lia.
Defined.

(** C5 as stated fails: clearing the one-pixel canvas to the intensity
    2.0 stores 2.0, which is not in [0, 1]. *)
Lemma canvas_clear_leaves_range :
  Canvas.canvas_create 1 1 = Some one_pixel_canvas /\
  Canvas.pixels (Canvas.canvas_clear one_pixel_canvas F2) = [F2] /\
  in01 F2 = false /\
  ~ Canvas.pixels_in_range (Canvas.canvas_clear one_pixel_canvas F2).
Proof.
  repeat split.
  intros H. inversion H as [|v l Hv Hl]; subst. discriminate Hv.
Qed.

(** ** canvas.c: the samples of a line *)

Section LineSamples.
Import Canvas.
Context {St : Type}.
Variable put : St -> float -> float -> float -> res St.

Lemma for_each_app {A : Type} (body : A -> St -> res St) (l1 l2 : list A) (s : St) :
  for_each body (l1 ++ l2) s = let* s' := for_each body l1 s in for_each body l2 s'.
Proof.
  revert s. induction l1 as [|a l1 IH]; intros s; cbn [for_each app bind].
  - reflexivity.
  - destruct (body a s); cbn [bind]; auto.
Qed.

Lemma for_each_map {A B : Type} (f : A -> B) (body : B -> St -> res St)
    (l : list A) (s : St) :
  for_each body (map f l) s = for_each (fun a => body (f a)) l s.
Proof.
  revert s. induction l as [|a l IH]; intros s; cbn [for_each map bind].
  - reflexivity.
  - destruct (body (f a) s); cbn [bind]; auto.
Qed.

Lemma for_each_filter {A : Type} (keep : A -> bool) (body : A -> St -> res St)
    (l : list A) (s : St) :
  for_each (fun a s' => if keep a then body a s' else Ok s') l s =
  for_each body (List.filter keep l) s.
Proof.
  revert s. induction l as [|a l IH]; intros s; cbn [for_each List.filter bind].
  - reflexivity.
  - destruct (keep a); cbn [for_each bind].
    + destruct (body a s); cbn [bind]; auto.
    + apply IH.
Qed.

Lemma for_each_ext {A : Type} (b1 b2 : A -> St -> res St) (l : list A) (s : St) :
  (forall a s', b1 a s' = b2 a s') -> for_each b1 l s = for_each b2 l s.
Proof.
  intros H. revert s. induction l as [|a l IH]; intros s; cbn [for_each].
  - reflexivity.
  - rewrite H. destruct (b2 a s); cbn [bind]; auto.
Qed.

Lemma for_each_nested {A B : Type} (inner : A -> list B)
    (body : A -> B -> St -> res St) (l : list A) (s : St) :
  for_each (fun a s' => for_each (body a) (inner a) s') l s =
  for_each (fun p => body (snd p) (fst p))
           (flat_map (fun a => map (fun b => (b, a)) (inner a)) l) s.
Proof.
  revert s. induction l as [|a l IH]; intros s; cbn [for_each flat_map].
  - reflexivity.
  - rewrite for_each_app, for_each_map. cbn [fst snd].
    destruct (for_each (body a) (inner a) s); cbn [bind]; auto.
Qed.

Lemma for_float_grid (body : float -> St -> res St) (fuel : nat) (t hi : float)
    (g : list float) (s : St) :
  grid fuel t hi = Ok g -> for_float fuel t hi body s = for_each body g s.
Proof.
  revert t g s. induction fuel as [|fuel IH]; intros t g s; cbn [grid for_float].
  - destruct (fle t hi); [discriminate|]. intros H. apply Ok_inj in H. subst. reflexivity.
  - destruct (fle t hi).
    + destruct (grid fuel (fadd t F0_5) hi) as [g'| |] eqn:E; cbn [bind]; try discriminate.
      intros H. apply Ok_inj in H. subst g. cbn [for_each].
      destruct (body t s); cbn [bind]; auto.
    + intros H. apply Ok_inj in H. subst. reflexivity.
Qed.

(** Why the loops run on fuel: a counter that adding 0.5 leaves unchanged
    never passes the bound. *)
Lemma grid_stalls (t hi : float) :
  fle t hi = true -> fadd t F0_5 = t -> forall fuel, grid fuel t hi = OutOfFuel.
Proof.
  intros Hle Hadd fuel. induction fuel as [|fuel IH]; cbn [grid]; rewrite Hle.
  - reflexivity.
  - rewrite Hadd, IH. reflexivity.
Qed.

(** A loop that has finished within some fuel gives the same values with
    more. *)
Lemma grid_more_fuel (fuel fuel' : nat) (t hi : float) (g : list float) :
  grid fuel t hi = Ok g -> (fuel <= fuel')%nat -> grid fuel' t hi = Ok g.
Proof.
  revert fuel' t g. induction fuel as [|fuel IH]; intros fuel' t g; cbn [grid].
  - destruct (fle t hi) eqn:Hle; [discriminate|]. intros H _.
    destruct fuel'; cbn [grid]; rewrite Hle; exact H.
  - destruct (fle t hi) eqn:Hle.
    + destruct (grid fuel (fadd t F0_5) hi) as [g'| |] eqn:E; cbn [bind]; try discriminate.
      intros H Hf. destruct fuel' as [|fuel']; [lia|]. cbn [grid]. rewrite Hle.
      rewrite (IH fuel' _ _ E) by lia. exact H.
    + intros H _. destruct fuel'; cbn [grid]; rewrite Hle; exact H.
Qed.

Lemma brush_point_samples (fuel : nat) (h x0 y0 i : float) (g : list float) (s : St) :
  grid fuel (fneg h) h = Ok g ->
  brush_point put fuel h x0 y0 i s =
  replay put (stamp x0 y0 i (List.filter (in_disc h) (offsets g))) s.
Proof.
  intros Hg. unfold brush_point.
  rewrite (for_float_grid _ _ _ _ _ _ Hg).
  rewrite (for_each_ext _
             (fun ty s1 => for_each (fun tx s2 =>
                if in_disc h (tx, ty) then put s2 (fadd x0 tx) (fadd y0 ty) i else Ok s2) g s1)).
  2:{ intros ty s1. apply for_float_grid. exact Hg. }
  unfold replay, stamp, offsets.
  rewrite for_each_map, <- for_each_filter.
  rewrite (for_each_nested (fun _ => g)
             (fun ty tx s2 => if in_disc h (tx, ty)
                              then put s2 (fadd x0 tx) (fadd y0 ty) i else Ok s2)).
  apply for_each_ext. intros [tx ty] s'. reflexivity.
Qed.

Lemma brush_step_samples (fuel : nat) (h x0 y0 i : float) (g : list float) (s : St) :
  grid fuel (fneg h) h = Ok g ->
  brush_step put fuel h x0 y0 i s = replay put (stamp x0 y0 i (offsets g)) s.
Proof.
  intros Hg. unfold brush_step.
  rewrite (for_float_grid _ _ _ _ _ _ Hg).
  rewrite (for_each_ext _
             (fun ty s1 => for_each (fun tx s2 => put s2 (fadd x0 tx) (fadd y0 ty) i) g s1)).
  2:{ intros ty s1. apply for_float_grid. exact Hg. }
  unfold replay, stamp, offsets.
  rewrite for_each_map.
  rewrite (for_each_nested (fun _ => g)
             (fun ty tx s2 => put s2 (fadd x0 tx) (fadd y0 ty) i)).
  apply for_each_ext. intros [tx ty] s'. reflexivity.
Qed.

Lemma replay_app (l1 l2 : list sample) (s : St) :
  replay put (l1 ++ l2) s = let* s' := replay put l1 s in replay put l2 s'.
Proof. apply for_each_app. Qed.

Lemma walk_samples (n fuel : nat) (h x0 y0 xi yi i : float) (g : list float) (s : St) :
  grid fuel (fneg h) h = Ok g ->
  walk put n fuel h x0 y0 xi yi i s =
  replay put (flat_map (fun p => stamp (fst p) (snd p) i (offsets g))
                       (walk_positions n x0 y0 xi yi)) s.
Proof.
  intros Hg. revert x0 y0 s.
  induction n as [|n IH]; intros x0 y0 s; cbn [walk walk_positions flat_map].
  - reflexivity.
  - rewrite replay_app. cbn [fst snd].
    rewrite (brush_step_samples _ _ _ _ _ _ _ Hg).
    destruct (replay put (stamp x0 y0 i (offsets g)) s); cbn [bind]; auto.
Qed.

End LineSamples.

Lemma line_samples_more_fuel (fuel fuel' : nat)
    (x0 y0 x1 y1 thickness line_intensity : float) (l : list Canvas.sample) :
  line_samples fuel x0 y0 x1 y1 thickness line_intensity = Ok l ->
  (fuel <= fuel')%nat ->
  line_samples fuel' x0 y0 x1 y1 thickness line_intensity = Ok l.
Proof.
  unfold line_samples. intros H Hf.
  destruct (flt _ FLT_EPSILON); [exact H|].
  destruct (Canvas.line_steps x0 y0 x1 y1) as [steps| |]; cbn [bind] in *; try discriminate.
  destruct (steps =? 0).
  - destruct (grid fuel _ _) as [g| |] eqn:Hg; cbn [bind] in H; try discriminate.
    rewrite (grid_more_fuel _ _ _ _ _ Hg Hf). exact H.
  - destruct (grid fuel _ _) as [g| |] eqn:Hg; cbn [bind] in H; try discriminate.
    rewrite (grid_more_fuel _ _ _ _ _ Hg Hf). exact H.
Qed.

Lemma draw_line_with_samples {St : Type} (put : St -> float -> float -> float -> res St)
    (fuel : nat) (s : St) (x0 y0 x1 y1 thickness line_intensity : float)
    (l : list Canvas.sample) :
  line_samples fuel x0 y0 x1 y1 thickness line_intensity = Ok l ->
  Canvas.draw_line_with put fuel s x0 y0 x1 y1 thickness line_intensity = replay put l s.
Proof.
  unfold line_samples, Canvas.draw_line_with.
  destruct (flt _ FLT_EPSILON).
  - intros H. apply Ok_inj in H. subst. reflexivity.
  - destruct (Canvas.line_steps x0 y0 x1 y1) as [steps| |]; cbn [bind]; try discriminate.
    destruct (steps =? 0).
    + destruct (grid fuel _ _) as [g| |] eqn:Hg; cbn [bind]; try discriminate.
      intros H. apply Ok_inj in H. subst. apply brush_point_samples. exact Hg.
    + destruct (grid fuel _ _) as [g| |] eqn:Hg; cbn [bind]; try discriminate.
      intros H. apply Ok_inj in H. subst. apply walk_samples. exact Hg.
Qed.

Lemma replay_record (l log : list Canvas.sample) :
  replay Canvas.record_sample l log = Ok (log ++ l).
Proof.
  revert log. induction l as [|[[sx sy] si] l IH]; intros log; unfold replay; cbn [for_each].
  - rewrite app_nil_r. reflexivity.
  - unfold Canvas.record_sample at 1. cbn [bind fst snd].
    fold (replay Canvas.record_sample l (log ++ [(sx, sy, si)])).
    rewrite IH, <- app_assoc. reflexivity.
Qed.

(** For operands that are numbers, the larger one in the sense of the
    source's test is [fmaxf]. *)
Lemma larger_is_fmaxf (a b : float) :
  is_nan b = false ->
  (if fgt (fabsf a) (fabsf b) then fabsf a else fabsf b) = fmaxf (fabsf a) (fabsf b).
Proof.
  intros Hb. unfold fmaxf, fgt, flt, SFltb.
  destruct (is_nan (fabsf a)) eqn:Ha.
  - destruct a; simpl in Ha; try discriminate. destruct b; reflexivity.
  - assert (Hb' : is_nan (fabsf b) = false) by (destruct b; simpl in *; congruence).
    rewrite Hb'. rewrite (fcompare_swap (fabsf a) (fabsf b)).
    destruct (SFcompare (fabsf a) (fabsf b)) as [[ | | ]|] eqn:E; simpl; try reflexivity.
    + destruct a as [sa|sa| |sa ma ea], b as [sb|sb| |sb mb eb]; simpl in *;
        try discriminate; try reflexivity.
      destruct (ea ?= eb) eqn:Ee; try discriminate.
      apply Z.compare_eq in Ee. injection E as E.
      apply Pos.compare_eq in E. subst. reflexivity.
    + destruct a, b; simpl in *; discriminate.
Qed.

(** C4, as the code has it: an intensity that clamps below epsilon makes
    the call return at once with the canvas unchanged; the step count is
    max(|dx|, |dy|) truncated to an integer; with no step the samples are
    the offsets of the 0.5 grid that lie inside the disc of radius
    thickness/2 around the start; otherwise, at each of the steps+1 points
    of the walk, [set_pixel_f] is called for every offset of the 0.5 grid
    of half-width max(0.5, thickness/2) -- a square brush, the corners
    outside the disc included.  [line_samples] is that list, once the
    loops over the grid finish within the fuel, and the same for any
    larger fuel; the canvas is the result of performing it in order. *)
Theorem draw_line_f_samples (fuel : nat) (x0 y0 x1 y1 thickness line_intensity : float) :
  (flt (Canvas.clamp01 line_intensity) FLT_EPSILON = true ->
   forall c, Canvas.draw_line_f fuel c x0 y0 x1 y1 thickness line_intensity = Ok c) /\
  (is_nan (fsub y1 y0) = false ->
   Canvas.line_steps x0 y0 x1 y1 =
   to_int (fmaxf (fabsf (fsub x1 x0)) (fabsf (fsub y1 y0)))) /\
  (forall l,
      line_samples fuel x0 y0 x1 y1 thickness line_intensity = Ok l ->
      forall fuel', (fuel <= fuel')%nat ->
      Canvas.draw_line_samples fuel' x0 y0 x1 y1 thickness line_intensity = Ok l /\
      forall c, Canvas.draw_line_f fuel' c x0 y0 x1 y1 thickness line_intensity =
                replay Canvas.set_pixel_f l c).
Proof.
  split; [|split].
  - intros H c. unfold Canvas.draw_line_f, Canvas.draw_line_with. rewrite H. reflexivity.
  - intros H. unfold Canvas.line_steps.
    rewrite <- (larger_is_fmaxf _ _ H).
    destruct (fgt _ _); reflexivity.
  - intros l Hl fuel' Hfuel.
    pose proof (line_samples_more_fuel _ _ _ _ _ _ _ _ _ Hl Hfuel) as Hl'. split.
    + unfold Canvas.draw_line_samples.
      rewrite (draw_line_with_samples _ _ _ _ _ _ _ _ _ _ Hl').
      apply replay_record.
    + intros c. apply draw_line_with_samples. exact Hl'.
Qed.

Lemma draw_line_f_samples_witness :
  Canvas.draw_line_f 0 one_pixel_canvas F0 F0 F1 F1 F1 F0 = Ok one_pixel_canvas /\
  Canvas.line_steps (of_int 1) (of_int 1) (of_int 3) (of_int 1) = Ok 2 /\
  Canvas.draw_line_samples 3 (of_int 1) (of_int 1) (of_int 1) (of_int 1) F1 F1 =
    Ok [(of_int 1, F0_5, F1); (F0_5, of_int 1, F1); (of_int 1, of_int 1, F1);
        (of_dec 15 1, of_int 1, F1); (of_int 1, of_dec 15 1, F1)].
Proof.
  split; [|split].
  - apply (proj1 (draw_line_f_samples 0 F0 F0 F1 F1 F1 F0)). vm_compute. reflexivity.
  - rewrite (proj1 (proj2 (draw_line_f_samples 0 (of_int 1) (of_int 1) (of_int 3) (of_int 1) F1 F1)));
      vm_compute; reflexivity.
  - apply (proj2 (proj2 (draw_line_f_samples 3 (of_int 1) (of_int 1) (of_int 1) (of_int 1) F1 F1))
             _ eq_refl 3%nat (le_n 3)).
Defined.

(** C4 as stated fails: on the segment from (1, 1) to (3, 1) with
    thickness 1 the brush radius is max(0.5, 0.5) = 0.5, and the first call
    of [set_pixel_f] is at (0.5, 0.5): the offset (-0.5, -0.5) from the
    first point of the walk, at squared distance 0.5 from it, outside the
    disc of squared radius 0.25. *)
Lemma line_brush_is_square :
  Canvas.line_steps (of_int 1) (of_int 1) (of_int 3) (of_int 1) = Ok 2 /\
  match Canvas.draw_line_samples 3 (of_int 1) (of_int 1) (of_int 3) (of_int 1) F1 F1 with
  | Ok (first :: _) =>
      first = (fadd (of_int 1) (fneg F0_5), fadd (of_int 1) (fneg F0_5), F1)
  | _ => False
  end /\
  fmaxf F0_5 (fdiv F1 F2) = F0_5 /\
  in_disc F0_5 (fneg F0_5, fneg F0_5) = false.
Proof.
  vm_compute. repeat split.
Qed.

(** ** math3d.c: the point transform *)

Section PointTransform.
Import Math3d.
Context {L : Libm}.

Lemma update_spherical_cartesian (v : vec3_t) :
  x (_vec3_update_spherical_from_cartesian v) = x v /\
  y (_vec3_update_spherical_from_cartesian v) = y v /\
  z (_vec3_update_spherical_from_cartesian v) = z v.
Proof.
  unfold _vec3_update_spherical_from_cartesian.
  destruct (feq _ F0); cbn [x y z]; auto.
Qed.

Lemma fabsf_minus_zero (a : float) : fabsf (fsub a F0) = fabsf a.
Proof. destruct a as [[|]|[|]| |s m e]; reflexivity. Qed.

(** For a number [a] and a finite [c], "approximately c" is
    [|a - c| <= epsilon]. *)
Lemma approx_le (a c : float) :
  is_nan a = false -> is_finite c = true ->
  approx a c = fle (fabsf (fsub a c)) FLT_EPSILON.
Proof.
  intros Ha Hc. unfold approx, fgt. apply negb_flt_fle; [reflexivity|].
  rewrite fabsf_not_nan. apply fsub_not_nan; assumption.
Qed.

(** C7: [mat4_transform_point] forms the homogeneous product of the
    matrix with (x, y, z, 1) and returns its first three components
    divided by the fourth exactly when the fourth is neither approximately
    0 nor approximately 1 (within epsilon); otherwise it returns them
    undivided.  For a fourth component w that is a number, "approximately
    c" is [|w - c| <= epsilon]; a NaN fails both tests of the source and
    is not divided by. *)
Theorem mat4_transform_point_divide (mat : mat4_t) (p : vec3_t) :
  let v := [x p; y p; z p; F1] in
  let hx := hom_component mat v 0 in
  let hy := hom_component mat v 1 in
  let hz := hom_component mat v 2 in
  let hw := hom_component mat v 3 in
  let q := mat4_transform_point mat p in
  (approx hw F0 || approx hw F1 = false ->
   x q = fdiv hx hw /\ y q = fdiv hy hw /\ z q = fdiv hz hw) /\
  (approx hw F0 || approx hw F1 = true ->
   x q = hx /\ y q = hy /\ z q = hz) /\
  (is_nan hw = false ->
   approx hw F0 = fle (fabsf hw) FLT_EPSILON /\
   approx hw F1 = fle (fabsf (fsub hw F1)) FLT_EPSILON) /\
  (is_nan hw = true -> x q = hx /\ y q = hy /\ z q = hz).
Proof.
  cbv zeta.
  assert (Hle : forall w, is_nan w = false ->
            approx w F0 = fle (fabsf w) FLT_EPSILON /\
            approx w F1 = fle (fabsf (fsub w F1)) FLT_EPSILON).
  { intros w Hw. split.
    - rewrite <- (fabsf_minus_zero w). apply approx_le; [exact Hw|reflexivity].
    - apply approx_le; [exact Hw|reflexivity]. }
  assert (Hnan : forall w, is_nan w = true -> approx w F0 = true).
  { intros w Hw. destruct w; try discriminate Hw. reflexivity. }
  match goal with
  | |- ?A /\ ?B /\ _ /\ _ => cut (A /\ B)
  end.
  { intros [HA HB]. split; [exact HA|]. split; [exact HB|]. split.
    - apply Hle.
    - intros Hw. apply HB. rewrite (Hnan _ Hw). reflexivity. }
  clear Hle Hnan.
  unfold approx. rewrite fabsf_minus_zero.
  unfold mat4_transform_point.
  set (res_w := fadd (fadd (fadd (fmul (at_ mat 3) (x p)) (fmul (at_ mat 7) (y p)))
                           (fmul (at_ mat 11) (z p))) (fmul (at_ mat 15) F1)).
  change (hom_component mat [x p; y p; z p; F1] 3) with res_w.
  unfold hom_component; cbn [map seq Nat.mul Nat.add nth fold_left].
  match goal with
  | |- context [_vec3_update_spherical_from_cartesian ?res] =>
      destruct (update_spherical_cartesian res) as (Hx & Hy & Hz)
  end.
  rewrite Hx, Hy, Hz. clear Hx Hy Hz.
  destruct (fgt (fabsf res_w) FLT_EPSILON), (fgt (fabsf (fsub res_w F1)) FLT_EPSILON);
    cbn [negb orb andb x y z]; split; intros H; try discriminate H; auto.
Qed.

End PointTransform.

Lemma mat4_transform_point_divide_witness :
  let p := Math3d.mkvec3 (of_int 1) (of_int 1) (of_int (-2)) F0 F0 F0 in
  let frustum := Math3d.mat4_frustum_asymmetric (of_int (-1)) (of_int 1) (of_int (-1))
                   (of_int 1) (of_int 1) (of_int 10) in
  let translate := Math3d.mat4_translate (of_int 1) (of_int 2) (of_int 3) in
  Math3d.x (Math3d.mat4_transform_point (L := Interp.libm) frustum p) = F0_5 /\
  Math3d.x (Math3d.mat4_transform_point (L := Interp.libm) translate p) = of_int 2.
Proof.
  cbv zeta. split.
  - destruct (proj1 (@mat4_transform_point_divide Interp.libm
                       (Math3d.mat4_frustum_asymmetric (of_int (-1)) (of_int 1) (of_int (-1))
                          (of_int 1) (of_int 1) (of_int 10))
                       (Math3d.mkvec3 (of_int 1) (of_int 1) (of_int (-2)) F0 F0 F0)))
      as (Hx & _); [vm_compute; reflexivity|].
    rewrite Hx. vm_compute. reflexivity.
  - destruct (proj1 (proj2 (@mat4_transform_point_divide Interp.libm
                       (Math3d.mat4_translate (of_int 1) (of_int 2) (of_int 3))
                       (Math3d.mkvec3 (of_int 1) (of_int 1) (of_int (-2)) F0 F0 F0))))
      as (Hx & _); [vm_compute; reflexivity|].
    rewrite Hx. vm_compute. reflexivity.
Defined.

(** ** math3d.c: normalisation *)

Lemma fdiv_by_infinity (a : float) (s : bool) :
  is_finite a = true -> exists s', fdiv a (S754_infinity s) = S754_zero s'.
Proof.
  destruct a as [sa|sa| |sa ma ea]; simpl; try discriminate; intros _; eexists; reflexivity.
Qed.

Lemma norm3_zeros (s1 s2 s3 : bool) :
  Math3d.norm3 (S754_zero s1) (S754_zero s2) (S754_zero s3) = F0.
Proof. destruct s1, s2, s3; reflexivity. Qed.

Lemma vec3_normalize_zero_vector : Math3d.vec3_normalize zero_vector = zero_vector.
Proof. reflexivity. Qed.

(** The branches of [vec3_normalize].  With m the computed magnitude
    sqrtf(x*x + y*y + z*z): if m is below epsilon the result is exactly
    the zero vector, all six fields 0, and normalising it again changes
    nothing; otherwise r is exactly 1, theta and phi are left as they were
    and x, y, z are divided by m.  When the sum of squares overflows, m is
    infinite, and for finite x, y, z the result has r = 1 but magnitude 0,
    and normalising it again gives the zero vector with r = 0: the overflow
    defect below occurs at every such vector. *)
Theorem vec3_normalize_cases (v : Math3d.vec3_t) :
  let m := Math3d.norm3 (Math3d.x v) (Math3d.y v) (Math3d.z v) in
  let u := Math3d.vec3_normalize v in
  (flt m FLT_EPSILON = true ->
   u = zero_vector /\ Math3d.vec3_normalize u = u) /\
  (flt m FLT_EPSILON = false ->
   u = Math3d.mkvec3 (fdiv (Math3d.x v) m) (fdiv (Math3d.y v) m) (fdiv (Math3d.z v) m)
                     F1 (Math3d.theta v) (Math3d.phi v)) /\
  (m = S754_infinity false ->
   is_finite (Math3d.x v) = true -> is_finite (Math3d.y v) = true ->
   is_finite (Math3d.z v) = true ->
   Math3d.r u = F1 /\
   Math3d.norm3 (Math3d.x u) (Math3d.y u) (Math3d.z u) = F0 /\
   Math3d.vec3_normalize u = zero_vector).
Proof.
  cbv zeta. split; [|split].
  - intros H.
    assert (Hu : Math3d.vec3_normalize v = zero_vector)
      by (unfold Math3d.vec3_normalize; rewrite H; reflexivity).
    rewrite Hu. split; [reflexivity | apply vec3_normalize_zero_vector].
  - intros H. unfold Math3d.vec3_normalize. rewrite H. reflexivity.
  - intros Hm Hx Hy Hz.
    destruct (fdiv_by_infinity _ false Hx) as [sx Ex].
    destruct (fdiv_by_infinity _ false Hy) as [sy Ey].
    destruct (fdiv_by_infinity _ false Hz) as [sz Ez].
    assert (Hu : Math3d.vec3_normalize v =
                 Math3d.mkvec3 (S754_zero sx) (S754_zero sy) (S754_zero sz) F1
                               (Math3d.theta v) (Math3d.phi v)).
    { unfold Math3d.vec3_normalize. rewrite Hm, Ex, Ey, Ez. reflexivity. }
    rewrite Hu. cbn [Math3d.x Math3d.y Math3d.z Math3d.r].
    split; [reflexivity|]. split; [apply norm3_zeros|].
    unfold Math3d.vec3_normalize. cbn [Math3d.x Math3d.y Math3d.z].
    rewrite norm3_zeros. reflexivity.
Qed.

Lemma vec3_normalize_cases_witness :
  Math3d.vec3_normalize zero_vector = zero_vector /\
  Math3d.vec3_normalize (Math3d.mkvec3 (of_int 3) F0 (of_int 4) (of_int 5) F0 F0) =
    Math3d.mkvec3 (of_dec 6 1) F0 (of_dec 8 1) F1 F0 F0 /\
  Math3d.vec3_normalize (Math3d.vec3_normalize far_vector) = zero_vector.
Proof.
  split; [|split].
  - apply (proj1 (vec3_normalize_cases zero_vector)). reflexivity.
  - rewrite (proj1 (proj2 (vec3_normalize_cases
               (Math3d.mkvec3 (of_int 3) F0 (of_int 4) (of_int 5) F0 F0))));
      vm_compute; reflexivity.
  - apply (proj2 (proj2 (vec3_normalize_cases far_vector))); vm_compute; reflexivity.
Defined.

(** C6: [vec3_normalize] at the vector (1e30, 0, 0).  Its magnitude is
    1e30, far above epsilon, so math3d.h ("Normalizes the vector to length
    1") and the comment in the function ("After normalization, r is 1")
    promise a unit vector.  The code squares the components first: 1e60
    overflows binary32, the computed magnitude is infinite, and the result
    is (0, 0, 0) with r = 1 -- its magnitude is 0, not 1, and r no longer
    agrees with x, y, z.  Normalising that result again takes the
    zero-vector branch and gives r = 0, so the two results differ by 1 in
    the r field: the function is not idempotent within any tolerance
    there. *)
Lemma vec3_normalize_overflow :
  fge (Math3d.x far_vector) FLT_EPSILON = true /\
  Math3d.norm3 (Math3d.x far_vector) (Math3d.y far_vector) (Math3d.z far_vector)
    = S754_infinity false /\
  Math3d.vec3_normalize far_vector = Math3d.mkvec3 F0 F0 F0 F1 F0 F0 /\
  Math3d.norm3 F0 F0 F0 = F0 /\
  Math3d.r (Math3d.vec3_normalize (Math3d.vec3_normalize far_vector)) = F0 /\
  Math3d.vec3_normalize (Math3d.vec3_normalize far_vector)
    <> Math3d.vec3_normalize far_vector.
Proof.
  vm_compute. repeat split. discriminate.
Qed.

(** ** lighting.c *)

Lemma fadd_nonneg (a b : float) :
  nonneg a = true -> nonneg b = true -> nonneg (fadd a b) = true.
Proof.
  destruct a as [[|]|[|]| |[|] ma ea], b as [[|]|[|]| |[|] mb eb];
    simpl; try discriminate; try reflexivity.
  intros _ _. unfold fadd, SFadd, binary_normalize. cbn [cond_Zopp].
  match goal with
  | |- context [Z.pos ?p + Z.pos ?q] => change (Z.pos p + Z.pos q) with (Z.pos (p + q))
  end.
  apply binary_round_nonneg.
Qed.

Lemma fmaxf_zero_nonneg (a : float) : nonneg (fmaxf F0 a) = true.
Proof.
  unfold fmaxf. change (is_nan F0) with false. cbv iota.
  destruct (is_nan a) eqn:Hn; [reflexivity|].
  destruct (flt F0 a) eqn:H; [|reflexivity].
  destruct a as [[|]|[|]| |[|] m e]; simpl in *; try discriminate; reflexivity.
Qed.

Lemma nonneg_fle_zero (a : float) : nonneg a = true -> fle F0 a = true.
Proof. destruct a as [[|]|[|]| |[|] m e]; simpl; try discriminate; reflexivity. Qed.

Lemma nonneg_not_negative (a : float) : nonneg a = true -> flt a F0 = false.
Proof. destruct a as [[|]|[|]| |[|] m e]; simpl; try discriminate; reflexivity. Qed.

Lemma nonneg_not_nan (a : float) : nonneg a = true -> is_nan a = false.
Proof. destruct a as [[|]|[|]| |[|] m e]; simpl; try discriminate; reflexivity. Qed.

(** On a number that is not negative the two sequential tests of the
    source clamp into [0, 1]. *)
Lemma clamp_total_in01 (t : float) :
  nonneg t = true -> in01 (Lighting.clamp_total t) = true.
Proof.
  intros Ht. unfold Lighting.clamp_total.
  destruct (fgt t F1) eqn:H1; [reflexivity|].
  rewrite (nonneg_not_negative _ Ht). unfold in01.
  rewrite (nonneg_fle_zero _ Ht). simpl.
  apply not_flt_fle; [reflexivity | apply nonneg_not_nan, Ht | exact H1].
Qed.

Section LightLoop.
Import Math3d Lighting.

Lemma skipn_nth_error {A : Type} (l : list A) (i : nat) :
  (i < List.length l)%nat ->
  exists a, nth_error l i = Some a /\ skipn i l = a :: skipn (S i) l.
Proof.
  revert i. induction l as [|h l IH]; intros i Hi; simpl in Hi; [lia|].
  destruct i as [|i].
  - exists h. split; reflexivity.
  - destruct (IH i) as [a [H1 H2]]; [lia|]. exists a. split; [exact H1|exact H2].
Qed.




End LightLoop.



(** ** libc's qsort: the result holds the same elements *)

Lemma qsort_insert_In {A : Type} (cmp : A -> A -> Z) (a b : A) (l : list A) :
  In b (qsort_insert cmp a l) <-> b = a \/ In b l.
Proof.
  induction l as [|c l IH]; simpl.
  - split; intros [H|H]; auto; contradiction.
  - destruct (cmp a c <=? 0); simpl.
    + split; intros H; intuition congruence.
    + rewrite IH. split; intros H; intuition congruence.
Qed.

Lemma qsort_In {A : Type} (cmp : A -> A -> Z) (b : A) (l : list A) :
  In b (qsort cmp l) <-> In b l.
Proof.
  unfold qsort. induction l as [|a l IH]; simpl.
  - reflexivity.
  - rewrite qsort_insert_In, IH. split; intros H; intuition congruence.
Qed.

(** ** renderer.c *)

Section RendererFacts.
Import Math3d Canvas Lighting Renderer.
Context {L : Libm}.
Variable indeterminate : float.

Lemma collect_edges_step (pvs : list projected_vertex_t) (i : Z) (e : Z * Z) (es : list (Z * Z)) :
  collect_edges indeterminate pvs i (e :: es) =
  match kept_edge indeterminate pvs i e with
  | Some edge => edge :: collect_edges indeterminate pvs (i + 1) es
  | None => collect_edges indeterminate pvs (i + 1) es
  end.
Proof.
  destruct e as [idx0 idx1]. unfold kept_edge, index_ok. cbn [collect_edges fst snd].
  set (n := Z.of_nat (List.length pvs)).
  destruct (Z.ltb_spec idx0 0), (Z.geb_spec idx0 n), (Z.ltb_spec idx1 0), (Z.geb_spec idx1 n);
    cbn [orb];
    destruct (Z.leb_spec 0 idx0), (Z.ltb_spec idx0 n), (Z.leb_spec 0 idx1), (Z.ltb_spec idx1 n);
    cbn [andb]; try reflexivity; try (exfalso; lia).
  destruct (_ || _); reflexivity.
Qed.

Lemma collect_edges_In (pvs : list projected_vertex_t) (es : list (Z * Z)) :
  forall i edge,
    In edge (collect_edges indeterminate pvs i es) <->
    exists k e, nth_error es k = Some e /\ kept_edge indeterminate pvs (i + Z.of_nat k) e = Some edge.
Proof.
  induction es as [|e es IH]; intros i edge.
  - simpl. split; [contradiction|]. intros (k & e & H & _). destruct k; discriminate.
  - rewrite collect_edges_step. split.
    + intros H.
      assert (Hcase : kept_edge indeterminate pvs i e = Some edge \/
                      In edge (collect_edges indeterminate pvs (i + 1) es)).
      { destruct (kept_edge indeterminate pvs i e) as [edge'|]; [|auto].
        destruct H as [H|H]; [left; congruence | auto]. }
      destruct Hcase as [H1|H1].
      * exists 0%nat, e. split; [reflexivity|]. rewrite Z.add_0_r. exact H1.
      * apply IH in H1. destruct H1 as (k & e' & Hk & He).
        exists (S k), e'. split; [exact Hk|].
        replace (i + Z.of_nat (S k)) with (i + 1 + Z.of_nat k) by lia. exact He.
    + intros (k & e' & Hk & He). destruct k as [|k].
      * simpl in Hk. injection Hk as <-. rewrite Z.add_0_r in He. rewrite He. left. reflexivity.
      * assert (H1 : In edge (collect_edges indeterminate pvs (i + 1) es)).
        { apply IH. exists k, e'. split; [exact Hk|].
          replace (i + 1 + Z.of_nat k) with (i + Z.of_nat (S k)) by lia. exact He. }
        destruct (kept_edge indeterminate pvs i e); [right|]; exact H1.
Qed.

Lemma kept_edge_not_behind (pvs : list projected_vertex_t) (i : Z) (e : Z * Z)
    (edge : renderable_edge_t) :
  kept_edge indeterminate pvs i e = Some edge ->
  is_clipped (v0 edge) <> 1 /\ is_clipped (v1 edge) <> 1 /\ original_edge_index edge = i.
Proof.
  unfold kept_edge. destruct (_ && _); [|discriminate].
  destruct (is_clipped _ =? 1) eqn:E0; [discriminate|].
  destruct (is_clipped (nth (Z.to_nat (snd e)) _ _) =? 1) eqn:E1; [discriminate|].
  cbn [orb]. intros H. injection H as <-. cbn [v0 v1 original_edge_index].
  apply Z.eqb_neq in E0, E1. auto.
Qed.

End RendererFacts.

Section RenderCalls.
Import Math3d Canvas Lighting Renderer.
Context {L : Libm}.
Variable indeterminate : float.

Variable shade : vec3_t -> option (list light_t) -> Z -> res float.
Variable model : model_t.
Variable model_matrix : mat4_t.
Variable lights : option (list light_t).
Variable num_lights : Z.
Variable line_thickness : float.

Let intensity_of := line_intensity indeterminate shade model model_matrix lights num_lights.

(** The calls recorded by the drawing loop are, in the order of the
    sorted list, those of the edges that pass its test; any other
    drawing operation is performed on exactly these calls. *)
Lemma draw_edges_calls (sorted : list renderable_edge_t) :
  forall log calls,
    draw_edges indeterminate shade record_call model model_matrix lights num_lights
               line_thickness sorted log = Ok calls ->
    exists new,
      calls = log ++ new /\
      (forall d, In d new <->
                 exists edge i, In edge sorted /\ both_unclipped edge = true /\
                                intensity_of edge = Ok i /\
                                d = call_of line_thickness i edge) /\
      (forall (St : Type) (draw : St -> draw_call -> res St) (s : St),
          draw_edges indeterminate shade draw model model_matrix lights num_lights
                     line_thickness sorted s =
          for_each (fun d s' => draw s' d) new s).
Proof.
  unfold draw_edges.
  induction sorted as [|edge sorted IH]; intros log calls; cbn [for_each].
  - intros H. apply Ok_inj in H. subst. exists []. rewrite app_nil_r.
    split; [reflexivity|]. split; [|reflexivity].
    intros d. split; [contradiction|]. intros (e & i & [] & _).
  - unfold draw_edge at 1. fold (both_unclipped edge).
    destruct (both_unclipped edge) eqn:Hb.
    + fold (intensity_of edge).
      destruct (intensity_of edge) as [i| |] eqn:Hi; cbn [bind]; try discriminate.
      unfold record_call at 1. cbn [bind]. intros H.
      destruct (IH _ _ H) as (new & Hcalls & Hin & Hreplay).
      exists (call_of line_thickness i edge :: new).
      split; [rewrite Hcalls, <- app_assoc; reflexivity|]. split.
      * intros d. cbn [In]. rewrite Hin. split.
        -- intros [<-|(e & j & He & Hbe & Hj & Hd)].
           ++ exists edge, i. repeat split; auto using in_eq.
           ++ exists e, j. repeat split; auto using in_cons.
        -- intros (e & j & [<-|He] & Hbe & Hj & Hd).
           ++ left. rewrite Hj in Hi. apply Ok_inj in Hi. subst j. symmetry. exact Hd.
           ++ right. exists e, j. auto.
      * intros St draw s. cbn [for_each]. unfold draw_edge at 1.
        fold (both_unclipped edge). rewrite Hb. fold (intensity_of edge). rewrite Hi.
        cbn [bind]. fold (call_of line_thickness i edge).
        destruct (draw s (call_of line_thickness i edge)); cbn [bind]; auto.
    + cbn [bind]. intros H.
      destruct (IH _ _ H) as (new & Hcalls & Hin & Hreplay).
      exists new. split; [exact Hcalls|]. split.
      * intros d. rewrite Hin. split.
        -- intros (e & j & He & Hbe & Hj & Hd). exists e, j.
           repeat split; auto using in_cons.
        -- intros (e & j & [<-|He] & Hbe & Hj & Hd); [congruence|].
           exists e, j. auto.
      * intros St draw s. cbn [for_each]. unfold draw_edge at 1.
        fold (both_unclipped edge). rewrite Hb. cbn [bind]. apply Hreplay.
Qed.

(** Without lights the intensity is 1.0 and [shade] is not called. *)
Lemma unlit_intensity (edge : renderable_edge_t) :
  lights = None \/ num_lights <= 0 -> intensity_of edge = Ok F1.
Proof.
  unfold intensity_of, line_intensity. intros [H|H].
  - rewrite H. reflexivity.
  - destruct lights; [|reflexivity].
    destruct (Z.ltb_spec 0 num_lights); [lia|reflexivity].
Qed.

Lemma unlit_draw_edges (sorted : list renderable_edge_t) (log : list draw_call) :
  lights = None \/ num_lights <= 0 ->
  draw_edges indeterminate shade record_call model model_matrix lights num_lights
             line_thickness sorted log =
  Ok (log ++ map (call_of line_thickness F1) (List.filter both_unclipped sorted)).
Proof.
  intros Hunlit. unfold draw_edges. revert log.
  induction sorted as [|edge sorted IH]; intros log; cbn [for_each List.filter map].
  - rewrite app_nil_r. reflexivity.
  - unfold draw_edge at 1. fold (both_unclipped edge).
    destruct (both_unclipped edge).
    + fold (intensity_of edge). rewrite (unlit_intensity edge Hunlit).
      cbn [bind]. unfold record_call at 1. cbn [bind map].
      rewrite IH, <- app_assoc. reflexivity.
    + cbn [bind]. apply IH.
Qed.

End RenderCalls.

Section RenderWireframe.
Import Math3d Canvas Lighting Renderer.
Context {L : Libm}.
Variable indeterminate : float.
Variable model : model_t.
Variables model_matrix view_matrix projection_matrix : mat4_t.
Variables screen_width screen_height : Z.

Let projected :=
  project_all indeterminate model model_matrix view_matrix projection_matrix
              screen_width screen_height.
Let renderable :=
  edges_to_render indeterminate model model_matrix view_matrix projection_matrix
                  screen_width screen_height.
Let sorted :=
  sorted_edges indeterminate model model_matrix view_matrix projection_matrix
               screen_width screen_height.

Lemma sorted_edges_In (edge : renderable_edge_t) :
  In edge sorted <->
  exists k e, nth_error (edges model) k = Some e /\
              kept_edge indeterminate projected (Z.of_nat k) e = Some edge.
Proof.
  unfold sorted, sorted_edges. rewrite qsort_In.
  unfold edges_to_render. fold projected. rewrite collect_edges_In.
  split; intros (k & e & H1 & H2); exists k, e; split; auto.
Qed.

Lemma collect_edges_no_vertices (i : Z) (es : list (Z * Z)) :
  collect_edges indeterminate [] i es = [].
Proof.
  revert i. induction es as [|[idx0 idx1] es IH]; intros i; cbn [collect_edges].
  - reflexivity.
  - cbn [List.length Z.of_nat].
    destruct (Z.ltb_spec idx0 0), (Z.geb_spec idx0 0); cbn [orb]; try apply IH; lia.
Qed.

Lemma sorted_edges_empty_model :
  vertices model = [] \/ edges model = [] -> sorted = [].
Proof.
  unfold sorted, sorted_edges, edges_to_render, project_all. intros [H|H]; rewrite H.
  - cbn [map]. rewrite collect_edges_no_vertices. reflexivity.
  - reflexivity.
Qed.

Lemma render_calls_with_unfold
    (shade : vec3_t -> option (list light_t) -> Z -> res float)
    (lights : option (list light_t)) (num_lights : Z) (line_thickness : float) :
  render_calls_with indeterminate shade screen_width screen_height model
                    model_matrix view_matrix projection_matrix
                    lights num_lights line_thickness =
  draw_edges indeterminate shade record_call model model_matrix lights num_lights
             line_thickness sorted [].
Proof.
  unfold render_calls_with. fold sorted.
  destruct (vertices model) as [|v vs] eqn:Hv.
  - rewrite sorted_edges_empty_model by (left; exact Hv). reflexivity.
  - destruct (edges model) as [|e es] eqn:He.
    + rewrite sorted_edges_empty_model by (right; exact He). reflexivity.
    + reflexivity.
Qed.

Lemma projected_nth (j : nat) :
  (j < List.length (vertices model))%nat ->
  nth j projected (unset_vertex indeterminate) =
  project_vertex indeterminate (nth j (vertices model) (zero_vertex indeterminate))
                 model_matrix view_matrix projection_matrix screen_width screen_height.
Proof.
  intros Hj. unfold projected, project_all.
  rewrite (nth_indep _ _
             (project_vertex indeterminate (zero_vertex indeterminate) model_matrix
                             view_matrix projection_matrix screen_width screen_height))
    by (rewrite length_map; exact Hj).
  apply (map_nth (fun v => project_vertex indeterminate v model_matrix view_matrix
                                          projection_matrix screen_width screen_height)).
Qed.

(** C3: a vertex whose clip-space w is below epsilon is returned marked
    BehindEye, at the sentinel (-10000, -10000), with the camera-space z
    and nothing else computed -- the result does not depend on the screen
    size; and no edge of the renderable list, before or after the sort, has
    a BehindEye endpoint: an edge of the model with such an endpoint is
    left out whatever its other endpoint is. *)
Theorem behind_eye_excluded :
  (forall local_vertex,
      let camera_pos := camera_position local_vertex model_matrix view_matrix in
      flt (clip_row projection_matrix 3 camera_pos) FLT_EPSILON = true ->
      project_vertex indeterminate local_vertex model_matrix view_matrix
                     projection_matrix screen_width screen_height =
      mkpv (mkvec3 (of_int (-10000)) (of_int (-10000)) (z camera_pos)
                   indeterminate indeterminate indeterminate) 1) /\
  (forall edge,
      In edge renderable \/ In edge sorted ->
      is_clipped (v0 edge) <> 1 /\ is_clipped (v1 edge) <> 1) /\
  (forall k idx0 idx1 j,
      nth_error (edges model) k = Some (idx0, idx1) ->
      j = idx0 \/ j = idx1 ->
      0 <= j < num_vertices model ->
      flt (clip_row projection_matrix 3
             (camera_position (nth (Z.to_nat j) (vertices model) (zero_vertex indeterminate))
                              model_matrix view_matrix))
          FLT_EPSILON = true ->
      forall edge, In edge renderable \/ In edge sorted ->
                   original_edge_index edge <> Z.of_nat k).
Proof.
  assert (Hbehind : forall local_vertex,
      flt (clip_row projection_matrix 3
             (camera_position local_vertex model_matrix view_matrix)) FLT_EPSILON = true ->
      project_vertex indeterminate local_vertex model_matrix view_matrix
                     projection_matrix screen_width screen_height =
      mkpv (mkvec3 (of_int (-10000)) (of_int (-10000))
                   (z (camera_position local_vertex model_matrix view_matrix))
                   indeterminate indeterminate indeterminate) 1).
  { intros v H. unfold project_vertex. rewrite H. reflexivity. }
  assert (Hin : forall edge, In edge renderable \/ In edge sorted -> In edge sorted).
  { intros edge [H|H]; [|exact H]. unfold sorted, sorted_edges. apply qsort_In. exact H. }
  split; [exact Hbehind|]. split.
  - intros edge H. apply Hin, sorted_edges_In in H. destruct H as (k & e & _ & H).
    apply kept_edge_not_behind in H. tauto.
  - intros k idx0 idx1 j Hk Hj Hrange Hw edge H Hidx.
    apply Hin, sorted_edges_In in H. destruct H as (k' & e' & Hk' & Hkept).
    pose proof (kept_edge_not_behind _ _ _ _ _ Hkept) as (_ & _ & Hi).
    rewrite Hi in Hidx. apply Nat2Z.inj in Hidx. subst k'.
    rewrite Hk in Hk'. injection Hk' as <-.
    unfold num_vertices in Hrange.
    assert (Hpv : is_clipped (nth (Z.to_nat j) projected (unset_vertex indeterminate)) = 1).
    { rewrite projected_nth by lia. rewrite (Hbehind _ Hw). reflexivity. }
    unfold kept_edge in Hkept. cbn [fst snd] in Hkept.
    destruct (_ && _); [|discriminate].
    destruct Hj as [-> | ->]; rewrite Hpv in Hkept; cbn [Z.eqb Pos.eqb orb] in Hkept.
    + discriminate.
    + rewrite orb_true_r in Hkept. discriminate.
Qed.

(** C1, as the code has it: an edge with valid indices and no BehindEye
    endpoint is kept in the renderable list and sorted, OutsideFrustum or
    not; but the drawing loop draws an edge of that list only when both
    endpoints are Unclipped (is_clipped = 0), so the calls of [draw_line_f]
    are exactly those of the kept edges with two Unclipped endpoints, and an
    edge with an OutsideFrustum endpoint is not drawn. *)
Theorem edge_drawn_iff_unclipped
    (shade : vec3_t -> option (list light_t) -> Z -> res float)
    (lights : option (list light_t)) (num_lights : Z) (line_thickness : float) :
  (forall k idx0 idx1,
      nth_error (edges model) k = Some (idx0, idx1) ->
      0 <= idx0 < num_vertices model -> 0 <= idx1 < num_vertices model ->
      let pv0 := nth (Z.to_nat idx0) projected (unset_vertex indeterminate) in
      let pv1 := nth (Z.to_nat idx1) projected (unset_vertex indeterminate) in
      is_clipped pv0 <> 1 -> is_clipped pv1 <> 1 ->
      In (mkedge pv0 pv1
                 (fmul (fadd (z (position_screen pv0)) (z (position_screen pv1))) F0_5)
                 (Z.of_nat k)) sorted) /\
  (forall calls,
      render_calls_with indeterminate shade screen_width screen_height model
                        model_matrix view_matrix projection_matrix
                        lights num_lights line_thickness = Ok calls ->
      forall d,
        In d calls <->
        exists edge i,
          In edge sorted /\
          is_clipped (v0 edge) = 0 /\ is_clipped (v1 edge) = 0 /\
          line_intensity indeterminate shade model model_matrix lights num_lights edge = Ok i /\
          d = call_of line_thickness i edge).
Proof.
  split.
  - intros k idx0 idx1 Hk H0 H1 pv0 pv1 Hc0 Hc1.
    apply sorted_edges_In. exists k, (idx0, idx1). split; [exact Hk|].
    unfold kept_edge, index_ok. cbn [fst snd].
    assert (Hn : Z.of_nat (List.length projected) = num_vertices model).
    { unfold projected, project_all, num_vertices. rewrite length_map. reflexivity. }
    rewrite Hn.
    destruct (Z.leb_spec 0 idx0), (Z.ltb_spec idx0 (num_vertices model)),
             (Z.leb_spec 0 idx1), (Z.ltb_spec idx1 (num_vertices model)); try lia.
    cbn [andb]. fold pv0 pv1.
    destruct (Z.eqb_spec (is_clipped pv0) 1); [contradiction|].
    destruct (Z.eqb_spec (is_clipped pv1) 1); [contradiction|].
    reflexivity.
  - intros calls Hcalls d. rewrite render_calls_with_unfold in Hcalls.
    destruct (draw_edges_calls indeterminate shade model model_matrix lights num_lights
                line_thickness sorted [] calls Hcalls) as (new & Hnew & Hin & _).
    cbn [app] in Hnew. subst new. rewrite Hin.
    split.
    + intros (edge & i & He & Hb & Hi & Hd). exists edge, i.
      unfold both_unclipped in Hb. apply andb_true_iff in Hb. destruct Hb as [Hb0 Hb1].
      apply Z.eqb_eq in Hb0, Hb1. auto.
    + intros (edge & i & He & Hb0 & Hb1 & Hi & Hd). exists edge, i.
      unfold both_unclipped. rewrite Hb0, Hb1. auto.
Qed.

(** C10, as the code has it: with a NULL light array or a count of zero
    or less the calls of [draw_line_f] do not depend on the lighting
    function -- it is not consulted -- and they are, in sorted order, one
    call for every kept edge both of whose endpoints are Unclipped, each at
    the intensity 1.0, not at the 0.5 that
    [calculate_total_lighting_intensity] returns for such arguments.  A
    kept edge with an OutsideFrustum endpoint is filtered out and gets no
    call. *)
Theorem unlit_edges_full_intensity
    (lights : option (list light_t)) (num_lights : Z) (line_thickness : float) :
  lights = None \/ num_lights <= 0 ->
  let calls := map (call_of line_thickness F1) (List.filter both_unclipped sorted) in
  (forall shade,
      render_calls_with indeterminate shade screen_width screen_height model
                        model_matrix view_matrix projection_matrix
                        lights num_lights line_thickness = Ok calls) /\
  Forall (fun d => call_intensity d = F1) calls /\
  (forall surface_normal,
      calculate_total_lighting_intensity surface_normal lights num_lights = Ok F0_5) /\
  F1 <> F0_5.
Proof.
  intros Hunlit calls. split; [|split; [|split]].
  - intros shade. rewrite render_calls_with_unfold.
    rewrite unlit_draw_edges by exact Hunlit. reflexivity.
  - apply Forall_forall. intros d Hd. apply in_map_iff in Hd.
    destruct Hd as (edge & <- & _). reflexivity.
  - intros n. unfold calculate_total_lighting_intensity.
    destruct Hunlit as [-> | H]; [reflexivity|].
    destruct lights; [|reflexivity].
    destruct (Z.leb_spec num_lights 0); [reflexivity|lia].
  - discriminate.
Qed.

(** What [render_wireframe] does to the canvas: nothing for a model
    without vertices or edges; otherwise it sets the viewport radius and
    performs the recorded calls in order. *)
Lemma render_wireframe_performs_calls (fuel : nat) (canvas : canvas_t)
    (lights : option (list light_t)) (num_lights : Z)
    (viewport_radius_param line_thickness : float) (calls : list draw_call) :
  screen_width = width canvas -> screen_height = height canvas ->
  render_wireframe_calls indeterminate screen_width screen_height model
                         model_matrix view_matrix projection_matrix
                         lights num_lights line_thickness = Ok calls ->
  render_wireframe indeterminate fuel canvas model model_matrix view_matrix
                   projection_matrix lights num_lights viewport_radius_param line_thickness =
  match vertices model, edges model with
  | [], _ | _, [] => Ok canvas
  | _, _ =>
      for_each (fun d c => draw_on_canvas fuel c d) calls
               (canvas_set_circular_viewport canvas viewport_radius_param)
  end.
Proof.
  intros Hw Hh Hcalls. unfold render_wireframe.
  destruct (vertices model) as [|v vs] eqn:Hv; [reflexivity|].
  destruct (edges model) as [|e es] eqn:He; [reflexivity|].
  unfold render_wireframe_calls in Hcalls. rewrite render_calls_with_unfold in Hcalls.
  destruct (draw_edges_calls indeterminate _ model model_matrix lights num_lights
              line_thickness sorted [] calls Hcalls) as (new & Hnew & _ & Hreplay).
  cbn [app] in Hnew. subst new. rewrite <- Hw, <- Hh. apply Hreplay.
Qed.

(** The renderer keeps the stored intensities in [0, 1], like the canvas
    operations it is made of. *)
Lemma render_wireframe_in_range (fuel : nat) (canvas canvas' : canvas_t)
    (lights : option (list light_t)) (num_lights : Z)
    (viewport_radius_param line_thickness : float) :
  pixels_in_range canvas ->
  render_wireframe indeterminate fuel canvas model model_matrix view_matrix
                   projection_matrix lights num_lights viewport_radius_param line_thickness
    = Ok canvas' ->
  pixels_in_range canvas'.
Proof.
  intros Hc. unfold render_wireframe.
  assert (Hloop : forall es c c',
             pixels_in_range c ->
             draw_edges indeterminate calculate_total_lighting_intensity (draw_on_canvas fuel)
                        model model_matrix lights num_lights line_thickness es c = Ok c' ->
             pixels_in_range c').
  { unfold draw_edges. induction es as [|edge es IH]; intros c c' Hin; cbn [for_each].
    - intros H. apply Ok_inj in H. subst. exact Hin.
    - destruct (draw_edge indeterminate calculate_total_lighting_intensity
                          (draw_on_canvas fuel) model model_matrix lights num_lights
                          line_thickness edge c) as [c1| |] eqn:E; cbn [bind]; try discriminate.
      apply IH. unfold draw_edge in E.
      destruct (_ && _); [|apply Ok_inj in E; subst; exact Hin].
      destruct (line_intensity _ _ _ _ _ _ _) as [i| |]; cbn [bind] in E; try discriminate.
      unfold draw_on_canvas in E. eapply draw_line_f_in_range; eauto. }
  destruct (vertices model); [intros H; apply Ok_inj in H; subst; exact Hc|].
  destruct (edges model); [intros H; apply Ok_inj in H; subst; exact Hc|].
  apply Hloop. exact Hc.
Qed.

End RenderWireframe.

Lemma behind_eye_excluded_witness :
  Renderer.project_vertex (L := Interp.libm) F0 (Scene.vertex 0 0 5)
    Math3d.mat4_identity Math3d.mat4_identity Scene.frustum 8 8 =
  Renderer.mkpv (Math3d.mkvec3 (of_int (-10000)) (of_int (-10000)) (of_int 5) F0 F0 F0) 1 /\
  (forall edge, In edge (Scene.renderable Scene.behind_model) ->
                Renderer.original_edge_index edge <> 0).
Proof.
  pose proof (behind_eye_excluded (L := Interp.libm) F0 Scene.behind_model
                Math3d.mat4_identity Math3d.mat4_identity Scene.frustum 8 8)
    as (H1 & _ & H3).
  split.
  - rewrite (H1 (Scene.vertex 0 0 5)); vm_compute; reflexivity.
  - intros edge He.
    apply (H3 0%nat 0 1 0); [reflexivity | left; reflexivity | vm_compute; split; congruence
                            | vm_compute; reflexivity | left; exact He].
Defined.

Lemma edge_drawn_iff_unclipped_witness :
  In (Renderer.mkedge (nth 0 (Scene.project Scene.wide_model) (Renderer.unset_vertex F0))
                      (nth 1 (Scene.project Scene.wide_model) (Renderer.unset_vertex F0))
                      (of_int (-2)) 0)
     (Scene.sorted Scene.wide_model) /\
  (forall d, In d [] <->
             exists edge i,
               In edge (Scene.sorted Scene.wide_model) /\
               Renderer.is_clipped (Renderer.v0 edge) = 0 /\
               Renderer.is_clipped (Renderer.v1 edge) = 0 /\
               Renderer.line_intensity (L := Interp.libm) F0
                 Lighting.calculate_total_lighting_intensity Scene.wide_model
                 Math3d.mat4_identity None 0 edge = Ok i /\
               d = call_of F1 i edge).
Proof.
  pose proof (edge_drawn_iff_unclipped (L := Interp.libm) F0 Scene.wide_model
                Math3d.mat4_identity Math3d.mat4_identity Scene.frustum 8 8
                Lighting.calculate_total_lighting_intensity None 0 F1) as (H1 & H2).
  split.
  - apply (H1 0%nat 0 1); [reflexivity | vm_compute; split; congruence
                          | vm_compute; split; congruence
                          | vm_compute; discriminate | vm_compute; discriminate].
  - apply (H2 []). vm_compute. reflexivity.
Defined.

(** C1 as stated fails: the edge of [wide_model] has an Unclipped and an
    OutsideFrustum endpoint, neither BehindEye; it is in the renderable
    list, yet [render_wireframe] makes no call of [draw_line_f] and
    returns the canvas as it was. *)
Lemma outside_frustum_edge_not_drawn :
  map Renderer.is_clipped (Scene.project Scene.wide_model) = [0; 2] /\
  map Renderer.original_edge_index (Scene.renderable Scene.wide_model) = [0] /\
  Scene.calls Scene.wide_model = Ok [] /\
  Scene.render Scene.wide_model = Ok Scene.canvas.
Proof.
  vm_compute. repeat split.
Qed.

(** C2 on the code: the far edge (average depth -5) and the near edge
    (average depth -2) are both drawn, and in either order of listing the
    near edge, whose depth is the less negative, comes first in the sorted
    list and is drawn first. *)
Lemma near_edge_drawn_first :
  map Renderer.avg_z (Scene.renderable Scene.depth_model) = [of_int (-5); of_int (-2)] /\
  map Renderer.avg_z (Scene.sorted Scene.depth_model) = [of_int (-2); of_int (-5)] /\
  map Renderer.original_edge_index (Scene.sorted Scene.depth_model) = [1; 0] /\
  map Renderer.original_edge_index (Scene.sorted Scene.depth_model_swapped) = [0; 1] /\
  Scene.calls Scene.depth_model =
    Ok (map (call_of F1 F1) (Scene.sorted Scene.depth_model)) /\
  Scene.calls Scene.depth_model_swapped =
    Ok (map (call_of F1 F1) (Scene.sorted Scene.depth_model_swapped)) /\
  flt (of_int (-5)) (of_int (-2)) = true.
Proof.
  vm_compute. repeat split.
Qed.

Lemma unlit_edges_full_intensity_witness :
  Scene.calls Scene.depth_model =
    Ok (map (call_of F1 F1) (List.filter both_unclipped (Scene.sorted Scene.depth_model))) /\
  Forall (fun d => Renderer.call_intensity d = F1)
         (map (call_of F1 F1) (List.filter both_unclipped (Scene.sorted Scene.depth_model))).
Proof.
  pose proof (unlit_edges_full_intensity (L := Interp.libm) F0 Scene.depth_model
                Math3d.mat4_identity Math3d.mat4_identity Scene.frustum 8 8
                None 0 F1 (or_introl eq_refl)) as (H1 & H2 & _).
  split.
  - apply (H1 Lighting.calculate_total_lighting_intensity).
  - exact H2.
Defined.

(** C10 as stated fails: the edge of [wide_model] is kept -- neither
    endpoint is BehindEye, and it is the one entry of the sorted list --
    but its second endpoint is OutsideFrustum.  With an empty light array
    and a count of 0, and with a NULL array and a count of 3, the guard
    before [draw_line_f] skips it: no call is made, at 1.0 or at any other
    intensity, and the canvas is returned as it was. *)
Lemma unlit_kept_edge_not_drawn :
  map Renderer.original_edge_index (Scene.sorted Scene.wide_model) = [0] /\
  map (fun e => (Renderer.is_clipped (Renderer.v0 e), Renderer.is_clipped (Renderer.v1 e)))
      (Scene.sorted Scene.wide_model) = [(0, 2)] /\
  Renderer.render_wireframe_calls (L := Interp.libm) F0 8 8 Scene.wide_model
    Math3d.mat4_identity Math3d.mat4_identity Scene.frustum (Some []) 0 F1 = Ok [] /\
  Renderer.render_wireframe_calls (L := Interp.libm) F0 8 8 Scene.wide_model
    Math3d.mat4_identity Math3d.mat4_identity Scene.frustum None 3 F1 = Ok [] /\
  Renderer.render_wireframe (L := Interp.libm) F0 8 Scene.canvas Scene.wide_model
    Math3d.mat4_identity Math3d.mat4_identity Scene.frustum (Some []) 0 F0 F1
    = Ok Scene.canvas.
Proof.
  vm_compute. repeat split.
Qed.

(** ** obj_loader.c *)

Section FaceEdges.
Import ObjLoader.

Lemma polygon_edges_length (idxs : list Z) :
  List.length (polygon_edges idxs) = List.length idxs.
Proof.
  destruct idxs as [|first rest]; [reflexivity|].
  unfold polygon_edges. rewrite length_combine, !length_map, length_app.
  cbn [List.length]. apply Nat.min_l. lia.
Qed.

(** The i-th edge of the polygon joins corner i to corner (i + 1) mod n. *)
Lemma polygon_edges_nth (idxs : list Z) (i : nat) :
  (i < List.length idxs)%nat ->
  nth_error (polygon_edges idxs) i =
  Some (nth i idxs 0 - 1, nth ((i + 1) mod List.length idxs) idxs 0 - 1).
Proof.
  destruct idxs as [|first rest]; [simpl; lia|]. intros Hi.
  set (idxs := first :: rest) in *.
  assert (Hlen : List.length idxs = S (List.length rest)) by reflexivity.
  unfold polygon_edges. fold idxs.
  assert (Hnext : nth i (rest ++ [first]) 0 = nth ((i + 1) mod List.length idxs) idxs 0).
  { rewrite Hlen. destruct (Nat.eq_dec i (List.length rest)) as [->|Hne].
    - replace (List.length rest + 1)%nat with (S (List.length rest)) by lia.
      rewrite Nat.Div0.mod_same.
      rewrite app_nth2 by lia. rewrite Nat.sub_diag. reflexivity.
    - rewrite Nat.mod_small by lia. rewrite app_nth1 by lia.
      replace (i + 1)%nat with (S i) by lia. reflexivity. }
  rewrite <- Hnext.
  assert (Hc : forall (l1 l2 : list Z) j,
             (j < List.length l1)%nat -> (j < List.length l2)%nat ->
             nth_error (combine (map Z.pred l1) (map Z.pred l2)) j =
             Some (nth j l1 0 - 1, nth j l2 0 - 1)).
  { induction l1 as [|a l1 IH]; intros l2 j H1 H2; [simpl in H1; lia|].
    destruct l2 as [|b l2]; [simpl in H2; lia|].
    destruct j as [|j]; simpl.
    - rewrite <- !Z.sub_1_r. reflexivity.
    - apply IH; simpl in *; lia. }
  apply Hc; [exact Hi|]. rewrite length_app. simpl. lia.
Qed.

Lemma face_edge_loop_spec (idxs : list Z) (line_buffer : string) :
  forall k i st,
    (i + k <= List.length idxs)%nat ->
    let count := Z.of_nat (List.length (vertices_da st)) in
    let todo := firstn k (skipn i (polygon_edges idxs)) in
    let st' := face_edge_loop k i idxs line_buffer st in
    vertices_da st' = vertices_da st /\
    edges_da st' = edges_da st ++ List.filter (edge_in_range count) todo /\
    diagnostics st' =
      diagnostics st ++ map (fun _ => out_of_bounds_message line_buffer)
                            (List.filter (rejected count) todo).
Proof.
  induction k as [|k IH]; intros i st Hk; cbv zeta.
  - cbn [face_edge_loop firstn List.filter map]. rewrite !app_nil_r. auto.
  - destruct (skipn_nth_error (polygon_edges idxs) i) as (e & He & Hs);
      [rewrite polygon_edges_length; lia|].
    rewrite polygon_edges_nth in He by lia. injection He as <-.
    rewrite Hs. cbn [face_edge_loop firstn List.filter].
    set (idx1 := nth i idxs 0 - 1). set (idx2 := nth ((i + 1) mod List.length idxs) idxs 0 - 1).
    set (count := Z.of_nat (List.length (vertices_da st))).
    assert (Hr : ((idx1 <? 0) || (idx1 >=? count) || (idx2 <? 0) || (idx2 >=? count))
                 = rejected count (idx1, idx2)).
    { unfold rejected, edge_in_range. cbn [fst snd].
      destruct (Z.ltb_spec idx1 0), (Z.geb_spec idx1 count),
               (Z.ltb_spec idx2 0), (Z.geb_spec idx2 count);
        destruct (Z.leb_spec 0 idx1), (Z.ltb_spec idx1 count),
                 (Z.leb_spec 0 idx2), (Z.ltb_spec idx2 count);
        cbn [orb andb negb]; try reflexivity; exfalso; lia. }
    rewrite Hr.
    destruct (edge_in_range count (idx1, idx2)) eqn:Hin.
    + assert (Hrej : rejected count (idx1, idx2) = false)
        by (unfold rejected; rewrite Hin; reflexivity).
      rewrite Hrej.
      match goal with
      | |- context [face_edge_loop k (S i) idxs line_buffer ?s] =>
          destruct (IH (S i) s) as (H1 & H2 & H3); [lia|]
      end.
      cbn [vertices_da edges_da diagnostics] in H1, H2, H3. fold count in H2, H3.
      rewrite H1, H2, H3, <- app_assoc. auto.
    + assert (Hrej : rejected count (idx1, idx2) = true)
        by (unfold rejected; rewrite Hin; reflexivity).
      rewrite Hrej.
      match goal with
      | |- context [face_edge_loop k (S i) idxs line_buffer ?s] =>
          destruct (IH (S i) s) as (H1 & H2 & H3); [lia|]
      end.
      cbn [vertices_da edges_da diagnostics] in H1, H2, H3. fold count in H2, H3.
      rewrite H1, H2, H3. cbn [map]. rewrite <- app_assoc. auto.
Qed.

Lemma add_face_spec (idxs : list Z) (line_buffer : string) (st : loader) :
  let count := Z.of_nat (List.length (vertices_da st)) in
  let todo := if (3 <=? List.length idxs)%nat then polygon_edges idxs else [] in
  let st' := add_face idxs line_buffer st in
  vertices_da st' = vertices_da st /\
  edges_da st' = edges_da st ++ List.filter (edge_in_range count) todo /\
  diagnostics st' =
    diagnostics st ++ map (fun _ => out_of_bounds_message line_buffer)
                          (List.filter (rejected count) todo).
Proof.
  cbv zeta. unfold add_face. destruct (3 <=? List.length idxs)%nat.
  - pose proof (face_edge_loop_spec idxs line_buffer (List.length idxs) 0 st (le_n _)) as H.
    cbv zeta in H. cbn [skipn] in H.
    rewrite firstn_all2 in H by (rewrite polygon_edges_length; lia). exact H.
  - cbn [List.filter map]. rewrite !app_nil_r. auto.
Qed.

End FaceEdges.

Section Loader.
Import Math3d Renderer ObjLoader.
Context {L : Libm}.
Variable sscanf_v : string -> option (float * float * float).
Variable sscanf_d : string -> option Z.


(** The loop over the lines goes through every line of the text, in
    order, whatever the lines before it held. *)
Lemma parse_lines_fold (current_pos : string) (st : loader) :
  parse_lines sscanf_v sscanf_d current_pos st =
  fold_left (fun st' line => process_line sscanf_v sscanf_d line st')
            (lines_of current_pos) st.
Proof.
  funelim (parse_lines sscanf_v sscanf_d current_pos st); simp lines_of.
  - reflexivity.
  - cbn [fold_left]. exact H.
Qed.

Lemma edge_in_range_mono (count count' : Z) (e : Z * Z) :
  count <= count' -> edge_in_range count e = true -> edge_in_range count' e = true.
Proof.
  unfold edge_in_range. intros Hc H.
  destruct (Z.leb_spec 0 (fst e)), (Z.ltb_spec (fst e) count),
           (Z.leb_spec 0 (snd e)), (Z.ltb_spec (snd e) count); try discriminate.
  destruct (Z.ltb_spec (fst e) count'), (Z.ltb_spec (snd e) count');
    try reflexivity; lia.
Qed.


Lemma process_line_in_range (line_buffer : string) (st : loader) :
  edges_in_range st -> edges_in_range (process_line sscanf_v sscanf_d line_buffer st).
Proof.
  intros Hst. unfold process_line.
  destruct (String.prefix "v "%string line_buffer).
  - destruct (sscanf_v line_buffer) as [[[vx vy] vz]|]; [|exact Hst].
    unfold edges_in_range in *. cbn [vertices_da edges_da].
    eapply Forall_impl; [|exact Hst]. intros e He.
    eapply edge_in_range_mono; [|exact He]. rewrite length_app. simpl. lia.
  - destruct (String.prefix "f "%string line_buffer); [|exact Hst].
    destruct (add_face_spec (parse_face_indices sscanf_d (drop 2 line_buffer) [])
                line_buffer st) as (H1 & H2 & _).
    unfold edges_in_range in *. rewrite H1, H2. apply Forall_app. split; [exact Hst|].
    apply Forall_forall. intros e He. apply filter_In in He. apply He.
Qed.

Lemma parse_lines_in_range (current_pos : string) (st : loader) :
  edges_in_range st -> edges_in_range (parse_lines sscanf_v sscanf_d current_pos st).
Proof.
  rewrite parse_lines_fold. revert st.
  induction (lines_of current_pos) as [|line ls IH]; intros st Hst; cbn [fold_left].
  - exact Hst.
  - apply IH, process_line_in_range, Hst.
Qed.


End Loader.



(** ** The order of the sorted edges *)

Lemma flt_rank (a b : float) :
  is_nan a = false -> is_nan b = false ->
  (flt a b = true <-> rank_lt (rank a) (rank b)).
Proof.
  unfold flt, SFltb.
  destruct a as [sa|sa| |sa ma ea], b as [sb|sb| |sb mb eb];
    try discriminate; intros _ _; cbn [SFcompare]; cbv [rank rank_lt];
    try (destruct sa); try (destruct sb);
    try (split; [discriminate | lia]);
    try (split; [intros _; lia | reflexivity]).
  - destruct (Z.compare_spec ea eb) as [He|He|He].
    + subst. rewrite Pos.compare_cont_spec. cbn [Pos.switch_Eq].
      destruct (Pos.compare_spec ma mb) as [Hm|Hm|Hm]; cbn [CompOpp];
        (split; [try discriminate; intros _; lia | try reflexivity; lia]).
    + split; [discriminate | lia].
    + split; [intros _; lia | reflexivity].
  - destruct (Z.compare_spec ea eb) as [He|He|He].
    + subst. rewrite Pos.compare_cont_spec. cbn [Pos.switch_Eq].
      destruct (Pos.compare_spec ma mb) as [Hm|Hm|Hm];
        (split; [try discriminate; intros _; lia | try reflexivity; lia]).
    + split; [intros _; lia | reflexivity].
    + split; [discriminate | lia].
Qed.

(** "Not less than", on numbers, is transitive. *)
Lemma not_flt_trans (a b c : float) :
  is_nan a = false -> is_nan b = false -> is_nan c = false ->
  flt a b = false -> flt b c = false -> flt a c = false.
Proof.
  intros Ha Hb Hc Hab Hbc.
  destruct (flt a c) eqn:Hac; [|reflexivity].
  apply (flt_rank a c Ha Hc) in Hac.
  assert (Hab' : ~ rank_lt (rank a) (rank b))
    by (intros H; apply (flt_rank a b Ha Hb) in H; congruence).
  assert (Hbc' : ~ rank_lt (rank b) (rank c))
    by (intros H; apply (flt_rank b c Hb Hc) in H; congruence).
  destruct (rank a) as [[a1 a2] a3], (rank b) as [[b1 b2] b3], (rank c) as [[c1 c2] c3].
  unfold rank_lt in *. exfalso. lia.
Qed.

Lemma flt_asym (a b : float) : flt a b = true -> flt b a = false.
Proof.
  unfold flt, SFltb. rewrite (fcompare_swap a b).
  destruct (SFcompare a b) as [[ | | ]|]; simpl; congruence.
Qed.

Section SortedOrder.
Import Renderer.

Lemma qsort_insert_sorted (a : renderable_edge_t) (l : list renderable_edge_t) :
  depth_is_number a -> Forall depth_is_number l ->
  StronglySorted not_farther l ->
  StronglySorted not_farther (qsort_insert compare_renderable_edges a l).
Proof.
  intros Ha Hl Hs. induction Hs as [|b l Hs IH Hb]; cbn [qsort_insert].
  - constructor; constructor.
  - inversion Hl as [|b' l' Hnb Hnl]; subst.
    destruct (Z.leb_spec (compare_renderable_edges a b) 0) as [Hc|Hc].
    + assert (Hab : not_farther a b).
      { unfold not_farther. unfold compare_renderable_edges in Hc.
        destruct (flt (avg_z a) (avg_z b)); [lia|reflexivity]. }
      constructor; [constructor; assumption|].
      constructor; [exact Hab|].
      rewrite Forall_forall in Hb, Hnl |- *. intros c Hc'.
      apply (not_flt_trans _ (avg_z b) _); auto.
      * apply Hnl, Hc'.
      * apply Hb, Hc'.
    + assert (Hab : flt (avg_z a) (avg_z b) = true).
      { unfold compare_renderable_edges in Hc.
        destruct (flt (avg_z a) (avg_z b)); [reflexivity|].
        destruct (fgt (avg_z a) (avg_z b)); lia. }
      constructor; [apply IH; exact Hnl|].
      apply Forall_forall. intros c Hc'. apply qsort_insert_In in Hc'.
      destruct Hc' as [->|Hc'].
      * apply flt_asym, Hab.
      * rewrite Forall_forall in Hb. apply Hb, Hc'.
Qed.

(** The sorted list runs from the largest average depth to the smallest:
    no edge comes before an edge that is nearer to the camera (of larger,
    less negative z) than itself. *)
Lemma qsort_edges_descending (l : list renderable_edge_t) :
  Forall depth_is_number l ->
  StronglySorted not_farther (qsort compare_renderable_edges l).
Proof.
  intros Hl. unfold qsort. induction Hl as [|a l Ha Hl IH]; cbn [fold_right].
  - constructor.
  - apply qsort_insert_sorted; [exact Ha| |exact IH].
    apply Forall_forall. intros b Hb.
    fold (qsort compare_renderable_edges l) in Hb. apply qsort_In in Hb.
    rewrite Forall_forall in Hl. apply Hl, Hb.
Qed.

End SortedOrder.

(** The same for the list [render_wireframe] draws from: when no average
    depth is NaN, the edges are sorted from near to far. *)
Lemma sorted_edges_descending {L : Libm} (indeterminate : float) (model : Renderer.model_t)
    (model_matrix view_matrix projection_matrix : Math3d.mat4_t)
    (screen_width screen_height : Z) :
  Forall depth_is_number
         (Renderer.edges_to_render indeterminate model model_matrix view_matrix
                                   projection_matrix screen_width screen_height) ->
  StronglySorted not_farther
         (Renderer.sorted_edges indeterminate model model_matrix view_matrix
                                projection_matrix screen_width screen_height).
Proof. apply qsort_edges_descending. Qed.

(** * Further properties of the code *)

(** ** Exact products and sums of binary32 *)

Section Exact.

Lemma shr_fexp_times_2_23 (m : positive) (e : Z) :
  fexp prec emax (Zpos (digits2_pos m) + e) = e ->
  shr_fexp prec emax (Zpos (8388608 * m)) (e - 23) loc_Exact =
  ({| shr_m := Zpos m; shr_r := false; shr_s := false |}, e).
Proof.
  intros Hc. unfold shr_fexp.
  assert (Hd : Zdigits2 (Zpos (8388608 * m)) = Zpos (digits2_pos m) + 23).
  { cbn [Pos.mul Zdigits2 digits2_pos]. lia. }
  rewrite Hd.
  replace (Zpos (digits2_pos m) + 23 + (e - 23)) with (Zpos (digits2_pos m) + e) by lia.
  rewrite Hc. replace (e - (e - 23)) with 23 by lia.
  cbn [shr shr_record_of_loc Pos.mul iter_pos shr_1 orb].
  f_equal. lia.
Qed.

Lemma shr_fexp_canonical (m : positive) (e : Z) :
  fexp prec emax (Zpos (digits2_pos m) + e) = e ->
  shr_fexp prec emax (Zpos m) e loc_Exact =
  ({| shr_m := Zpos m; shr_r := false; shr_s := false |}, e).
Proof.
  intros Hc. unfold shr_fexp. cbn [Zdigits2]. rewrite Hc, Z.sub_diag. reflexivity.
Qed.

(** Rounding the mantissa [2^23 * m] at the exponent [e - 23] gives back
    the canonical [m] at [e]. *)
Lemma round_times_2_23 (s : bool) (m : positive) (e : Z) :
  bounded prec emax m e = true ->
  binary_round_aux prec emax s (Zpos (8388608 * m)) (e - 23) loc_Exact = S754_finite s m e.
Proof.
  unfold bounded, canonical_mantissa. intros H.
  apply andb_prop in H. destruct H as [Hc Hb]. apply Z.eqb_eq in Hc.
  unfold binary_round_aux. rewrite (shr_fexp_times_2_23 m e Hc).
  cbn [shr_m loc_of_shr_record round_nearest_even].
  rewrite (shr_fexp_canonical m e Hc). cbn [shr_m]. rewrite Hb. reflexivity.
Qed.

End Exact.

Lemma finite32_finite (a : float) : finite32 a = true -> is_finite a = true.
Proof. unfold finite32. intros H. apply andb_prop in H. apply H. Qed.

Lemma finite32_valid (a : float) : finite32 a = true -> valid_binary prec emax a = true.
Proof. unfold finite32. intros H. apply andb_prop in H. apply H. Qed.

Lemma fmul_one_l (a : float) : valid_binary prec emax a = true -> fmul F1 a = a.
Proof.
  destruct a as [s|s| |s m e]; try reflexivity.
  unfold valid_binary. intros H.
  unfold fmul, F1, SFmul. cbn [xorb].
  replace (-23 + e) with (e - 23) by lia.
  apply round_times_2_23, H.
Qed.

Lemma fmul_comm (a b : float) : fmul a b = fmul b a.
Proof.
  unfold fmul.
  destruct a as [sa|sa| |sa ma ea], b as [sb|sb| |sb mb eb]; cbn [SFmul];
    try reflexivity; try (rewrite xorb_comm; reflexivity).
  rewrite xorb_comm, Pos.mul_comm, Z.add_comm. reflexivity.
Qed.

Lemma fmul_one_r (a : float) : valid_binary prec emax a = true -> fmul a F1 = a.
Proof. intros H. rewrite fmul_comm. apply fmul_one_l, H. Qed.

Lemma fmul_minus_one_l (a : float) :
  valid_binary prec emax a = true -> fmul (fneg F1) a = fneg a.
Proof.
  destruct a as [s|s| |s m e]; try reflexivity.
  unfold valid_binary. intros H.
  unfold fmul, F1, fneg, SFmul, SFopp. cbn [xorb negb].
  replace (-23 + e) with (e - 23) by lia.
  apply round_times_2_23, H.
Qed.

Lemma is_zero_fmul_l (z a : float) :
  is_zero z = true -> is_finite a = true -> is_zero (fmul z a) = true.
Proof. destruct z, a; simpl; try discriminate; reflexivity. Qed.

Lemma is_zero_fmul_r (a z : float) :
  is_finite a = true -> is_zero z = true -> is_zero (fmul a z) = true.
Proof. destruct z, a; simpl; try discriminate; reflexivity. Qed.

Lemma is_zero_fadd (a b : float) :
  is_zero a = true -> is_zero b = true -> is_zero (fadd a b) = true.
Proof.
  destruct a as [[|]| | |], b as [[|]| | |]; simpl; try discriminate; reflexivity.
Qed.

Lemma same_number_refl (a : float) : same_number a a.
Proof. left. reflexivity. Qed.

Lemma same_number_zero (a b : float) :
  is_zero a = true -> is_zero b = true -> same_number a b.
Proof. right. split; assumption. Qed.

Lemma fadd_zero_r (a z : float) : is_zero z = true -> same_number (fadd a z) a.
Proof.
  destruct z as [sz| | |]; try discriminate. intros _.
  destruct a as [sa|sa| |sa ma ea]; try (left; reflexivity).
  right. split; [|reflexivity]. destruct sa, sz; reflexivity.
Qed.

Lemma fadd_zero_l (z a : float) : is_zero z = true -> same_number (fadd z a) a.
Proof.
  destruct z as [sz| | |]; try discriminate. intros _.
  destruct a as [sa|sa| |sa ma ea]; try (left; reflexivity).
  right. split; [|reflexivity]. destruct sa, sz; reflexivity.
Qed.

Lemma same_number_trans (a b c : float) :
  same_number a b -> same_number b c -> same_number a c.
Proof.
  intros [->|[Ha Hb]] [->|[Hb' Hc]].
  - left; reflexivity.
  - right; split; assumption.
  - right; split; assumption.
  - right; split; assumption.
Qed.

Lemma same_number_fadd_zero_r (a b z : float) :
  same_number a b -> is_zero z = true -> same_number (fadd a z) b.
Proof.
  intros Hab Hz. apply (same_number_trans _ a); [apply fadd_zero_r, Hz | exact Hab].
Qed.

Lemma same_number_fadd_zero_l (z a b : float) :
  is_zero z = true -> same_number a b -> same_number (fadd z a) b.
Proof.
  intros Hz Hab. apply (same_number_trans _ a); [apply fadd_zero_l, Hz | exact Hab].
Qed.

(** Adding to the same number gives the same number. *)
Lemma same_number_fadd (a a' b b' : float) :
  same_number a a' -> same_number b b' -> same_number (fadd a b) (fadd a' b').
Proof.
  intros [->|[Ha Ha']] [->|[Hb Hb']]; try (left; reflexivity).
  - destruct b as [sb| | |], b' as [sb'| | |]; try discriminate.
    destruct a' as [sa|sa| |sa ma ea]; try (left; reflexivity).
    right. split; destruct sa, sb; try destruct sb'; reflexivity.
  - destruct a as [sa| | |], a' as [sa'| | |]; try discriminate.
    destruct b' as [sb|sb| |sb mb eb]; try (left; reflexivity).
    right. split; destruct sb, sa; try destruct sa'; reflexivity.
  - right. split; apply is_zero_fadd; assumption.
Qed.

(** The C comparisons do not see the sign of a zero. *)
Lemma same_number_flt (a b c : float) : same_number a b -> flt a c = flt b c.
Proof.
  intros [->|[Ha Hb]]; [reflexivity|].
  destruct a, b; try discriminate. destruct c; reflexivity.
Qed.

Lemma same_number_fgt (a b c : float) : same_number a b -> fgt a c = fgt b c.
Proof.
  intros [->|[Ha Hb]]; [reflexivity|].
  destruct a, b; try discriminate. destruct c; reflexivity.
Qed.

Lemma same_number_fabsf (a b : float) : same_number a b -> same_number (fabsf a) (fabsf b).
Proof.
  intros [->|[Ha Hb]]; [left; reflexivity|].
  destruct a, b; try discriminate. left. reflexivity.
Qed.

(** ** math3d.c: the affine matrices *)

Section AffineTransforms.
Import Math3d.
Context {L : Libm}.

Lemma affine_row (m3 m7 m11 m15 vx vy vz : float) :
  is_zero m3 = true -> is_zero m7 = true -> is_zero m11 = true -> m15 = F1 ->
  is_finite vx = true -> is_finite vy = true -> is_finite vz = true ->
  fadd (fadd (fadd (fmul m3 vx) (fmul m7 vy)) (fmul m11 vz)) (fmul m15 F1) = F1.
Proof.
  intros H3 H7 H11 -> Hx Hy Hz.
  pose proof (is_zero_fadd _ _
                (is_zero_fadd _ _ (is_zero_fmul_l _ _ H3 Hx) (is_zero_fmul_l _ _ H7 Hy))
                (is_zero_fmul_l _ _ H11 Hz)) as Hsum.
  change (fmul F1 F1) with F1.
  destruct (fadd (fadd (fmul m3 vx) (fmul m7 vy)) (fmul m11 vz)); try discriminate.
  reflexivity.
Qed.

(** With a last row (0, 0, 0, 1) the resulting [w] of a finite point is
    exactly 1 and nothing is divided. *)
Lemma affine_transform_point (mat : mat4_t) (p : vec3_t) :
  affine mat ->
  is_finite (x p) = true -> is_finite (y p) = true -> is_finite (z p) = true ->
  let v := [x p; y p; z p; F1] in
  let q := mat4_transform_point mat p in
  x q = hom_component mat v 0 /\ y q = hom_component mat v 1 /\ z q = hom_component mat v 2.
Proof.
  intros (H3 & H7 & H11 & H15) Hx Hy Hz. cbv zeta.
  unfold mat4_transform_point.
  rewrite (affine_row _ _ _ _ _ _ _ H3 H7 H11 H15 Hx Hy Hz).
  change (fgt (fabsf F1) FLT_EPSILON && fgt (fabsf (fsub F1 F1)) FLT_EPSILON) with false.
  cbv iota.
  match goal with
  | |- context [_vec3_update_spherical_from_cartesian ?res] =>
      destruct (update_spherical_cartesian res) as (Ex & Ey & Ez)
  end.
  rewrite Ex, Ey, Ez. cbn [x y z]. repeat split.
Qed.

End AffineTransforms.

Section AffineTheorems.
Import Math3d.
Context {L : Libm}.

Ltac finite_side :=
  match goal with
  | |- is_zero _ = true => first [ reflexivity | assumption
        | apply is_zero_fmul_l; [finite_side | finite_side]
        | apply is_zero_fmul_r; [finite_side | finite_side]
        | apply is_zero_fadd; [finite_side | finite_side] ]
  | |- is_finite _ = true => first [ reflexivity | assumption | apply finite32_finite; assumption ]
  | |- valid_binary _ _ _ = true => first [ reflexivity | assumption | apply finite32_valid; assumption ]
  end.

Lemma finite_vec_parts (p : vec3_t) :
  finite_vec p = true ->
  finite32 (x p) = true /\ finite32 (y p) = true /\ finite32 (z p) = true.
Proof.
  unfold finite_vec. intros H. apply andb_prop in H. destruct H as [H Hz].
  apply andb_prop in H. destruct H as [Hx Hy]. auto.
Qed.

(** The identity matrix leaves a finite point where it is. *)
Theorem identity_keeps_point (p : vec3_t) :
  finite_vec p = true ->
  same_point (mat4_transform_point mat4_identity p) (x p) (y p) (z p).
Proof.
  intros Hp. destruct (finite_vec_parts p Hp) as (Hx & Hy & Hz).
  destruct (affine_transform_point mat4_identity p) as (Ex & Ey & Ez);
    [repeat split | finite_side | finite_side | finite_side |].
  unfold same_point. rewrite Ex, Ey, Ez.
  unfold hom_component, mat4_identity.
  cbn [map seq Nat.mul Nat.add nth fold_left at_].
  change (fmul F0 F1) with F0.
  rewrite !fmul_one_l by finite_side.
  split; [|split].
  - repeat (apply same_number_fadd_zero_r; [|finite_side]). apply same_number_refl.
  - apply same_number_fadd_zero_r; [|finite_side].
    apply same_number_fadd_zero_r; [|finite_side].
    apply same_number_fadd_zero_l; [finite_side|]. apply same_number_refl.
  - apply same_number_fadd_zero_r; [|finite_side].
    apply same_number_fadd_zero_l; [finite_side|]. apply same_number_refl.
Qed.

(** A translation adds the offsets, one rounded addition for each
    coordinate. *)
Theorem translate_moves_point (tx ty tz : float) (p : vec3_t) :
  finite_vec p = true ->
  valid_binary prec emax tx = true -> valid_binary prec emax ty = true ->
  valid_binary prec emax tz = true ->
  same_point (mat4_transform_point (mat4_translate tx ty tz) p)
             (fadd (x p) tx) (fadd (y p) ty) (fadd (z p) tz).
Proof.
  intros Hp Htx Hty Htz. destruct (finite_vec_parts p Hp) as (Hx & Hy & Hz).
  destruct (affine_transform_point (mat4_translate tx ty tz) p) as (Ex & Ey & Ez);
    [repeat split | finite_side | finite_side | finite_side |].
  unfold same_point. rewrite Ex, Ey, Ez.
  unfold hom_component, mat4_translate, mat4_identity.
  cbn [map seq Nat.mul Nat.add nth fold_left at_ set_at set_nth].
  rewrite !fmul_one_l, !fmul_one_r by finite_side.
  split; [|split]; apply same_number_fadd; try apply same_number_refl.
  - repeat (apply same_number_fadd_zero_r; [|finite_side]). apply same_number_refl.
  - apply same_number_fadd_zero_r; [|finite_side].
    apply same_number_fadd_zero_l; [finite_side|]. apply same_number_refl.
  - apply same_number_fadd_zero_l; [finite_side|]. apply same_number_refl.
Qed.

(** A scaling multiplies each coordinate by its factor, one rounded
    product for each. *)
Theorem scale_multiplies_point (sx sy sz : float) (p : vec3_t) :
  finite_vec p = true ->
  same_point (mat4_transform_point (mat4_scale sx sy sz) p)
             (fmul sx (x p)) (fmul sy (y p)) (fmul sz (z p)).
Proof.
  intros Hp. destruct (finite_vec_parts p Hp) as (Hx & Hy & Hz).
  destruct (affine_transform_point (mat4_scale sx sy sz) p) as (Ex & Ey & Ez);
    [repeat split | finite_side | finite_side | finite_side |].
  unfold same_point. rewrite Ex, Ey, Ez.
  unfold hom_component, mat4_scale, mat4_identity.
  cbn [map seq Nat.mul Nat.add nth fold_left at_ set_at set_nth].
  change (fmul F0 F1) with F0.
  split; [|split].
  - repeat (apply same_number_fadd_zero_r; [|finite_side]). apply same_number_refl.
  - apply same_number_fadd_zero_r; [|finite_side].
    apply same_number_fadd_zero_r; [|finite_side].
    apply same_number_fadd_zero_l; [finite_side|]. apply same_number_refl.
  - apply same_number_fadd_zero_r; [|finite_side].
    apply same_number_fadd_zero_l; [finite_side|]. apply same_number_refl.
Qed.

(** A direction is not moved by a translation: [mat4_transform_vector]
    does not read the last column. *)
Theorem translation_keeps_vector (indeterminate tx ty tz : float) (v : vec3_t) :
  finite_vec v = true ->
  same_point (mat4_transform_vector indeterminate (mat4_translate tx ty tz) v)
             (x v) (y v) (z v).
Proof.
  intros Hp. destruct (finite_vec_parts v Hp) as (Hx & Hy & Hz).
  unfold same_point, mat4_transform_vector.
  match goal with
  | |- context [_vec3_update_spherical_from_cartesian ?res] =>
      destruct (update_spherical_cartesian res) as (Ex & Ey & Ez)
  end.
  rewrite Ex, Ey, Ez. cbn [x y z].
  unfold mat4_translate, mat4_identity. cbn [nth at_ set_at set_nth].
  rewrite !fmul_one_l by finite_side.
  split; [|split].
  - repeat (apply same_number_fadd_zero_r; [|finite_side]). apply same_number_refl.
  - apply same_number_fadd_zero_r; [|finite_side].
    apply same_number_fadd_zero_l; [finite_side|]. apply same_number_refl.
  - apply same_number_fadd_zero_l; [finite_side|]. apply same_number_refl.
Qed.

End AffineTheorems.

(** ** math3d.c: the matrix product *)

Section MatrixProduct.
Import Math3d.

(** Every entry of the result is written: it is the sum, from 0 and in
    the order of [k], of the four products of its row of [a] with its
    column of [b], and nothing of the unwritten local is left. *)
Lemma mat4_multiply_entry (indeterminate : float) (a b : mat4_t) (i j : nat) :
  (i < 4)%nat -> (j < 4)%nat ->
  at_ (mat4_multiply indeterminate a b) (i * 4 + j) =
  fadd (fadd (fadd (fadd F0 (fmul (at_ a j) (at_ b (i * 4))))
                   (fmul (at_ a (4 + j)) (at_ b (i * 4 + 1))))
             (fmul (at_ a (8 + j)) (at_ b (i * 4 + 2))))
       (fmul (at_ a (12 + j)) (at_ b (i * 4 + 3))).
Proof.
  intros Hi Hj.
  destruct i as [|[|[|[|i]]]]; try lia; destruct j as [|[|[|[|j]]]]; try lia; reflexivity.
Qed.

Lemma at_finite32 (b : mat4_t) (k : nat) :
  Forall (fun v => finite32 v = true) b -> finite32 (at_ b k) = true.
Proof.
  intros Hb. unfold at_. destruct (nth_in_or_default k b F0) as [Hin|Hd]; [|rewrite Hd; reflexivity].
  rewrite Forall_forall in Hb. apply Hb, Hin.
Qed.

Ltac entry_side b Hb :=
  match goal with
  | |- is_zero (fmul _ _) = true =>
      first [ apply is_zero_fmul_l; [reflexivity | apply finite32_finite, at_finite32, Hb]
            | apply is_zero_fmul_r; [apply finite32_finite, at_finite32, Hb | reflexivity] ]
  | |- is_zero (fadd _ _) = true => apply is_zero_fadd; entry_side b Hb
  | |- is_zero _ = true => reflexivity
  end.

Ltac entry_sum b Hb :=
  repeat first [ apply same_number_refl
               | apply same_number_fadd_zero_r; [|entry_side b Hb]
               | apply same_number_fadd_zero_l; [entry_side b Hb|] ].

(** The identity matrix is neutral for the product, on either side, up
    to the sign of a zero entry. *)
Theorem identity_is_neutral (indeterminate : float) (b : mat4_t) (i j : nat) :
  Forall (fun v => finite32 v = true) b ->
  (i < 4)%nat -> (j < 4)%nat ->
  same_number (at_ (mat4_multiply indeterminate mat4_identity b) (i * 4 + j))
              (at_ b (i * 4 + j)) /\
  same_number (at_ (mat4_multiply indeterminate b mat4_identity) (i * 4 + j))
              (at_ b (i * 4 + j)).
Proof.
  intros Hb Hi Hj. rewrite !mat4_multiply_entry by assumption. split.
  - destruct j as [|[|[|[|j]]]]; try lia;
      cbn [at_ nth mat4_identity Nat.add];
      rewrite fmul_one_l by (apply finite32_valid, at_finite32, Hb);
      rewrite ?Nat.add_0_r; entry_sum b Hb.
  - destruct i as [|[|[|[|i]]]]; try lia;
      cbn [at_ nth mat4_identity Nat.add Nat.mul];
      rewrite fmul_one_r by (apply finite32_valid, at_finite32, Hb);
      entry_sum b Hb.
Qed.

End MatrixProduct.

(** ** math3d.c: the cross product *)

Section CrossProduct.
Import Math3d.
Context {L : Libm}.

Lemma fsub_diag (a : float) : is_finite a = true -> fsub a a = F0.
Proof.
  destruct a as [[|]|s| |s m e]; try discriminate; try reflexivity. intros _.
  unfold fsub, SFsub. rewrite Z.sub_diag. reflexivity.
Qed.

Lemma binary_round_aux_opp (s : bool) (m e : Z) (l : location) :
  binary_round_aux prec emax (negb s) m e l = fneg (binary_round_aux prec emax s m e l).
Proof.
  unfold binary_round_aux.
  destruct (shr_fexp prec emax m e l) as [mrs' e'].
  destruct (shr_fexp prec emax _ e' loc_Exact) as [mrs'' e''].
  destruct (shr_m mrs''); try reflexivity.
  destruct (e'' <=? emax - prec); reflexivity.
Qed.

Lemma binary_normalize_opp (m e : Z) :
  same_number (binary_normalize prec emax (- m) e false)
              (fneg (binary_normalize prec emax m e false)).
Proof.
  destruct m as [|p|p]; cbn [Z.opp binary_normalize].
  - right. split; reflexivity.
  - left. unfold binary_round.
    destruct (shl_align p e _) as [mz ez]. apply (binary_round_aux_opp false).
  - left. unfold binary_round.
    destruct (shl_align p e _) as [mz ez].
    rewrite (binary_round_aux_opp false). unfold fneg.
    destruct (binary_round_aux prec emax false (Z.pos mz) ez loc_Exact) as [s|s| |s m' e'];
      cbn [SFopp]; rewrite ?negb_involutive; reflexivity.
Qed.

(** Exchanging the operands of a subtraction changes the sign of the
    result. *)
Lemma fsub_swap (a b : float) : same_number (fsub b a) (fneg (fsub a b)).
Proof.
  unfold fsub.
  destruct a as [sa|sa| |sa ma ea], b as [sb|sb| |sb mb eb]; cbn [SFsub];
    try (left; reflexivity);
    try (destruct sa, sb; first [left; reflexivity | right; split; reflexivity]).
  rewrite (Z.min_comm eb ea).
  match goal with
  | |- same_number (binary_normalize _ _ (?p - ?q) _ _) _ =>
      replace (p - q) with (- (q - p)) by lia
  end.
  apply binary_normalize_opp.
Qed.

End CrossProduct.

Section CrossTheorems.
Import Math3d.
Context {L : Libm}.

Lemma cross_coordinates (indeterminate : float) (a b : vec3_t) :
  x (vec3_cross indeterminate a b) = fsub (fmul (y a) (z b)) (fmul (z a) (y b)) /\
  y (vec3_cross indeterminate a b) = fsub (fmul (z a) (x b)) (fmul (x a) (z b)) /\
  z (vec3_cross indeterminate a b) = fsub (fmul (x a) (y b)) (fmul (y a) (x b)).
Proof.
  unfold vec3_cross, vec3_set_cartesian. apply update_spherical_cartesian.
Qed.

(** The cross product of a vector with itself is the zero vector, all
    six fields 0, unless a product of two of its components overflows. *)
Theorem cross_with_itself (indeterminate : float) (a : vec3_t) :
  is_finite (fmul (y a) (z a)) = true ->
  is_finite (fmul (z a) (x a)) = true ->
  is_finite (fmul (x a) (y a)) = true ->
  vec3_cross indeterminate a a = zero_vector.
Proof.
  intros Hyz Hzx Hxy. unfold vec3_cross.
  rewrite (fmul_comm (z a) (y a)), (fmul_comm (x a) (z a)), (fmul_comm (y a) (x a)).
  rewrite !fsub_diag by assumption. reflexivity.
Qed.

(** Exchanging the operands changes the sign of every coordinate. *)
Theorem cross_antisymmetric (indeterminate : float) (a b : vec3_t) :
  same_point (vec3_cross indeterminate b a)
             (fneg (x (vec3_cross indeterminate a b)))
             (fneg (y (vec3_cross indeterminate a b)))
             (fneg (z (vec3_cross indeterminate a b))).
Proof.
  destruct (cross_coordinates indeterminate a b) as (Ex & Ey & Ez).
  destruct (cross_coordinates indeterminate b a) as (Ex' & Ey' & Ez').
  unfold same_point. rewrite Ex, Ey, Ez, Ex', Ey', Ez'.
  rewrite (fmul_comm (y b) (z a)), (fmul_comm (z b) (y a)),
          (fmul_comm (z b) (x a)), (fmul_comm (x b) (z a)),
          (fmul_comm (x b) (y a)), (fmul_comm (y b) (x a)).
  repeat split; apply fsub_swap.
Qed.

End CrossTheorems.

(** ** math3d.c: which matrices are affine *)

Section AffineMatrices.
Import Math3d.
Context {L : Libm} {T : Trig}.

Lemma affine_product (indeterminate : float) (a b : mat4_t) :
  affine a -> affine b -> Forall (fun v => finite32 v = true) b ->
  affine (mat4_multiply indeterminate a b).
Proof.
  intros (A3 & A7 & A11 & A15) (B3 & B7 & B11 & B15) Hb.
  assert (Hf : forall k, is_finite (at_ b k) = true)
    by (intros k; apply finite32_finite, at_finite32, Hb).
  pose proof (mat4_multiply_entry indeterminate a b 0 3 ltac:(lia) ltac:(lia)) as E3.
  pose proof (mat4_multiply_entry indeterminate a b 1 3 ltac:(lia) ltac:(lia)) as E7.
  pose proof (mat4_multiply_entry indeterminate a b 2 3 ltac:(lia) ltac:(lia)) as E11.
  pose proof (mat4_multiply_entry indeterminate a b 3 3 ltac:(lia) ltac:(lia)) as E15.
  cbn [Nat.mul Nat.add] in E3, E7, E11, E15.
  unfold affine. rewrite E3, E7, E11, E15, A15. clear E3 E7 E11 E15.
  repeat split.
  - repeat apply is_zero_fadd; try reflexivity;
      first [ apply is_zero_fmul_l; [assumption | apply Hf]
            | apply is_zero_fmul_r; [reflexivity | assumption] ].
  - repeat apply is_zero_fadd; try reflexivity;
      first [ apply is_zero_fmul_l; [assumption | apply Hf]
            | apply is_zero_fmul_r; [reflexivity | assumption] ].
  - repeat apply is_zero_fadd; try reflexivity;
      first [ apply is_zero_fmul_l; [assumption | apply Hf]
            | apply is_zero_fmul_r; [reflexivity | assumption] ].
  - rewrite B15. change (fmul F1 F1) with F1.
    assert (Hz : is_zero (fadd (fadd (fadd F0 (fmul (at_ a 3) (at_ b 12)))
                                     (fmul (at_ a 7) (at_ b 13)))
                               (fmul (at_ a 11) (at_ b 14))) = true).
    { repeat apply is_zero_fadd; try reflexivity;
        apply is_zero_fmul_l; solve [assumption | apply Hf]. }
    destruct (fadd (fadd (fadd F0 _) _) _); try discriminate. reflexivity.
Qed.

(** The matrices the library builds for placing a model have the last
    row (0, 0, 0, 1), and so has the product of two such matrices with
    finite entries; a matrix with that last row transforms a finite
    point without dividing. *)
Theorem placement_matrices_are_affine (indeterminate : float) :
  affine mat4_identity /\
  (forall tx ty tz, affine (mat4_translate tx ty tz)) /\
  (forall sx sy sz, affine (mat4_scale sx sy sz)) /\
  (forall angle_rad, affine (mat4_rotate_x angle_rad) /\
                     affine (mat4_rotate_y angle_rad) /\
                     affine (mat4_rotate_z angle_rad)) /\
  (forall q, affine (quat_to_mat4 q)) /\
  (forall a b, affine a -> affine b -> Forall (fun v => finite32 v = true) b ->
               affine (mat4_multiply indeterminate a b)) /\
  (forall mat p, affine mat -> finite_vec p = true ->
     let v := [x p; y p; z p; F1] in
     let q := mat4_transform_point mat p in
     x q = hom_component mat v 0 /\ y q = hom_component mat v 1 /\
     z q = hom_component mat v 2).
Proof.
  split; [repeat split|]. split; [intros; repeat split|].
  split; [intros; repeat split|]. split; [intros; repeat split|].
  split; [intros; repeat split|]. split; [apply affine_product|].
  intros mat p Hm Hp. destruct (finite_vec_parts p Hp) as (Hx & Hy & Hz).
  apply affine_transform_point; [exact Hm | | | ]; apply finite32_finite; assumption.
Qed.

End AffineMatrices.

(** ** renderer.c with the projection matrices of math3d.c *)

Section FrustumClip.
Import Math3d Renderer.
Context {L : Libm} {T : Trig}.
Variable indeterminate : float.

Lemma perspective_row_behind (projection_matrix : mat4_t) (camera_pos : vec3_t) :
  is_zero (at_ projection_matrix 3) = true ->
  is_zero (at_ projection_matrix 7) = true ->
  at_ projection_matrix 11 = fneg F1 ->
  is_zero (at_ projection_matrix 15) = true ->
  is_finite (x camera_pos) = true -> is_finite (y camera_pos) = true ->
  valid_binary prec emax (z camera_pos) = true ->
  same_number (clip_row projection_matrix 3 camera_pos) (fneg (z camera_pos)).
Proof.
  intros H3 H7 H11 H15 Hx Hy Hz. unfold clip_row. cbn [Nat.add].
  rewrite H11, (fmul_minus_one_l _ Hz).
  apply same_number_fadd_zero_r; [|exact H15].
  apply same_number_fadd_zero_l; [|apply same_number_refl].
  apply is_zero_fadd; apply is_zero_fmul_l; assumption.
Qed.

Lemma project_vertex_behind (local_vertex : vec3_t)
    (model_matrix view_matrix projection_matrix : mat4_t) (screen_width screen_height : Z) :
  is_clipped (project_vertex indeterminate local_vertex model_matrix view_matrix
                             projection_matrix screen_width screen_height) = 1 <->
  flt (clip_row projection_matrix 3
                (camera_position local_vertex model_matrix view_matrix))
      FLT_EPSILON = true.
Proof.
  unfold project_vertex.
  destruct (flt (clip_row projection_matrix 3 _) FLT_EPSILON).
  - cbn [is_clipped]. split; reflexivity.
  - cbn [is_clipped]. split; [|discriminate].
    destruct (_ || _); discriminate.
Qed.

(** With a projection matrix of [mat4_frustum_asymmetric] or
    [mat4_perspective], the clip-space w of a vertex is the opposite of
    its camera-space z: the vertex is flagged as behind the eye exactly
    when [-z < epsilon], whatever the planes of the frustum are. *)
Theorem frustum_flags_behind_eye (local_vertex : vec3_t)
    (model_matrix view_matrix : mat4_t) (l r b t n f fovy_rad aspect : float)
    (screen_width screen_height : Z) :
  let camera_pos := camera_position local_vertex model_matrix view_matrix in
  is_finite (x camera_pos) = true -> is_finite (y camera_pos) = true ->
  valid_binary prec emax (z camera_pos) = true ->
  (is_clipped (project_vertex indeterminate local_vertex model_matrix view_matrix
                 (mat4_frustum_asymmetric l r b t n f) screen_width screen_height) = 1 <->
   flt (fneg (z camera_pos)) FLT_EPSILON = true) /\
  (is_clipped (project_vertex indeterminate local_vertex model_matrix view_matrix
                 (mat4_perspective fovy_rad aspect n f) screen_width screen_height) = 1 <->
   flt (fneg (z camera_pos)) FLT_EPSILON = true).
Proof.
  cbv zeta. intros Hx Hy Hz. split.
  - rewrite project_vertex_behind.
    rewrite (same_number_flt _ (fneg (z (camera_position local_vertex model_matrix view_matrix)))).
    + reflexivity.
    + apply perspective_row_behind; try assumption; reflexivity.
  - rewrite project_vertex_behind.
    rewrite (same_number_flt _ (fneg (z (camera_position local_vertex model_matrix view_matrix)))).
    + reflexivity.
    + apply perspective_row_behind; try assumption; reflexivity.
Qed.

End FrustumClip.

(** ** animation.c *)

Section Bezier.
Import Math3d Animation.
Context {L : Libm}.
Variable indeterminate : float.

Lemma clamp_low (t : float) :
  fle t F0 = true ->
  is_zero (let t1 := if flt t F0 then F0 else t in if fgt t1 F1 then F1 else t1) = true.
Proof.
  destruct t as [[|]|[|]| |[|] m e]; try discriminate; intros _; reflexivity.
Qed.

Lemma clamp_high (t : float) :
  fge t F1 = true ->
  (let t1 := if flt t F0 then F0 else t in if fgt t1 F1 then F1 else t1) = F1.
Proof.
  cbv zeta. intros H.
  assert (H0 : flt t F0 = false).
  { destruct t as [[|]|[|]| |[|] m e]; try discriminate; reflexivity. }
  rewrite H0. destruct (fgt t F1) eqn:H1; [reflexivity|].
  unfold fge, fgt, SFleb, SFltb in *.
  destruct t as [[|]|[|]| |[|] m e]; try discriminate.
  unfold F1 in *. cbn [SFcompare] in *.
  destruct (Z.compare_spec (-23) e) as [He|He|He]; try discriminate.
  subst e. rewrite Pos.compare_cont_spec in *. cbn [Pos.switch_Eq] in *.
  destruct (Pos.compare_spec 8388608 m) as [Hm|Hm|Hm]; try discriminate.
  subst m. reflexivity.
Qed.

Lemma bezier_coordinates (p0 p1 p2 p3 : vec3_t) (t : float) (c : vec3_t -> float) :
  (c = x \/ c = y \/ c = z) ->
  let t1 := if flt t F0 then F0 else t in
  let t2 := if fgt t1 F1 then F1 else t1 in
  let u := fsub F1 t2 in
  c (bezier_cubic indeterminate p0 p1 p2 p3 t) =
  fadd (fadd (fadd (fmul (fmul (fmul u u) u) (c p0))
                   (fmul (fmul (fmul F3 (fmul u u)) t2) (c p1)))
             (fmul (fmul (fmul F3 u) (fmul t2 t2)) (c p2)))
       (fmul (fmul (fmul t2 t2) t2) (c p3)).
Proof.
  intros Hc. cbv zeta. unfold bezier_cubic, vec3_set_cartesian.
  match goal with
  | |- context [_vec3_update_spherical_from_cartesian ?res] =>
      destruct (update_spherical_cartesian res) as (Ex & Ey & Ez)
  end.
  destruct Hc as [->|[->| ->]]; [rewrite Ex|rewrite Ey|rewrite Ez]; reflexivity.
Qed.

Lemma bezier_start_coordinate (t0 a b c d : float) :
  is_zero t0 = true ->
  valid_binary prec emax a = true -> is_finite b = true ->
  is_finite c = true -> is_finite d = true ->
  let u := fsub F1 t0 in
  same_number
    (fadd (fadd (fadd (fmul (fmul (fmul u u) u) a)
                      (fmul (fmul (fmul F3 (fmul u u)) t0) b))
                (fmul (fmul (fmul F3 u) (fmul t0 t0)) c))
          (fmul (fmul (fmul t0 t0) t0) d))
    a.
Proof.
  intros Ht Ha Hb Hc Hd. cbv zeta.
  assert (Hu : fsub F1 t0 = F1) by (destruct t0; try discriminate; reflexivity).
  rewrite Hu. change (fmul (fmul F1 F1) F1) with F1. change (fmul F3 (fmul F1 F1)) with F3.
  change (fmul F3 F1) with F3. rewrite (fmul_one_l a Ha).
  assert (Htt : is_zero (fmul t0 t0) = true)
    by (apply is_zero_fmul_l; [exact Ht | destruct t0; try discriminate; reflexivity]).
  apply same_number_fadd_zero_r.
  - apply same_number_fadd_zero_r.
    + apply same_number_fadd_zero_r; [apply same_number_refl|].
      apply is_zero_fmul_l; [|exact Hb]. apply is_zero_fmul_r; [reflexivity|exact Ht].
    + apply is_zero_fmul_l; [|exact Hc]. apply is_zero_fmul_r; [reflexivity|exact Htt].
  - apply is_zero_fmul_l; [|exact Hd].
    apply is_zero_fmul_l; [exact Htt|]. destruct t0; try discriminate; reflexivity.
Qed.

Lemma bezier_end_coordinate (a b c d : float) :
  is_finite a = true -> is_finite b = true -> is_finite c = true ->
  valid_binary prec emax d = true ->
  let u := fsub F1 F1 in
  same_number
    (fadd (fadd (fadd (fmul (fmul (fmul u u) u) a)
                      (fmul (fmul (fmul F3 (fmul u u)) F1) b))
                (fmul (fmul (fmul F3 u) (fmul F1 F1)) c))
          (fmul (fmul (fmul F1 F1) F1) d))
    d.
Proof.
  intros Ha Hb Hc Hd. cbv zeta.
  change (fsub F1 F1) with F0. change (fmul (fmul F0 F0) F0) with F0.
  change (fmul (fmul F3 (fmul F0 F0)) F1) with F0.
  change (fmul (fmul F3 F0) (fmul F1 F1)) with F0.
  change (fmul (fmul F1 F1) F1) with F1. rewrite (fmul_one_l d Hd).
  apply same_number_fadd_zero_l; [|apply same_number_refl].
  repeat apply is_zero_fadd; apply is_zero_fmul_l; solve [reflexivity | assumption].
Qed.

(** The curve starts at its first control point and ends at its last:
    for every parameter at or below 0 the result is [p0], for every
    parameter at or above 1 it is [p3]. *)
Theorem bezier_cubic_endpoints (p0 p1 p2 p3 : vec3_t) (t : float) :
  finite_vec p0 = true -> finite_vec p1 = true ->
  finite_vec p2 = true -> finite_vec p3 = true ->
  (fle t F0 = true ->
   same_point (bezier_cubic indeterminate p0 p1 p2 p3 t) (x p0) (y p0) (z p0)) /\
  (fge t F1 = true ->
   same_point (bezier_cubic indeterminate p0 p1 p2 p3 t) (x p3) (y p3) (z p3)).
Proof.
  intros H0 H1 H2 H3.
  destruct (finite_vec_parts p0 H0) as (H0x & H0y & H0z).
  destruct (finite_vec_parts p1 H1) as (H1x & H1y & H1z).
  destruct (finite_vec_parts p2 H2) as (H2x & H2y & H2z).
  destruct (finite_vec_parts p3 H3) as (H3x & H3y & H3z).
  split; intros Ht; unfold same_point.
  - pose proof (clamp_low t Ht) as Hz. cbv zeta in Hz.
    rewrite (bezier_coordinates p0 p1 p2 p3 t x), (bezier_coordinates p0 p1 p2 p3 t y),
            (bezier_coordinates p0 p1 p2 p3 t z) by auto.
    repeat split; apply bezier_start_coordinate;
      first [ exact Hz | apply finite32_valid; assumption | apply finite32_finite; assumption ].
  - pose proof (clamp_high t Ht) as Hz. cbv zeta in Hz.
    rewrite (bezier_coordinates p0 p1 p2 p3 t x), (bezier_coordinates p0 p1 p2 p3 t y),
            (bezier_coordinates p0 p1 p2 p3 t z) by auto.
    rewrite Hz.
    repeat split; apply bezier_end_coordinate;
      first [ apply finite32_valid; assumption | apply finite32_finite; assumption ].
Qed.

End Bezier.

(** ** canvas.c: which pixels a drawing operation can change *)

Section CanvasLocality.
Import Canvas.

Lemma same_frame_refl (c : canvas_t) : same_frame c c.
Proof. repeat split. Qed.

Lemma same_frame_trans (c1 c2 c3 : canvas_t) :
  same_frame c1 c2 -> same_frame c2 c3 -> same_frame c1 c3.
Proof.
  intros (A1 & A2 & A3 & A4) (B1 & B2 & B3 & B4). unfold same_frame.
  rewrite B1, B2, B3, B4. auto.
Qed.

Lemma same_frame_viewport (c c' : canvas_t) (px py : Z) :
  same_frame c c' ->
  _canvas_is_pixel_in_circular_viewport c' px py =
  _canvas_is_pixel_in_circular_viewport c px py.
Proof.
  intros (H1 & H2 & H3 & _). unfold _canvas_is_pixel_in_circular_viewport.
  rewrite H1, H2, H3. reflexivity.
Qed.

Lemma length_set_nth {A : Type} (l : list A) (i : nat) (v : A) :
  List.length (set_nth l i v) = List.length l.
Proof.
  revert i. induction l as [|h l IH]; intros [|i]; simpl; auto.
Qed.

Lemma nth_set_nth_other {A : Type} (l : list A) (i k : nat) (v d : A) :
  k <> i -> nth k (set_nth l i v) d = nth k l d.
Proof.
  revert i k. induction l as [|h l IH]; intros [|i] [|k] Hk; simpl; auto; try lia.
Qed.

Lemma pixel_index_injective (w px py cx cy : Z) :
  0 <= px < w -> 0 <= cx < w -> 0 <= py -> 0 <= cy ->
  Z.to_nat (py * w + px) = Z.to_nat (cy * w + cx) -> px = cx /\ py = cy.
Proof.
  intros Hpx Hcx Hpy Hcy H.
  assert (H' : py * w + px = cy * w + cx) by nia.
  assert (py = cy) by nia. subst. lia.
Qed.

(** One cell of the neighbourhood changes at most its own pixel, and
    only when that pixel is on the canvas and inside the viewport. *)
Lemma splat_cell_effect (x_int y_int : Z) (fx fy intensity : float)
    (c : canvas_t) (ij : Z * Z) :
  let c' := splat_cell x_int y_int fx fy intensity c ij in
  same_frame c c' /\
  forall px py, on_canvas c px py ->
    (px, py) <> (x_int + fst ij, y_int + snd ij) \/
    _canvas_is_pixel_in_circular_viewport c px py = false ->
    pixel_at c' px py = pixel_at c px py.
Proof.
  cbv zeta. destruct ij as [i j]. unfold splat_cell. cbn [fst snd].
  destruct (_ && _) eqn:Hb; [|split; [apply same_frame_refl|reflexivity]].
  destruct (_canvas_is_pixel_in_circular_viewport c (x_int + i) (y_int + j)) eqn:Hv;
    cbn [negb]; [|split; [apply same_frame_refl|reflexivity]].
  split.
  - unfold same_frame, with_pixels. cbn [width height active_viewport_radius pixels].
    rewrite length_set_nth. auto.
  - intros px py (Hpx & Hpy) Hne. unfold pixel_at, with_pixels. cbn [width pixels].
    apply nth_set_nth_other. intros Hidx.
    apply andb_prop in Hb. destruct Hb as [Hb H4]. apply andb_prop in Hb.
    destruct Hb as [Hb H3]. apply andb_prop in Hb. destruct Hb as [H1 H2].
    apply Z.leb_le in H1, H3. apply Z.ltb_lt in H2, H4.
    destruct (pixel_index_injective (width c) px py (x_int + i) (y_int + j))
      as [Ex Ey]; try lia.
    subst. destruct Hne as [Hne|Hne]; [apply Hne; reflexivity | congruence].
Qed.

Lemma splat_cells_effect (x_int y_int : Z) (fx fy intensity : float)
    (cells : list (Z * Z)) (c : canvas_t) :
  let c' := fold_left (splat_cell x_int y_int fx fy intensity) cells c in
  same_frame c c' /\
  forall px py, on_canvas c px py ->
    (forall ij, In ij cells -> (px, py) <> (x_int + fst ij, y_int + snd ij)) \/
    _canvas_is_pixel_in_circular_viewport c px py = false ->
    pixel_at c' px py = pixel_at c px py.
Proof.
  cbv zeta. revert c. induction cells as [|ij cells IH]; intros c; cbn [fold_left].
  - split; [apply same_frame_refl|reflexivity].
  - destruct (splat_cell_effect x_int y_int fx fy intensity c ij) as [Hf Hp].
    cbv zeta in Hf, Hp.
    destruct (IH (splat_cell x_int y_int fx fy intensity c ij)) as [Hf' Hp'].
    split; [eapply same_frame_trans; eauto|].
    intros px py Hon Hne. rewrite Hp'.
    + apply Hp; [exact Hon|]. destruct Hne as [Hne|Hne]; [left; apply Hne; left; reflexivity|right; exact Hne].
    + destruct Hf as (E1 & E2 & _). unfold on_canvas. rewrite E1, E2. exact Hon.
    + destruct Hne as [Hne|Hne].
      * left. intros ij' Hin. apply Hne. right. exact Hin.
      * right. rewrite (same_frame_viewport _ _ _ _ Hf). exact Hne.
Qed.

Lemma set_pixel_f_frame (c c' : canvas_t) (x y intensity : float) :
  set_pixel_f c x y intensity = Ok c' ->
  same_frame c c' /\
  forall px py, on_canvas c px py ->
    _canvas_is_pixel_in_circular_viewport c px py = false ->
    pixel_at c' px py = pixel_at c px py.
Proof.
  unfold set_pixel_f.
  destruct (to_int (floorf x)) as [x_int| |]; cbn [bind]; try discriminate.
  destruct (to_int (floorf y)) as [y_int| |]; cbn [bind]; try discriminate.
  intros H. apply Ok_inj in H. subst c'.
  destruct (splat_cells_effect x_int y_int (fsub x (of_int x_int)) (fsub y (of_int y_int))
              (clamp01 intensity) neighbourhood c) as [Hf Hp]. cbv zeta in Hf, Hp.
  split; [exact Hf|]. intros px py Hon Hv. apply Hp; [exact Hon|]. right. exact Hv.
Qed.

(** [set_pixel_f] keeps the dimensions, the viewport radius and the
    number of pixels of the canvas, and changes no pixel other than the
    four of the 2x2 block at (floor x, floor y), and none outside the
    circular viewport. *)
Theorem set_pixel_f_is_local (c c' : canvas_t) (x y intensity : float) :
  set_pixel_f c x y intensity = Ok c' ->
  same_frame c c' /\
  exists x_int y_int,
    to_int (floorf x) = Ok x_int /\ to_int (floorf y) = Ok y_int /\
    forall px py, on_canvas c px py ->
      px < x_int \/ x_int + 1 < px \/ py < y_int \/ y_int + 1 < py \/
      _canvas_is_pixel_in_circular_viewport c px py = false ->
      pixel_at c' px py = pixel_at c px py.
Proof.
  unfold set_pixel_f.
  destruct (to_int (floorf x)) as [x_int| |]; cbn [bind]; try discriminate.
  destruct (to_int (floorf y)) as [y_int| |]; cbn [bind]; try discriminate.
  intros H. apply Ok_inj in H. subst c'.
  destruct (splat_cells_effect x_int y_int (fsub x (of_int x_int)) (fsub y (of_int y_int))
              (clamp01 intensity) neighbourhood c) as [Hf Hp]. cbv zeta in Hf, Hp.
  split; [exact Hf|]. exists x_int, y_int. split; [reflexivity|]. split; [reflexivity|].
  intros px py Hon Hout. apply Hp; [exact Hon|].
  destruct Hout as [H|[H|[H|[H|H]]]]; [left|left|left|left|right; exact H];
    intros ij Hin Heq; injection Heq as Ex Ey;
    unfold neighbourhood in Hin; cbn [In] in Hin;
    repeat (destruct Hin as [<-|Hin]; [cbn [fst snd] in *; lia|]); contradiction.
Qed.

(** A sample whose 2x2 block lies off the canvas changes nothing. *)
Theorem set_pixel_f_off_canvas (c : canvas_t) (x y intensity : float) (x_int y_int : Z) :
  to_int (floorf x) = Ok x_int -> to_int (floorf y) = Ok y_int ->
  x_int < -1 \/ width c <= x_int \/ y_int < -1 \/ height c <= y_int ->
  set_pixel_f c x y intensity = Ok c.
Proof.
  intros Hx Hy Hout. unfold set_pixel_f. rewrite Hx, Hy. cbn [bind]. f_equal.
  unfold neighbourhood. cbn [fold_left]. unfold splat_cell.
  repeat match goal with
  | |- context [if ?b then _ else _] =>
      let E := fresh "E" in
      destruct b eqn:E;
      [ exfalso; repeat (apply andb_prop in E; destruct E as [E ?]);
        repeat match goal with
               | H : (_ <=? _) = true |- _ => apply Z.leb_le in H
               | H : (_ <? _) = true |- _ => apply Z.ltb_lt in H
               end; cbn [width height with_pixels] in *; lia
      | ]
  end.
  reflexivity.
Qed.

End CanvasLocality.

Section CanvasClipping.
Import Canvas.

Lemma set_pixel_f_keeps (c0 : canvas_t) (px py : Z) (c c' : canvas_t) (x y intensity : float) :
  on_canvas c0 px py ->
  _canvas_is_pixel_in_circular_viewport c0 px py = false ->
  same_frame c0 c /\ pixel_at c px py = pixel_at c0 px py ->
  set_pixel_f c x y intensity = Ok c' ->
  same_frame c0 c' /\ pixel_at c' px py = pixel_at c0 px py.
Proof.
  intros Hon Hv [Hf Hp] H.
  destruct (set_pixel_f_frame c c' x y intensity H) as (Hf' & Hloc).
  split; [eapply same_frame_trans; eauto|].
  rewrite Hloc; [exact Hp| |].
  - destruct Hf as (E1 & E2 & _). unfold on_canvas. rewrite E1, E2. exact Hon.
  - rewrite (same_frame_viewport _ _ _ _ Hf). exact Hv.
Qed.

Lemma draw_line_f_frame (fuel : nat) (c c' : canvas_t)
    (x0 y0 x1 y1 thickness line_intensity : float) :
  draw_line_f fuel c x0 y0 x1 y1 thickness line_intensity = Ok c' -> same_frame c c'.
Proof.
  intros H.
  apply (draw_line_with_preserves set_pixel_f (fun s => same_frame c s)) in H.
  - exact H.
  - intros s x y i s' Hs Hput.
    destruct (set_pixel_f_frame s s' x y i Hput) as [Hf _].
    eapply same_frame_trans; eauto.
  - apply same_frame_refl.
Qed.

Lemma draw_line_f_keeps (fuel : nat) (c c' : canvas_t)
    (x0 y0 x1 y1 thickness line_intensity : float) (px py : Z) :
  draw_line_f fuel c x0 y0 x1 y1 thickness line_intensity = Ok c' ->
  on_canvas c px py ->
  _canvas_is_pixel_in_circular_viewport c px py = false ->
  pixel_at c' px py = pixel_at c px py.
Proof.
  intros H Hon Hv.
  apply (draw_line_with_preserves set_pixel_f
           (fun s => same_frame c s /\ pixel_at s px py = pixel_at c px py)) in H.
  - apply H.
  - intros s x y i s'. apply set_pixel_f_keeps; assumption.
  - split; [apply same_frame_refl|reflexivity].
Qed.

(** [draw_line_f] keeps the dimensions, the viewport radius and the
    number of pixels, and leaves every pixel outside the circular
    viewport as it was. *)
Theorem draw_line_f_is_clipped (fuel : nat) (c c' : canvas_t)
    (x0 y0 x1 y1 thickness line_intensity : float) :
  draw_line_f fuel c x0 y0 x1 y1 thickness line_intensity = Ok c' ->
  same_frame c c' /\
  forall px py, on_canvas c px py ->
    _canvas_is_pixel_in_circular_viewport c px py = false ->
    pixel_at c' px py = pixel_at c px py.
Proof.
  intros H. split.
  - eapply draw_line_f_frame; eauto.
  - intros px py Hon Hv. eapply draw_line_f_keeps; eauto.
Qed.

End CanvasClipping.

Section RenderClipping.
Import Math3d Canvas Lighting Renderer.
Context {L : Libm}.
Variable indeterminate : float.



End RenderClipping.

(** ** canvas.c: a brush whose counter does not advance *)

Section ThickPoint.
Import Canvas.

Lemma for_float_stalls {St : Type} (body : float -> St -> res St) (t hi : float) (s : St) :
  fle t hi = true -> fadd t F0_5 = t -> body t s = Ok s ->
  forall fuel, for_float fuel t hi body s = OutOfFuel.
Proof.
  intros Hle Hadd Hbody fuel. induction fuel as [|fuel IH]; cbn [for_float]; rewrite Hle.
  - reflexivity.
  - rewrite Hbody. cbn [bind]. rewrite Hadd. exact IH.
Qed.

Lemma for_float_body_stalls {St : Type} (body : float -> St -> res St) (t hi : float)
    (s : St) (fuel : nat) :
  fle t hi = true -> body t s = OutOfFuel -> for_float fuel t hi body s = OutOfFuel.
Proof.
  intros Hle Hbody. destruct fuel as [|fuel]; cbn [for_float]; rewrite Hle; [reflexivity|].
  rewrite Hbody. reflexivity.
Qed.

(** A single point whose half thickness [h] is so large that adding 0.5
    to [-h] gives [-h] again is never finished: the inner loop of the
    brush stays at its first offset, the corner (-h, -h), which lies
    outside the disc, so it draws nothing and does not advance. *)
Theorem thick_point_is_never_finished (c : canvas_t)
    (x0 y0 x1 y1 thickness line_intensity : float) :
  let h := fdiv thickness F2 in
  flt (clamp01 line_intensity) FLT_EPSILON = false ->
  line_steps x0 y0 x1 y1 = Ok 0 ->
  fle (fneg h) h = true ->
  fadd (fneg h) F0_5 = fneg h ->
  in_disc h (fneg h, fneg h) = false ->
  forall fuel, draw_line_f fuel c x0 y0 x1 y1 thickness line_intensity = OutOfFuel.
Proof.
  cbv zeta. intros Hi Hsteps Hle Hadd Hdisc fuel.
  unfold draw_line_f, draw_line_with. rewrite Hi, Hsteps. cbn [bind Z.eqb].
  unfold brush_point. apply for_float_body_stalls; [exact Hle|].
  apply for_float_stalls; [exact Hle | exact Hadd |].
  unfold in_disc in Hdisc. cbn [fst snd] in Hdisc. rewrite Hdisc. reflexivity.
Qed.

End ThickPoint.

(** ** renderer.c: the comparator and the draw calls *)

Section Comparator.
Import Renderer.

(** What [qsort] asks of its comparator.  Exchanging the arguments
    changes the sign of the result, for all depths; on depths that are
    numbers "not after" is transitive; with a NaN depth, which compares
    equal to everything, it is not. *)
Theorem compare_renderable_edges_order :
  (forall a b, compare_renderable_edges a b = - compare_renderable_edges b a) /\
  (forall a b c,
      depth_is_number a -> depth_is_number b -> depth_is_number c ->
      compare_renderable_edges a b <= 0 -> compare_renderable_edges b c <= 0 ->
      compare_renderable_edges a c <= 0) /\
  (exists a b c,
      compare_renderable_edges a b <= 0 /\ compare_renderable_edges b c <= 0 /\
      compare_renderable_edges a c > 0).
Proof.
  split; [|split].
  - intros a b. unfold compare_renderable_edges.
    change (fgt (avg_z a) (avg_z b)) with (flt (avg_z b) (avg_z a)).
    change (fgt (avg_z b) (avg_z a)) with (flt (avg_z a) (avg_z b)).
    destruct (flt (avg_z a) (avg_z b)) eqn:Hab.
    + rewrite (flt_asym _ _ Hab). reflexivity.
    + destruct (flt (avg_z b) (avg_z a)); reflexivity.
  - intros a b c Ha Hb Hc. unfold compare_renderable_edges.
    destruct (flt (avg_z a) (avg_z b)) eqn:Hab; [lia|].
    destruct (flt (avg_z b) (avg_z c)) eqn:Hbc; [lia|]. intros _ _.
    rewrite (not_flt_trans _ _ _ Ha Hb Hc Hab Hbc).
    destruct (fgt (avg_z a) (avg_z c)); lia.
  - pose (pv := mkpv zero_vector 0).
    exists (mkedge pv pv F1 0), (mkedge pv pv S754_nan 1), (mkedge pv pv F2 2).
    vm_compute. repeat split; discriminate.
Qed.

End Comparator.

Section DrawCalls.
Import Math3d Canvas Lighting Renderer.
Context {L : Libm}.
Variable indeterminate : float.

Lemma light_loop_nonneg (n : nat) :
  forall i surface_normal lights total t,
    nonneg total = true ->
    light_loop n i surface_normal lights total = Ok t -> nonneg t = true.
Proof.
  induction n as [|n IH]; intros i sn lights total t Htot; cbn [light_loop].
  - intros H. apply Ok_inj in H. subst. exact Htot.
  - destruct (nth_error lights i) as [l|]; [|discriminate].
    apply IH. destruct (type l =? LIGHT_TYPE_DIRECTIONAL); [|exact Htot].
    apply fadd_nonneg; [exact Htot | apply fmaxf_zero_nonneg].
Qed.

Lemma total_lighting_in01 (surface_normal : vec3_t) (lights : option (list light_t))
    (num_lights : Z) (i : float) :
  calculate_total_lighting_intensity surface_normal lights num_lights = Ok i ->
  in01 i = true.
Proof.
  unfold calculate_total_lighting_intensity.
  destruct lights as [ls|]; [|intros H; apply Ok_inj in H; subst; reflexivity].
  destruct (num_lights <=? 0); [intros H; apply Ok_inj in H; subst; reflexivity|].
  destruct (light_loop _ _ _ _ _) as [t| |] eqn:E; cbn [bind]; try discriminate.
  intros H. apply Ok_inj in H. subst. apply clamp_total_in01.
  eapply light_loop_nonneg; [|exact E]. reflexivity.
Qed.

Lemma qsort_insert_length {A : Type} (cmp : A -> A -> Z) (a : A) (l : list A) :
  List.length (qsort_insert cmp a l) = S (List.length l).
Proof.
  induction l as [|b l IH]; cbn [qsort_insert]; [reflexivity|].
  destruct (cmp a b <=? 0); cbn [List.length]; [reflexivity|]. rewrite IH. reflexivity.
Qed.

Lemma qsort_length {A : Type} (cmp : A -> A -> Z) (l : list A) :
  List.length (qsort cmp l) = List.length l.
Proof.
  unfold qsort. induction l as [|a l IH]; cbn [fold_right List.length]; [reflexivity|].
  rewrite qsort_insert_length, IH. reflexivity.
Qed.

Lemma collect_edges_length (pvs : list projected_vertex_t) (es : list (Z * Z)) :
  forall i, (List.length (collect_edges indeterminate pvs i es) <= List.length es)%nat.
Proof.
  induction es as [|[idx0 idx1] es IH]; intros i; cbn [collect_edges List.length]; [lia|].
  destruct (_ || _); [specialize (IH (i + 1)); lia|].
  destruct (_ || _); cbn [List.length]; specialize (IH (i + 1)); lia.
Qed.

Lemma draw_edges_calls_bound (model : model_t) (model_matrix : mat4_t)
    (lights : option (list light_t)) (num_lights : Z) (line_thickness : float)
    (sorted : list renderable_edge_t) :
  forall log calls,
    draw_edges indeterminate calculate_total_lighting_intensity record_call
               model model_matrix lights num_lights line_thickness sorted log = Ok calls ->
    exists new,
      calls = log ++ new /\ (List.length new <= List.length sorted)%nat /\
      Forall (fun d => call_thickness d = line_thickness /\ in01 (call_intensity d) = true) new.
Proof.
  unfold draw_edges.
  induction sorted as [|edge sorted IH]; intros log calls; cbn [for_each].
  - intros H. apply Ok_inj in H. subst. exists []. rewrite app_nil_r.
    split; [reflexivity|]. split; [reflexivity|constructor].
  - unfold draw_edge at 1.
    destruct (_ && _).
    + destruct (line_intensity _ _ _ _ _ _ _) as [i| |] eqn:Hi; cbn [bind]; try discriminate.
      unfold record_call at 1. cbn [bind]. intros H.
      destruct (IH _ _ H) as (new & Hc & Hl & Hall).
      eexists (_ :: new). split; [rewrite Hc, <- app_assoc; reflexivity|].
      split; [cbn [List.length]; lia|].
      constructor; [|exact Hall]. cbn [call_thickness call_intensity].
      split; [reflexivity|]. unfold line_intensity in Hi.
      destruct lights as [ls|]; [|apply Ok_inj in Hi; subst; reflexivity].
      destruct (0 <? num_lights); [|apply Ok_inj in Hi; subst; reflexivity].
      eapply total_lighting_in01; exact Hi.
    + cbn [bind]. intros H. destruct (IH _ _ H) as (new & Hc & Hl & Hall).
      exists new. split; [exact Hc|]. split; [cbn [List.length]; lia|exact Hall].
Qed.

(** [render_wireframe] calls [draw_line_f] at most once for each edge of
    the model, every time with the thickness it was given and with an
    intensity in [0, 1]. *)
Theorem render_wireframe_call_bounds (screen_width screen_height : Z) (model : model_t)
    (model_matrix view_matrix projection_matrix : mat4_t)
    (lights : option (list light_t)) (num_lights : Z) (line_thickness : float)
    (calls : list draw_call) :
  render_wireframe_calls indeterminate screen_width screen_height model model_matrix
                         view_matrix projection_matrix lights num_lights line_thickness
    = Ok calls ->
  (List.length calls <= List.length (edges model))%nat /\
  Forall (fun d => call_thickness d = line_thickness /\ in01 (call_intensity d) = true) calls.
Proof.
  unfold render_wireframe_calls, render_calls_with.
  destruct (vertices model) as [|v vs];
    [intros H; apply Ok_inj in H; subst; split; [cbn; lia|constructor]|].
  destruct (edges model) as [|e es] eqn:He;
    [intros H; apply Ok_inj in H; subst; split; [cbn; lia|constructor]|].
  intros H. apply draw_edges_calls_bound in H.
  destruct H as (new & Hc & Hl & Hall). cbn [app] in Hc. subst new.
  split; [|exact Hall].
  etransitivity; [exact Hl|]. unfold sorted_edges. rewrite qsort_length.
  unfold edges_to_render. rewrite He. apply collect_edges_length.
Qed.

End DrawCalls.

(** ** obj_loader.c: the text, line by line *)

Section LoaderLines.
Import Math3d Renderer ObjLoader.
Context {L : Libm}.
Variable sscanf_v : string -> option (float * float * float).
Variable sscanf_d : string -> option Z.

Lemma append_assoc (a b c : string) :
  String.append (String.append a b) c = String.append a (String.append b c).
Proof. induction a as [|x a IH]; simpl; [reflexivity|]. rewrite IH. reflexivity. Qed.

Lemma append_length (a b : string) :
  String.length (String.append a b) = (String.length a + String.length b)%nat.
Proof. induction a as [|x a IH]; simpl; [reflexivity|]. rewrite IH. reflexivity. Qed.

Lemma split_newline_line (l s : string) :
  has_char newline l = false ->
  split_newline (String.append l (String newline s)) = (l, Some s).
Proof.
  induction l as [|c l IH]; cbn [String.append split_newline has_char].
  - intros _. rewrite Ascii.eqb_refl. reflexivity.
  - intros H. apply orb_false_elim in H. destruct H as [Hc Hl].
    rewrite Hc, (IH Hl). reflexivity.
Qed.

Lemma split_newline_last (l : string) :
  has_char newline l = false -> split_newline l = (l, None).
Proof.
  induction l as [|c l IH]; cbn [split_newline has_char]; [reflexivity|].
  intros H. apply orb_false_elim in H. destruct H as [Hc Hl].
  rewrite Hc, (IH Hl). reflexivity.
Qed.

Lemma take_all (n : nat) (s : string) : (String.length s <= n)%nat -> take n s = s.
Proof.
  revert n. induction s as [|c s IH]; intros [|n] H; simpl in *; try reflexivity; try lia.
  rewrite IH by lia. reflexivity.
Qed.

Lemma take_length (n : nat) (s : string) :
  (n <= String.length s)%nat -> String.length (take n s) = n.
Proof.
  revert n. induction s as [|c s IH]; intros [|n] H; simpl in *; try reflexivity; try lia.
  rewrite IH by lia. reflexivity.
Qed.

(** A line that ends with a newline is read from its first 255
    characters, and the loop goes on after the newline. *)
Lemma parse_lines_line (l s : string) (st : loader) :
  has_char newline l = false ->
  parse_lines sscanf_v sscanf_d (String.append l (String newline s)) st =
  parse_lines sscanf_v sscanf_d s
    (process_line sscanf_v sscanf_d (trim_cr (take 255 l)) st).
Proof.
  intros Hl.
  assert (Hn : next_line (String.append l (String newline s)) = (take 255 l, s)).
  { unfold next_line. rewrite (split_newline_line l s Hl). reflexivity. }
  destruct (String.append l (String newline s)) as [|a s0] eqn:E.
  - destruct l; discriminate.
  - simp parse_lines. rewrite Hn. reflexivity.
Qed.

Lemma terminated_split (s : string) :
  s <> EmptyString -> terminated s = true ->
  exists l r, s = String.append l (String newline r) /\
              has_char newline l = false /\ terminated r = true.
Proof.
  induction s as [|c s IH]; [congruence|]. intros _ Ht.
  destruct (Ascii.eqb c newline) eqn:Hc.
  - apply Ascii.eqb_eq in Hc. subst c. exists EmptyString, s.
    split; [reflexivity|]. split; [reflexivity|].
    destruct s; [reflexivity|exact Ht].
  - destruct s as [|c' s'].
    + cbn [terminated] in Ht. congruence.
    + destruct IH as (l & r & E & Hl & Hr); [discriminate | exact Ht |].
      exists (String c l), r. split; [cbn [String.append]; rewrite <- E; reflexivity|].
      split; [cbn [has_char]; rewrite Hc; exact Hl | exact Hr].
Qed.

Lemma parse_lines_app_length (n : nat) :
  forall s1 s2 st,
    (String.length s1 <= n)%nat -> terminated s1 = true ->
    parse_lines sscanf_v sscanf_d (String.append s1 s2) st =
    parse_lines sscanf_v sscanf_d s2 (parse_lines sscanf_v sscanf_d s1 st).
Proof.
  induction n as [|n IH]; intros s1 s2 st Hlen Ht.
  - destruct s1; [|simpl in Hlen; lia]. simp parse_lines. reflexivity.
  - destruct s1 as [|c s1'] eqn:E; [simp parse_lines; reflexivity|].
    destruct (terminated_split (String c s1')) as (l & r & Es & Hl & Hr);
      [discriminate | exact Ht |].
    rewrite Es, append_assoc. cbn [String.append].
    rewrite !parse_lines_line by exact Hl.
    apply IH; [|exact Hr].
    assert (Hlen' : String.length (String c s1') =
                    (String.length l + S (String.length r))%nat)
      by (rewrite Es, append_length; reflexivity).
    lia.
Qed.

(** The loader reads a text one line after the other: after a text that
    ends with a newline, the text that follows is read from the state the
    first has left. *)
Theorem parse_lines_app (s1 s2 : string) (st : loader) :
  terminated s1 = true ->
  parse_lines sscanf_v sscanf_d (String.append s1 s2) st =
  parse_lines sscanf_v sscanf_d s2 (parse_lines sscanf_v sscanf_d s1 st).
Proof. apply (parse_lines_app_length (String.length s1)). lia. Qed.

Lemma prefix_take (p s : string) (n : nat) :
  String.prefix p (take n s) = true -> String.prefix p s = true.
Proof.
  revert s n. induction p as [|a p IH]; intros s n; [destruct s; reflexivity|].
  destruct s as [|c s]; destruct n as [|n]; cbn [take String.prefix]; try discriminate.
  destruct (ascii_dec a c); [apply IH|discriminate].
Qed.

Lemma prefix_trim_cr (p s : string) :
  String.prefix p (trim_cr s) = true -> String.prefix p s = true.
Proof.
  revert s. induction p as [|a p IH]; intros s; [destruct s; reflexivity|].
  destruct s as [|c s]; [discriminate|].
  destruct s as [|c' s'].
  - cbn [trim_cr]. destruct (Ascii.eqb c carriage_return); [discriminate|auto].
  - change (trim_cr (String c (String c' s'))) with (String c (trim_cr (String c' s'))).
    cbn [String.prefix]. destruct (ascii_dec a c); [apply IH|discriminate].
Qed.

(** A line that is neither a vertex nor a face record -- a comment, a
    normal, a group -- changes nothing of what is loaded. *)
Theorem other_lines_are_ignored (s1 c s2 : string) :
  terminated s1 = true -> has_char newline c = false ->
  String.prefix "v "%string c = false -> String.prefix "f "%string c = false ->
  obj_load_from_string sscanf_v sscanf_d
    (String.append s1 (String.append c (String newline s2))) =
  obj_load_from_string sscanf_v sscanf_d (String.append s1 s2).
Proof.
  intros Ht Hc Hv Hf. unfold obj_load_from_string.
  rewrite (parse_lines_app_length _ s1 (String.append c (String newline s2)) _ (le_n _) Ht).
  rewrite (parse_lines_app_length _ s1 s2 _ (le_n _) Ht).
  rewrite parse_lines_line by exact Hc.
  assert (Hp : forall st, process_line sscanf_v sscanf_d (trim_cr (take 255 c)) st = st).
  { intros st. unfold process_line.
    destruct (String.prefix "v " (trim_cr (take 255 c))) eqn:Ev.
    - apply prefix_trim_cr, prefix_take in Ev. congruence.
    - destruct (String.prefix "f " (trim_cr (take 255 c))) eqn:Ef; [|reflexivity].
      apply prefix_trim_cr, prefix_take in Ef. congruence. }
  rewrite Hp. reflexivity.
Qed.

Lemma trim_cr_append_cr (l : string) : trim_cr (String.append l (String carriage_return EmptyString)) = l.
Proof.
  induction l as [|c l IH]; [reflexivity|].
  cbn [String.append]. destruct (String.append l (String carriage_return EmptyString)) as [|c' r] eqn:E.
  - destruct l; discriminate.
  - change (trim_cr (String c (String c' r))) with (String c (trim_cr (String c' r))).
    rewrite IH. reflexivity.
Qed.

Lemma trim_cr_no_cr (l : string) : has_char carriage_return l = false -> trim_cr l = l.
Proof.
  induction l as [|c l IH]; [reflexivity|]. cbn [has_char]. intros H.
  apply orb_false_elim in H. destruct H as [Hc Hl].
  destruct l as [|c' l']; [cbn [trim_cr]; rewrite Hc; reflexivity|].
  change (trim_cr (String c (String c' l'))) with (String c (trim_cr (String c' l'))).
  rewrite (IH Hl). reflexivity.
Qed.

Lemma has_char_append (c : ascii) (a b : string) :
  has_char c (String.append a b) = has_char c a || has_char c b.
Proof.
  induction a as [|x a IH]; [reflexivity|]. cbn [String.append has_char].
  rewrite IH, orb_assoc. reflexivity.
Qed.

(** A line that ends with carriage return and newline is read like the
    line that ends with the newline alone, when it is short enough for
    the carriage return to be in the buffer. *)
Theorem crlf_is_lf (l s : string) (st : loader) :
  has_char newline l = false -> has_char carriage_return l = false ->
  (String.length l <= 254)%nat ->
  parse_lines sscanf_v sscanf_d
    (String.append l (String carriage_return (String newline s))) st =
  parse_lines sscanf_v sscanf_d (String.append l (String newline s)) st.
Proof.
  intros Hn Hc Hlen.
  change (String carriage_return (String newline s))
    with (String.append (String carriage_return EmptyString) (String newline s)).
  rewrite <- append_assoc.
  rewrite !parse_lines_line; [|exact Hn|rewrite has_char_append, Hn; reflexivity].
  rewrite !take_all by (rewrite ?append_length; simpl; lia).
  rewrite trim_cr_append_cr, (trim_cr_no_cr l Hc). reflexivity.
Qed.

(** A record is read from the first 255 characters of its line.  What
    follows them is dropped when the line ends with a newline, but when
    the text ends without one, what follows is read as a line of its
    own. *)
Theorem long_lines_are_cut (l s : string) (st : loader) :
  has_char newline l = false ->
  parse_lines sscanf_v sscanf_d (String.append l (String newline s)) st =
    parse_lines sscanf_v sscanf_d s
      (process_line sscanf_v sscanf_d (trim_cr (take 255 l)) st) /\
  ((255 < String.length l)%nat ->
   parse_lines sscanf_v sscanf_d l st =
     parse_lines sscanf_v sscanf_d (drop 255 l)
       (process_line sscanf_v sscanf_d (trim_cr (take 255 l)) st)).
Proof.
  intros Hl. split; [apply parse_lines_line, Hl|]. intros Hlen.
  destruct l as [|a l0] eqn:E; [simpl in Hlen; lia|].
  simp parse_lines. rewrite <- E in *.
  unfold next_line. rewrite (split_newline_last l Hl). cbn [fst snd].
  change (MAX_LINE_LENGTH - 1)%nat with 255%nat.
  rewrite take_length by lia. reflexivity.
Qed.

Lemma process_line_vertices (line : string) (st : loader) :
  vertices_da (process_line sscanf_v sscanf_d line st) =
  vertices_da st ++ vertex_of_line sscanf_v line.
Proof.
  unfold process_line, vertex_of_line.
  destruct (String.prefix "v " line).
  - destruct (sscanf_v line) as [[[vx vy] vz]|]; [reflexivity|].
    rewrite app_nil_r. reflexivity.
  - rewrite app_nil_r. destruct (String.prefix "f " line); [|reflexivity].
    destruct (add_face_spec (parse_face_indices sscanf_d (drop 2 line) []) line st)
      as (H1 & _). exact H1.
Qed.

Lemma fold_vertices (ls : list string) (st : loader) :
  vertices_da (fold_left (fun st' line => process_line sscanf_v sscanf_d line st') ls st) =
  vertices_da st ++ flat_map (vertex_of_line sscanf_v) ls.
Proof.
  revert st. induction ls as [|line ls IH]; intros st; cbn [fold_left flat_map].
  - rewrite app_nil_r. reflexivity.
  - rewrite IH, process_line_vertices, <- app_assoc. reflexivity.
Qed.

(** The vertices of the model are those of the vertex records whose
    coordinates convert, in the order of the text; the loader returns NULL
    exactly when there is none, whatever faces the text holds. *)
Theorem loaded_vertices (text : string) :
  let vs := flat_map (vertex_of_line sscanf_v) (lines_of text) in
  match fst (obj_load_from_string sscanf_v sscanf_d text) with
  | Some model => vs <> [] /\ vertices model = vs
  | None => vs = []
  end.
Proof.
  cbv zeta. unfold obj_load_from_string.
  pose proof (fold_vertices (lines_of text) initial_loader) as H.
  rewrite <- parse_lines_fold in H. cbn [initial_loader vertices_da app] in H.
  rewrite <- H.
  destruct (vertices_da (parse_lines sscanf_v sscanf_d text initial_loader)) as [|v vs] eqn:E;
    cbn [fst]; [reflexivity|].
  cbn [vertices]. split; [discriminate|reflexivity].
Qed.

End LoaderLines.

(** ** renderer.c: models that draw nothing, and the soccer ball *)

Section BehindEye.
Import Math3d Canvas Lighting Renderer.
Context {L : Libm}.
Variable indeterminate : float.

Lemma collect_edges_all_behind (pvs : list projected_vertex_t) (es : list (Z * Z)) :
  Forall (fun pv => is_clipped pv = 1) pvs ->
  forall i, collect_edges indeterminate pvs i es = [].
Proof.
  intros Hall. induction es as [|[idx0 idx1] es IH]; intros i; cbn [collect_edges];
    [reflexivity|].
  destruct (_ || _) eqn:Hidx; [apply IH|].
  apply orb_false_elim in Hidx. destruct Hidx as [Hidx _].
  apply orb_false_elim in Hidx. destruct Hidx as [Hidx _].
  apply orb_false_elim in Hidx. destruct Hidx as [H0 H1].
  assert (Hin : In (nth (Z.to_nat idx0) pvs (unset_vertex indeterminate)) pvs).
  { apply nth_In. destruct (Z.ltb_spec idx0 0); [discriminate|].
    destruct (Z.geb_spec idx0 (Z.of_nat (List.length pvs))); [discriminate|]. lia. }
  rewrite Forall_forall in Hall. rewrite (Hall _ Hin). cbn [Z.eqb orb]. apply IH.
Qed.

(** A model all of whose vertices are behind the eye draws nothing:
    [render_wireframe] sets the viewport radius and leaves every pixel as
    it was. *)
Theorem model_behind_eye_draws_nothing (fuel : nat) (canvas : canvas_t) (model : model_t)
    (model_matrix view_matrix projection_matrix : mat4_t)
    (lights : option (list light_t)) (num_lights : Z)
    (viewport_radius_param line_thickness : float) :
  (forall v, In v (vertices model) ->
     is_clipped (project_vertex indeterminate v model_matrix view_matrix projection_matrix
                                (width canvas) (height canvas)) = 1) ->
  render_wireframe indeterminate fuel canvas model model_matrix view_matrix
                   projection_matrix lights num_lights viewport_radius_param line_thickness =
  Ok match vertices model, edges model with
     | [], _ | _, [] => canvas
     | _, _ => canvas_set_circular_viewport canvas viewport_radius_param
     end.
Proof.
  intros Hall. unfold render_wireframe.
  destruct (vertices model) as [|v vs] eqn:Hv; [reflexivity|].
  destruct (edges model) as [|e es] eqn:He; [reflexivity|].
  unfold sorted_edges, edges_to_render. rewrite collect_edges_all_behind; [reflexivity|].
  unfold project_all. rewrite Hv. apply Forall_forall. intros pv Hin.
  apply in_map_iff in Hin. destruct Hin as (v' & <- & Hin). apply Hall, Hin.
Qed.

End BehindEye.

Section SoccerBallModel.
Import Math3d Renderer ObjLoader SoccerBall.
Context {L : Libm}.

(** Whatever the conversions of [sscanf] give, [generate_soccer_ball]
    returns a model with at least one vertex all of whose edges join
    vertices of the model: the loaded one, or the cube when the text
    yields no vertex. *)
Theorem generate_soccer_ball_is_a_model
    (sscanf_v : string -> option (float * float * float)) (sscanf_d : string -> option Z) :
  let model := generate_soccer_ball sscanf_v sscanf_d in
  vertices model <> [] /\
  Forall (fun e => 0 <= fst e < num_vertices model /\ 0 <= snd e < num_vertices model)
         (edges model).
Proof.
  cbv zeta. unfold generate_soccer_ball, obj_load_from_string.
  generalize ObjText.soccer_ball_text. intros text.
  pose proof (parse_lines_in_range sscanf_v sscanf_d text
                initial_loader (Forall_nil _)) as Hok.
  destruct (vertices_da (parse_lines sscanf_v sscanf_d text initial_loader))
    as [|v vs] eqn:Hv; cbn [fst].
  - split; [discriminate|].
    unfold cube_model, num_vertices. cbn [vertices edges List.length].
    repeat constructor; cbn [fst snd]; lia.
  - unfold num_vertices. cbn [vertices edges]. split; [discriminate|].
    unfold edges_in_range in Hok. rewrite Hv in Hok.
    eapply Forall_impl; [|exact Hok]. intros e He. unfold edge_in_range in He.
    destruct (Z.leb_spec 0 (fst e)), (Z.ltb_spec (fst e) (Z.of_nat (List.length (v :: vs)))),
             (Z.leb_spec 0 (snd e)), (Z.ltb_spec (snd e) (Z.of_nat (List.length (v :: vs))));
      try discriminate. lia.
Qed.

End SoccerBallModel.


(** ** canvas.c: a point without thickness *)

Section ThinPoint.
Import Canvas.

Lemma fadd_minus_zero (a : float) : fadd a (S754_zero true) = a.
Proof. destruct a as [[|]|[|]| |s m e]; reflexivity. Qed.

Lemma clamp01_idempotent (a : float) : clamp01 (clamp01 a) = clamp01 a.
Proof.
  assert (H : clamp01 a = F1 \/ clamp01 a = F0 \/ clamp01 a = a).
  { unfold clamp01, fminf, fmaxf. change (is_nan F1) with false.
    change (is_nan F0) with false. cbv iota.
    destruct (is_nan a) eqn:Hn; [left; reflexivity|].
    destruct (flt a F1); [|left; reflexivity].
    rewrite Hn. destruct (flt F0 a); auto. }
  destruct H as [H|[H|H]]; rewrite H; try reflexivity. exact H.
Qed.

(** A segment that stays within one pixel step, drawn with thickness 0,
    is one call of [set_pixel_f] at its start. *)
Theorem point_without_thickness (fuel : nat) (c : canvas_t)
    (x0 y0 x1 y1 line_intensity : float) :
  flt (clamp01 line_intensity) FLT_EPSILON = false ->
  line_steps x0 y0 x1 y1 = Ok 0 ->
  (1 <= fuel)%nat ->
  draw_line_f fuel c x0 y0 x1 y1 F0 line_intensity = set_pixel_f c x0 y0 line_intensity.
Proof.
  intros Hi Hsteps Hfuel. unfold draw_line_f, draw_line_with.
  rewrite Hi, Hsteps. cbn [bind Z.eqb].
  change (fdiv F0 F2) with F0. unfold brush_point.
  change (fneg F0) with (S754_zero true).
  assert (Hinner : forall s,
             for_float fuel (S754_zero true) F0
               (fun tx s2 =>
                  if fle (fadd (fmul tx tx) (fmul (S754_zero true) (S754_zero true)))
                         (fmul F0 F0)
                  then set_pixel_f s2 (fadd x0 tx) (fadd y0 (S754_zero true))
                                   (clamp01 line_intensity)
                  else Ok s2) s =
             set_pixel_f s x0 y0 line_intensity).
  { intros s. destruct fuel as [|fuel']; [lia|]. cbn [for_float].
    change (fle (S754_zero true) F0) with true. cbv iota.
    change (fle (fadd (fmul (S754_zero true) (S754_zero true))
                      (fmul (S754_zero true) (S754_zero true))) (fmul F0 F0)) with true.
    cbv iota. rewrite !fadd_minus_zero.
    assert (Hclamp : set_pixel_f s x0 y0 (clamp01 line_intensity) =
                     set_pixel_f s x0 y0 line_intensity)
      by (unfold set_pixel_f; rewrite clamp01_idempotent; reflexivity).
    rewrite Hclamp.
    destruct (set_pixel_f s x0 y0 line_intensity) as [s'| |]; cbn [bind]; try reflexivity.
    change (fadd (S754_zero true) F0_5) with F0_5.
    destruct fuel'; cbn [for_float]; change (fle F0_5 F0) with false; reflexivity. }
  destruct fuel as [|fuel'] eqn:Ef; [lia|]. rewrite <- Ef in *.
  rewrite Ef at 1. cbn [for_float].
  change (fle (S754_zero true) F0) with true. cbv iota.
  rewrite Hinner.
  destruct (set_pixel_f c x0 y0 line_intensity) as [s'| |]; cbn [bind]; try reflexivity.
  change (fadd (S754_zero true) F0_5) with F0_5.
  destruct fuel'; cbn [for_float]; change (fle F0_5 F0) with false; reflexivity.
Qed.

End ThinPoint.

(** ** canvas.c: a sample at the centre of a pixel *)

Section SmallIntegers.

Lemma digits2_pos_size (p : positive) : digits2_pos p = Pos.size p.
Proof. induction p as [p IH|p IH|]; simpl; congruence. Qed.

Lemma digits2_pos_small (p : positive) : Zpos p < 2 ^ 24 -> Zpos (digits2_pos p) <= 24.
Proof.
  intros Hp. rewrite digits2_pos_size.
  destruct (Z.le_gt_cases (Zpos (Pos.size p)) 24) as [H|H]; [exact H|exfalso].
  pose proof (Pos.size_le p) as Hs.
  assert (H2 : 2 ^ 25 <= Zpos (2 ^ Pos.size p)).
  { rewrite Pos2Z.inj_pow. apply Z.pow_le_mono_r; lia. }
  assert (H3 : Zpos (2 ^ Pos.size p) <= Zpos p~0) by (apply Pos2Z.pos_le_pos, Hs).
  lia.
Qed.

Lemma iter_xO_value (p k : positive) : Zpos (Pos.iter xO p k) = Zpos p * 2 ^ Zpos k.
Proof.
  induction k as [|k IH] using Pos.peano_ind.
  - cbn [Pos.iter]. lia.
  - rewrite Pos.iter_succ, Pos2Z.inj_xO, IH, Pos2Z.inj_succ, Z.pow_succ_r by lia. lia.
Qed.

Lemma iter_xO_digits (p k : positive) :
  Zpos (digits2_pos (Pos.iter xO p k)) = Zpos (digits2_pos p) + Zpos k.
Proof.
  induction k as [|k IH] using Pos.peano_ind.
  - cbn [Pos.iter digits2_pos]. lia.
  - rewrite Pos.iter_succ. cbn [digits2_pos]. lia.
Qed.

(** Rounding a canonical mantissa changes nothing. *)
Lemma round_exact_canonical (s : bool) (m : positive) (e : Z) :
  bounded prec emax m e = true ->
  binary_round_aux prec emax s (Zpos m) e loc_Exact = S754_finite s m e.
Proof.
  unfold bounded, canonical_mantissa. intros H.
  apply andb_prop in H. destruct H as [Hc Hb]. apply Z.eqb_eq in Hc.
  unfold binary_round_aux. rewrite (shr_fexp_canonical m e Hc).
  cbn [shr_m loc_of_shr_record round_nearest_even].
  rewrite (shr_fexp_canonical m e Hc). cbn [shr_m]. rewrite Hb. reflexivity.
Qed.

(** A positive integer below 2^24 converts exactly. *)
Lemma of_int_small (p : positive) :
  Zpos p < 2 ^ 24 ->
  exists mz ez, of_int (Zpos p) = S754_finite false mz ez /\
                -23 <= ez <= 0 /\ Zpos mz = Zpos p * 2 ^ (- ez).
Proof.
  intros Hp. pose proof (digits2_pos_small p Hp) as Hd.
  unfold of_int, binary_normalize, binary_round.
  assert (Hf : fexp prec emax (Zpos (digits2_pos p) + 0) = Zpos (digits2_pos p) - 24)
    by (unfold fexp, emin, prec, emax; lia).
  rewrite Hf. unfold shl_align.
  assert (Hround : forall mz ez,
             Zpos (digits2_pos mz) = 24 -> -23 <= ez <= 0 ->
             binary_round_aux prec emax false (Zpos mz) ez loc_Exact = S754_finite false mz ez).
  { intros mz ez Hm He. apply round_exact_canonical.
    unfold bounded, canonical_mantissa. rewrite Hm.
    unfold fexp, emin, prec, emax. apply andb_true_intro. split.
    - apply Z.eqb_eq. lia.
    - apply Z.leb_le. lia. }
  destruct (Zpos (digits2_pos p) - 24 - 0) as [|k|k] eqn:Ek; try lia.
  - exists p, 0. rewrite Hround by lia. split; [reflexivity|]. split; [lia|].
    change (2 ^ (- 0)) with 1. lia.
  - exists (Pos.iter xO p k), (Zpos (digits2_pos p) - 24).
    rewrite Hround; [|rewrite iter_xO_digits; lia|lia].
    split; [reflexivity|]. split; [lia|]. rewrite iter_xO_value.
    replace (- (Zpos (digits2_pos p) - 24)) with (Zpos k) by lia. reflexivity.
Qed.

End SmallIntegers.

Section PixelCentre.
Import Canvas.

Lemma of_int_round_trip (n : Z) :
  0 <= n < 2 ^ 24 ->
  to_int (floorf (of_int n)) = Ok n /\ is_finite (of_int n) = true.
Proof.
  intros Hn. destruct n as [|p|p]; [split; reflexivity| |lia].
  destruct (of_int_small p) as (mz & ez & E & He & Hm); [lia|].
  assert (Hint : to_int (S754_finite false mz ez) = Ok (Zpos p)).
  { unfold to_int. cbn [cond_Zopp].
    assert (Hv : (if 0 <=? ez then Zpos mz * 2 ^ ez else Z.shiftr (Zpos mz) (- ez)) = Zpos p).
    { destruct (Z.leb_spec 0 ez) as [H0|H0].
      - assert (ez = 0) by lia. subst ez. change (2 ^ (- 0)) with 1 in Hm.
        change (2 ^ 0) with 1. lia.
      - rewrite Z.shiftr_div_pow2 by lia. rewrite Hm. apply Z.div_mul.
        apply Z.pow_nonzero; lia. }
    rewrite Hv. unfold INT_MIN, INT_MAX.
    assert (H1 : (- 2 ^ 31 <=? Zpos p) = true) by (apply Z.leb_le; lia).
    assert (H2 : (Zpos p <=? 2 ^ 31 - 1) = true) by (apply Z.leb_le; lia).
    rewrite H1, H2. reflexivity. }
  rewrite E. split; [|reflexivity].
  unfold floorf. destruct (Z.leb_spec 0 ez) as [H0|H0]; [exact Hint|].
  cbn [cond_Zopp].
  assert (Hs : Z.shiftr (Zpos mz) (- ez) = Zpos p).
  { rewrite Z.shiftr_div_pow2 by lia. rewrite Hm. apply Z.div_mul.
    apply Z.pow_nonzero; lia. }
  rewrite Hs. cbn [Z.eqb]. rewrite E. exact Hint.
Qed.

Lemma in01_finite (a : float) : in01 a = true -> is_finite a = true.
Proof.
  unfold in01. intros H. apply andb_prop in H. destruct H as [H0 H1].
  destruct a as [s|[|]| |s m e]; try reflexivity; discriminate.
Qed.

Lemma clamp01_valid (a : float) :
  valid_binary prec emax a = true -> valid_binary prec emax (clamp01 a) = true.
Proof.
  intros Ha.
  assert (H : clamp01 a = F1 \/ clamp01 a = F0 \/ clamp01 a = a).
  { unfold clamp01, fminf, fmaxf. change (is_nan F1) with false.
    change (is_nan F0) with false. cbv iota.
    destruct (is_nan a) eqn:Hn; [left; reflexivity|].
    destruct (flt a F1); [|left; reflexivity].
    rewrite Hn. destruct (flt F0 a); auto. }
  destruct H as [H|[H|H]]; rewrite H; try reflexivity. exact Ha.
Qed.

(** A stored intensity in [0, 1] is not changed, as a number, by adding
    a zero and clamping. *)
Lemma clamp01_of_stored (p z : float) :
  in01 p = true -> is_zero z = true -> same_number (clamp01 (fadd p z)) p.
Proof.
  intros Hp Hz. destruct z as [sz| | |]; try discriminate.
  destruct p as [sp|sp| |sp m e].
  - right. split; [|reflexivity]. destruct sp, sz; reflexivity.
  - destruct sp; discriminate.
  - discriminate.
  - left. change (fadd (S754_finite sp m e) (S754_zero sz)) with (S754_finite sp m e).
    unfold in01 in Hp. apply andb_prop in Hp. destruct Hp as [H0 H1].
    assert (Hpos : flt F0 (S754_finite sp m e) = true) by (destruct sp; [discriminate|reflexivity]).
    unfold clamp01, fminf, fmaxf. change (is_nan F1) with false.
    change (is_nan F0) with false. change (is_nan (S754_finite sp m e)) with false. cbv iota.
    destruct (flt (S754_finite sp m e) F1) eqn:Hlt.
    + change (is_nan (S754_finite sp m e)) with false. cbv iota. rewrite Hpos. reflexivity.
    + change (is_nan F1) with false. cbv iota. change (flt F0 F1) with true. cbv iota.
      unfold fle, flt, SFleb, SFltb in *.
      destruct sp; [discriminate|]. unfold F1 in *. cbn [SFcompare] in *.
      destruct (Z.compare_spec e (-23)) as [He|He|He]; try discriminate.
      subst e. rewrite Pos.compare_cont_spec in *. cbn [Pos.switch_Eq] in *.
      destruct (Pos.compare_spec m 8388608) as [Hm|Hm|Hm]; try discriminate.
      subst m. reflexivity.
Qed.

Lemma same_number_in01 (a b : float) : same_number a b -> in01 a = true -> in01 b = true.
Proof.
  intros [->|[Ha Hb]]; [auto|]. intros _. destruct b; try discriminate. reflexivity.
Qed.

Lemma pixel_in01 (c : canvas_t) (qx qy : Z) : pixels_in_range c -> in01 (pixel_at c qx qy) = true.
Proof.
  intros Hc. unfold pixel_at.
  destruct (nth_in_or_default (Z.to_nat (qy * width c + qx)) (pixels c) F0) as [Hin|Hd].
  - unfold pixels_in_range in Hc. rewrite Forall_forall in Hc. apply Hc, Hin.
  - rewrite Hd. reflexivity.
Qed.

Lemma nth_set_nth_same {A : Type} (l : list A) (i : nat) (v d : A) :
  (i < List.length l)%nat -> nth i (set_nth l i v) d = v.
Proof.
  revert i. induction l as [|h l IH]; intros [|i] Hi; simpl in *; try lia; auto.
  apply IH. lia.
Qed.

Lemma nth_set_nth_cases {A : Type} (l : list A) (i k : nat) (v d : A) :
  nth k (set_nth l i v) d = v \/ nth k (set_nth l i v) d = nth k l d.
Proof.
  revert i k. induction l as [|h l IH]; intros [|i] [|k]; simpl; auto.
Qed.

(** A cell of weight zero changes no stored intensity as a number. *)
Lemma splat_cell_zero_weight (x_int y_int : Z) (intensity : float) (c : canvas_t)
    (ij : Z * Z) :
  In ij [(1, 0); (0, 1); (1, 1)] ->
  is_finite intensity = true -> pixels_in_range c ->
  forall qx qy,
    same_number (pixel_at (splat_cell x_int y_int F0 F0 intensity c ij) qx qy)
                (pixel_at c qx qy).
Proof.
  intros Hij Hi Hc qx qy.
  assert (Hw : forall old, in01 old = true ->
             same_number
               (clamp01 (fadd old (fmul intensity
                   (fmul (if fst ij =? 0 then fsub F1 F0 else F0)
                         (if snd ij =? 0 then fsub F1 F0 else F0))))) old).
  { intros old Hold. apply clamp01_of_stored; [exact Hold|].
    apply is_zero_fmul_r; [exact Hi|].
    cbn [In] in Hij. destruct Hij as [<-|[<-|[<-|[]]]]; reflexivity. }
  destruct ij as [i j]. cbn [fst snd] in Hw. unfold splat_cell.
  destruct (_ && _); [|apply same_number_refl].
  destruct (negb _); [apply same_number_refl|].
  unfold pixel_at, with_pixels. cbn [width pixels].
  match goal with
  | |- same_number (nth ?k (set_nth ?l ?idx ?v) ?d) _ =>
      destruct (Nat.eq_dec k idx) as [Ek|Ek];
      [ rewrite Ek; destruct (nth_set_nth_cases l idx idx v d) as [E|E]; rewrite E;
        [ apply Hw; fold (pixel_at c (x_int + i) (y_int + j))
        | apply same_number_refl ]
      | rewrite nth_set_nth_other by exact Ek; apply same_number_refl ]
  end.
  unfold pixel_at. destruct (nth_in_or_default (Z.to_nat ((y_int + j) * width c + (x_int + i)))
                               (pixels c) F0) as [Hin|Hd].
  - unfold pixels_in_range in Hc. rewrite Forall_forall in Hc. apply Hc, Hin.
  - rewrite Hd. reflexivity.
Qed.

(** At the centre of a pixel the whole intensity goes to that pixel:
    [set_pixel_f] at integer coordinates adds the clamped intensity to the
    pixel and clamps the sum, and leaves every other stored intensity the
    number it was. *)
Theorem set_pixel_f_at_pixel_centre (c : canvas_t) (px py : Z) (intensity : float) :
  on_canvas c px py -> px < 2 ^ 24 -> py < 2 ^ 24 ->
  Z.of_nat (List.length (pixels c)) = width c * height c ->
  pixels_in_range c ->
  _canvas_is_pixel_in_circular_viewport c px py = true ->
  valid_binary prec emax intensity = true ->
  exists c',
    set_pixel_f c (of_int px) (of_int py) intensity = Ok c' /\
    pixel_at c' px py = clamp01 (fadd (pixel_at c px py) (clamp01 intensity)) /\
    forall qx qy, on_canvas c qx qy -> (qx, qy) <> (px, py) ->
      same_number (pixel_at c' qx qy) (pixel_at c qx qy).
Proof.
  intros (Hpx & Hpy) Hxs Hys Hlen Hc Hv Hi.
  destruct (of_int_round_trip px) as [Ex Fx]; [lia|].
  destruct (of_int_round_trip py) as [Ey Fy]; [lia|].
  unfold set_pixel_f. rewrite Ex, Ey. cbn [bind].
  rewrite (fsub_diag _ Fx), (fsub_diag _ Fy).
  eexists. split; [reflexivity|].
  set (I := clamp01 intensity).
  assert (HI : is_finite I = true) by (apply in01_finite, clamp01_in01).
  unfold neighbourhood. cbn [fold_left].
  set (c1 := splat_cell px py F0 F0 I c (0, 0)).
  set (c2 := splat_cell px py F0 F0 I c1 (1, 0)).
  set (c3 := splat_cell px py F0 F0 I c2 (0, 1)).
  set (c4 := splat_cell px py F0 F0 I c3 (1, 1)).
  assert (R1 : pixels_in_range c1) by (apply splat_cell_in_range, Hc).
  assert (R2 : pixels_in_range c2) by (apply splat_cell_in_range, R1).
  assert (R3 : pixels_in_range c3) by (apply splat_cell_in_range, R2).
  destruct (splat_cell_effect px py F0 F0 I c (0, 0)) as [F1' K1]. cbv zeta in F1', K1.
  destruct (splat_cell_effect px py F0 F0 I c1 (1, 0)) as [F2' K2]. cbv zeta in F2', K2.
  destruct (splat_cell_effect px py F0 F0 I c2 (0, 1)) as [F3' K3]. cbv zeta in F3', K3.
  destruct (splat_cell_effect px py F0 F0 I c3 (1, 1)) as [F4' K4]. cbv zeta in F4', K4.
  fold c1 in F1', K1, F2', K2. fold c2 in F2', K2, F3', K3. fold c3 in F3', K3, F4', K4.
  fold c4 in F4', K4.
  assert (On1 : forall qx qy, on_canvas c qx qy -> on_canvas c1 qx qy).
  { intros qx qy Hq. destruct F1' as (A & B & _). unfold on_canvas. rewrite A, B. exact Hq. }
  assert (On2 : forall qx qy, on_canvas c qx qy -> on_canvas c2 qx qy).
  { intros qx qy Hq. apply On1 in Hq. destruct F2' as (A & B & _).
    unfold on_canvas. rewrite A, B. exact Hq. }
  assert (On3 : forall qx qy, on_canvas c qx qy -> on_canvas c3 qx qy).
  { intros qx qy Hq. apply On2 in Hq. destruct F3' as (A & B & _).
    unfold on_canvas. rewrite A, B. exact Hq. }
  split.
  - rewrite K4, K3, K2; try (left; intros H; injection H; cbn [fst snd]; lia);
      try (first [apply On3 | apply On2 | apply On1]; split; assumption).
    unfold c1, splat_cell. rewrite !Z.add_0_r.
    assert (Hb : (0 <=? px) && (px <? width c) && (0 <=? py) && (py <? height c) = true).
    { repeat (apply andb_true_intro; split);
        first [apply Z.leb_le; lia | apply Z.ltb_lt; lia]. }
    rewrite Hb, Hv. cbn [negb Z.eqb].
    change (fmul (fsub F1 F0) (fsub F1 F0)) with F1.
    rewrite (fmul_one_r I) by (apply clamp01_valid, Hi).
    unfold pixel_at at 1, with_pixels. cbn [width pixels].
    rewrite nth_set_nth_same; [reflexivity|]. nia.
  - intros qx qy Hq Hne.
    apply (same_number_trans _ (pixel_at c3 qx qy));
      [apply splat_cell_zero_weight; [cbn; auto | exact HI | exact R3]|].
    apply (same_number_trans _ (pixel_at c2 qx qy));
      [apply splat_cell_zero_weight; [cbn; auto | exact HI | exact R2]|].
    apply (same_number_trans _ (pixel_at c1 qx qy));
      [apply splat_cell_zero_weight; [cbn; auto | exact HI | exact R1]|].
    left. apply K1; [exact Hq|]. left. rewrite !Z.add_0_r. exact Hne.
Qed.

End PixelCentre.

(** ** canvas.c: the intensity argument *)

Section Intensity.
Import Canvas.

(** The drawing operations see their intensity argument only through
    its clamp into [0, 1]; a NaN is clamped to 1, not to 0. *)
Theorem intensity_is_clamped (fuel : nat) (c : canvas_t)
    (x0 y0 x1 y1 thickness intensity : float) :
  set_pixel_f c x0 y0 intensity = set_pixel_f c x0 y0 (clamp01 intensity) /\
  draw_line_f fuel c x0 y0 x1 y1 thickness intensity =
    draw_line_f fuel c x0 y0 x1 y1 thickness (clamp01 intensity) /\
  (is_nan intensity = true -> clamp01 intensity = F1).
Proof.
  split; [|split].
  - unfold set_pixel_f. rewrite clamp01_idempotent. reflexivity.
  - unfold draw_line_f, draw_line_with. rewrite clamp01_idempotent. reflexivity.
  - destruct intensity; try discriminate. reflexivity.
Qed.

End Intensity.

(** ** renderer.c: a vertex whose clip-space w is not a number *)

Section NanVertex.
Import Math3d Renderer.
Context {L : Libm}.
Variable indeterminate : float.

(** The two clip tests are comparisons, and a comparison with NaN is
    false: a vertex whose clip-space w is NaN is neither behind the eye
    nor outside the frustum, and its screen coordinates are NaN. *)
Theorem nan_vertex_is_unclipped (local_vertex : vec3_t)
    (model_matrix view_matrix projection_matrix : mat4_t) (screen_width screen_height : Z) :
  is_nan (clip_row projection_matrix 3
            (camera_position local_vertex model_matrix view_matrix)) = true ->
  let pv := project_vertex indeterminate local_vertex model_matrix view_matrix
                           projection_matrix screen_width screen_height in
  is_clipped pv = 0 /\
  is_nan (x (position_screen pv)) = true /\ is_nan (y (position_screen pv)) = true.
Proof.
  intros Hw. cbv zeta. unfold project_vertex.
  destruct (clip_row projection_matrix 3 _) as [s|s| |s m e] eqn:Ew; try discriminate.
  change (flt S754_nan FLT_EPSILON) with false. cbv iota.
  assert (Hdiv : forall a, fdiv a S754_nan = S754_nan) by (intros a; destruct a; reflexivity).
  rewrite !Hdiv.
  change (flt S754_nan (fneg F1)) with false. change (fgt S754_nan F1) with false.
  cbn [orb is_clipped position_screen].
  unfold vec3_set_cartesian.
  match goal with
  | |- context [_vec3_update_spherical_from_cartesian ?res] =>
      destruct (update_spherical_cartesian res) as (Ex & Ey & _)
  end.
  rewrite Ex, Ey. cbn [x y].
  change (fadd S754_nan F1) with S754_nan. change (fsub F1 S754_nan) with S754_nan.
  change (fmul S754_nan F0_5) with S754_nan.
  assert (Hmul : forall a, fmul S754_nan a = S754_nan) by (intros a; destruct a; reflexivity).
  rewrite !Hmul. repeat split.
Qed.

End NanVertex.

(** ** The further properties on concrete inputs *)

Lemma identity_keeps_point_witness :
  same_point (Math3d.mat4_transform_point (L := Interp.libm) Math3d.mat4_identity
                (Examples.point 1 2 (-3)))
             (of_int 1) (of_int 2) (of_int (-3)).
Proof.
  apply (identity_keeps_point (L := Interp.libm) (Examples.point 1 2 (-3))).
  vm_compute. reflexivity.
Defined.

Lemma translate_moves_point_witness :
  same_point (Math3d.mat4_transform_point (L := Interp.libm)
                (Math3d.mat4_translate (of_int 10) (of_int 20) (of_int 30))
                (Examples.point 1 2 (-3)))
             (fadd (of_int 1) (of_int 10)) (fadd (of_int 2) (of_int 20))
             (fadd (of_int (-3)) (of_int 30)).
Proof.
  apply (translate_moves_point (L := Interp.libm) (of_int 10) (of_int 20) (of_int 30)
           (Examples.point 1 2 (-3))); vm_compute; reflexivity.
Defined.

Lemma scale_multiplies_point_witness :
  same_point (Math3d.mat4_transform_point (L := Interp.libm)
                (Math3d.mat4_scale (of_int 2) (of_int 3) (of_int 4))
                (Examples.point 1 2 (-3)))
             (fmul (of_int 2) (of_int 1)) (fmul (of_int 3) (of_int 2))
             (fmul (of_int 4) (of_int (-3))).
Proof.
  apply (scale_multiplies_point (L := Interp.libm) (of_int 2) (of_int 3) (of_int 4)
           (Examples.point 1 2 (-3))); vm_compute; reflexivity.
Defined.

Lemma translation_keeps_vector_witness :
  same_point (Math3d.mat4_transform_vector (L := Interp.libm) F0
                (Math3d.mat4_translate (of_int 10) (of_int 20) (of_int 30))
                (Examples.point 1 2 (-3)))
             (of_int 1) (of_int 2) (of_int (-3)).
Proof.
  apply (translation_keeps_vector (L := Interp.libm) F0 (of_int 10) (of_int 20) (of_int 30)
           (Examples.point 1 2 (-3))); vm_compute; reflexivity.
Defined.

Lemma identity_is_neutral_witness :
  let b := Math3d.mat4_translate (of_int 10) (of_int 20) (of_int 30) in
  same_number (Math3d.at_ (Math3d.mat4_multiply F0 Math3d.mat4_identity b) 13)
              (of_int 20) /\
  same_number (Math3d.at_ (Math3d.mat4_multiply F0 b Math3d.mat4_identity) 13)
              (of_int 20).
Proof.
  cbv zeta.
  apply (identity_is_neutral F0 (Math3d.mat4_translate (of_int 10) (of_int 20) (of_int 30))
           3 1); [repeat constructor | lia | lia].
Defined.

Lemma placement_matrices_are_affine_witness :
  affine (Math3d.mat4_multiply F0
            (Math3d.mat4_translate (of_int 10) (of_int 20) (of_int 30))
            (Math3d.mat4_scale (of_int 2) (of_int 3) (of_int 4))).
Proof.
  destruct (placement_matrices_are_affine (L := Interp.libm) (T := Interp.trig) F0)
    as (_ & Ht & Hs & _ & _ & Hm & _).
  apply Hm; [apply Ht | apply Hs | repeat constructor].
Defined.

Lemma frustum_flags_behind_eye_witness :
  Renderer.is_clipped
    (Renderer.project_vertex (L := Interp.libm) F0 (Scene.vertex 0 0 5)
       Math3d.mat4_identity Math3d.mat4_identity Scene.frustum 8 8) = 1 /\
  Renderer.is_clipped
    (Renderer.project_vertex (L := Interp.libm) F0 (Scene.vertex 0 0 (-2))
       Math3d.mat4_identity Math3d.mat4_identity Scene.frustum 8 8) <> 1.
Proof.
  split.
  - apply (proj1 (frustum_flags_behind_eye (L := Interp.libm) (T := Interp.trig) F0
                    (Scene.vertex 0 0 5) Math3d.mat4_identity Math3d.mat4_identity
                    (of_int (-1)) (of_int 1) (of_int (-1)) (of_int 1) (of_int 1) (of_int 10)
                    F1 F1 8 8 eq_refl eq_refl eq_refl)).
    vm_compute. reflexivity.
  - intros H.
    apply (proj1 (frustum_flags_behind_eye (L := Interp.libm) (T := Interp.trig) F0
                    (Scene.vertex 0 0 (-2)) Math3d.mat4_identity Math3d.mat4_identity
                    (of_int (-1)) (of_int 1) (of_int (-1)) (of_int 1) (of_int 1) (of_int 10)
                    F1 F1 8 8 eq_refl eq_refl eq_refl)) in H.
    vm_compute in H. discriminate H.
Defined.

Lemma cross_with_itself_witness :
  Math3d.vec3_cross (L := Interp.libm) F0 (Examples.point 1 2 (-3)) (Examples.point 1 2 (-3))
  = zero_vector.
Proof.
  apply (cross_with_itself (L := Interp.libm) F0 (Examples.point 1 2 (-3)));
    vm_compute; reflexivity.
Defined.

Lemma bezier_cubic_endpoints_witness :
  same_point (Animation.bezier_cubic (L := Interp.libm) F0
                (Examples.point 1 2 3) (Examples.point 4 5 6)
                (Examples.point 7 8 9) (Examples.point 10 11 12) (of_int (-1)))
             (of_int 1) (of_int 2) (of_int 3) /\
  same_point (Animation.bezier_cubic (L := Interp.libm) F0
                (Examples.point 1 2 3) (Examples.point 4 5 6)
                (Examples.point 7 8 9) (Examples.point 10 11 12) (of_int 2))
             (of_int 10) (of_int 11) (of_int 12).
Proof.
  split.
  - apply (proj1 (bezier_cubic_endpoints (L := Interp.libm) F0
                    (Examples.point 1 2 3) (Examples.point 4 5 6)
                    (Examples.point 7 8 9) (Examples.point 10 11 12) (of_int (-1))
                    eq_refl eq_refl eq_refl eq_refl)).
    vm_compute. reflexivity.
  - apply (proj2 (bezier_cubic_endpoints (L := Interp.libm) F0
                    (Examples.point 1 2 3) (Examples.point 4 5 6)
                    (Examples.point 7 8 9) (Examples.point 10 11 12) (of_int 2)
                    eq_refl eq_refl eq_refl eq_refl)).
    vm_compute. reflexivity.
Defined.

Lemma set_pixel_f_is_local_witness :
  let c' := Examples.value
              (Canvas.set_pixel_f Scene.canvas (of_dec 25 1) (of_dec 35 1) F1) Scene.canvas in
  same_frame Scene.canvas c' /\
  exists x_int y_int,
    to_int (floorf (of_dec 25 1)) = Ok x_int /\ to_int (floorf (of_dec 35 1)) = Ok y_int /\
    forall px py, on_canvas Scene.canvas px py ->
      px < x_int \/ x_int + 1 < px \/ py < y_int \/ y_int + 1 < py \/
      Canvas._canvas_is_pixel_in_circular_viewport Scene.canvas px py = false ->
      pixel_at c' px py = pixel_at Scene.canvas px py.
Proof.
  cbv zeta.
  apply (set_pixel_f_is_local Scene.canvas _ (of_dec 25 1) (of_dec 35 1) F1).
  vm_compute. reflexivity.
Defined.

Lemma set_pixel_f_off_canvas_witness :
  Canvas.set_pixel_f Scene.canvas (of_int 100) (of_int 3) F1 = Ok Scene.canvas.
Proof.
  apply (set_pixel_f_off_canvas Scene.canvas (of_int 100) (of_int 3) F1 100 3).
  - vm_compute. reflexivity.
  - vm_compute. reflexivity.
  - right. left. vm_compute. discriminate.
Defined.

Lemma draw_line_f_is_clipped_witness :
  let c' := Examples.value
              (Canvas.draw_line_f 8 Examples.clipped_canvas (of_int 1) (of_int 4)
                                  (of_int 6) (of_int 4) F1 F1)
              Examples.clipped_canvas in
  pixel_at c' 4 4 = F1 /\
  same_frame Examples.clipped_canvas c' /\
  forall px py, on_canvas Examples.clipped_canvas px py ->
    Canvas._canvas_is_pixel_in_circular_viewport Examples.clipped_canvas px py = false ->
    pixel_at c' px py = pixel_at Examples.clipped_canvas px py.
Proof.
  cbv zeta. split; [vm_compute; reflexivity|].
  apply (draw_line_f_is_clipped 8 Examples.clipped_canvas _ (of_int 1) (of_int 4)
           (of_int 6) (of_int 4) F1 F1).
  vm_compute. reflexivity.
Defined.


Lemma thick_point_is_never_finished_witness :
  Canvas.draw_line_f 1000 Scene.canvas (of_int 3) (of_int 3) (of_int 3) (of_int 3)
                     (of_int (2 ^ 26)) F1 = OutOfFuel.
Proof.
  apply (thick_point_is_never_finished Scene.canvas (of_int 3) (of_int 3) (of_int 3)
           (of_int 3) (of_int (2 ^ 26)) F1); vm_compute; reflexivity.
Defined.

Lemma point_without_thickness_witness :
  Canvas.draw_line_f 1 Scene.canvas (of_int 3) (of_int 3) (of_int 3) (of_int 3) F0 F1 =
  Canvas.set_pixel_f Scene.canvas (of_int 3) (of_int 3) F1.
Proof.
  apply (point_without_thickness 1 Scene.canvas (of_int 3) (of_int 3) (of_int 3)
           (of_int 3) F1); [vm_compute; reflexivity | vm_compute; reflexivity | lia].
Defined.

Lemma render_wireframe_call_bounds_witness :
  let calls := Examples.value (Scene.calls Scene.depth_model) [] in
  (List.length calls <= 2)%nat /\
  Forall (fun d => Renderer.call_thickness d = F1 /\
                   in01 (Renderer.call_intensity d) = true) calls.
Proof.
  cbv zeta.
  apply (render_wireframe_call_bounds (L := Interp.libm) F0 8 8 Scene.depth_model
           Math3d.mat4_identity Math3d.mat4_identity Scene.frustum None 0 F1).
  vm_compute. reflexivity.
Defined.

Lemma sorted_edges_descending_witness :
  StronglySorted not_farther (Scene.sorted Scene.depth_model).
Proof.
  apply (sorted_edges_descending (L := Interp.libm) F0 Scene.depth_model
           Math3d.mat4_identity Math3d.mat4_identity Scene.frustum 8 8).
  vm_compute. repeat constructor.
Defined.

Lemma render_wireframe_in_range_witness :
  Canvas.pixels_in_range (Examples.value (Scene.render Scene.depth_model) Scene.canvas).
Proof.
  apply (render_wireframe_in_range (L := Interp.libm) F0 Scene.depth_model
           Math3d.mat4_identity Math3d.mat4_identity Scene.frustum 8 Scene.canvas
           (Examples.value (Scene.render Scene.depth_model) Scene.canvas)
           None 0 F0 F1).
  - apply Forall_forall. intros v Hv. apply repeat_spec in Hv. subst v. reflexivity.
  - vm_compute. reflexivity.
Defined.

Lemma model_behind_eye_draws_nothing_witness :
  Renderer.render_wireframe (L := Interp.libm) F0 8 Scene.canvas Examples.hidden_model
    Math3d.mat4_identity Math3d.mat4_identity Scene.frustum None 0 F2 F1 =
  Ok (Canvas.canvas_set_circular_viewport Scene.canvas F2).
Proof.
  apply (model_behind_eye_draws_nothing (L := Interp.libm) F0 8 Scene.canvas
           Examples.hidden_model Math3d.mat4_identity Math3d.mat4_identity Scene.frustum
           None 0 F2 F1).
  intros v [<-|[<-|[]]]; vm_compute; reflexivity.
Defined.

Lemma parse_lines_app_witness :
  let parse := ObjLoader.parse_lines (L := Interp.libm) Interp.sscanf_v Interp.sscanf_d in
  let s1 := String.append "v 0 0 0"%string (String.append ObjText.nl
              (String.append "v 1 0 0"%string (String.append ObjText.nl
                (String.append "v 0 1 0"%string ObjText.nl)))) in
  let s2 := String.append "f 1 2 3"%string ObjText.nl in
  parse (String.append s1 s2) ObjLoader.initial_loader =
  parse s2 (parse s1 ObjLoader.initial_loader) /\
  ObjLoader.edges_da (parse (String.append s1 s2) ObjLoader.initial_loader) =
  [(0, 1); (1, 2); (2, 0)].
Proof.
  cbv zeta. split; [|vm_compute; reflexivity].
  apply (parse_lines_app (L := Interp.libm) Interp.sscanf_v Interp.sscanf_d).
  vm_compute. reflexivity.
Defined.

Lemma other_lines_are_ignored_witness :
  let s1 := String.append "v 0 0 0"%string ObjText.nl in
  let s2 := String.append "v 1 0 0"%string ObjText.nl in
  ObjText.load (String.append s1 (String.append "# a comment"%string (String ObjLoader.newline s2))) =
  ObjText.load (String.append s1 s2).
Proof.
  cbv zeta.
  apply (other_lines_are_ignored (L := Interp.libm) Interp.sscanf_v Interp.sscanf_d
           (String.append "v 0 0 0"%string ObjText.nl) "# a comment"%string
           (String.append "v 1 0 0"%string ObjText.nl)); vm_compute; reflexivity.
Defined.

Lemma crlf_is_lf_witness :
  let parse := ObjLoader.parse_lines (L := Interp.libm) Interp.sscanf_v Interp.sscanf_d in
  parse (String.append "v 1 2 3"%string
           (String ObjLoader.carriage_return (String ObjLoader.newline "v 4 5 6"%string)))
        ObjLoader.initial_loader =
  parse (String.append "v 1 2 3"%string (String ObjLoader.newline "v 4 5 6"%string))
        ObjLoader.initial_loader.
Proof.
  cbv zeta.
  apply (crlf_is_lf (L := Interp.libm) Interp.sscanf_v Interp.sscanf_d
           "v 1 2 3"%string "v 4 5 6"%string ObjLoader.initial_loader);
    [vm_compute; reflexivity | vm_compute; reflexivity | vm_compute; lia].
Defined.

Lemma long_lines_are_cut_witness :
  let parse := ObjLoader.parse_lines (L := Interp.libm) Interp.sscanf_v Interp.sscanf_d in
  let process := ObjLoader.process_line (L := Interp.libm) Interp.sscanf_v Interp.sscanf_d in
  let l := String.append (String.concat ""%string (repeat " "%string 255)) "v 1 2 3"%string in
  let first := process (ObjLoader.trim_cr (ObjLoader.take 255 l)) ObjLoader.initial_loader in
  parse (String.append l (String ObjLoader.newline "v 4 5 6"%string)) ObjLoader.initial_loader =
    parse "v 4 5 6"%string first /\
  parse l ObjLoader.initial_loader = parse (ObjLoader.drop 255 l) first /\
  List.length (ObjLoader.vertices_da (parse l ObjLoader.initial_loader)) = 1%nat /\
  List.length (ObjLoader.vertices_da
                 (parse (String.append l ObjText.nl) ObjLoader.initial_loader)) = 0%nat.
Proof.
  cbv zeta.
  destruct (long_lines_are_cut (L := Interp.libm) Interp.sscanf_v Interp.sscanf_d
              (String.append (String.concat ""%string (repeat " "%string 255)) "v 1 2 3"%string)
              "v 4 5 6"%string ObjLoader.initial_loader eq_refl) as [H1 H2].
  split; [exact H1|]. split; [apply H2; vm_compute; lia|].
  split; vm_compute; reflexivity.
Defined.

Lemma set_pixel_f_at_pixel_centre_witness :
  exists c',
    Canvas.set_pixel_f Scene.canvas (of_int 3) (of_int 4) F0_5 = Ok c' /\
    pixel_at c' 3 4 = F0_5 /\
    forall qx qy, on_canvas Scene.canvas qx qy -> (qx, qy) <> (3, 4) ->
      same_number (pixel_at c' qx qy) (pixel_at Scene.canvas qx qy).
Proof.
  destruct (set_pixel_f_at_pixel_centre Scene.canvas 3 4 F0_5) as (c' & H1 & H2 & H3).
  - vm_compute. repeat split; discriminate.
  - vm_compute. reflexivity.
  - vm_compute. reflexivity.
  - vm_compute. reflexivity.
  - apply Forall_forall. intros v Hv. apply repeat_spec in Hv. subst v. reflexivity.
  - vm_compute. reflexivity.
  - vm_compute. reflexivity.
  - exists c'. split; [exact H1|]. split; [|exact H3].
    rewrite H2. vm_compute. reflexivity.
Defined.

Lemma intensity_is_clamped_witness :
  Canvas.draw_line_f 8 Scene.canvas (of_int 1) (of_int 4) (of_int 6) (of_int 4) F1 S754_nan =
  Canvas.draw_line_f 8 Scene.canvas (of_int 1) (of_int 4) (of_int 6) (of_int 4) F1 F1.
Proof.
  destruct (intensity_is_clamped 8 Scene.canvas (of_int 1) (of_int 4) (of_int 6) (of_int 4)
              F1 S754_nan) as (_ & H & Hnan).
  rewrite H, (Hnan eq_refl). reflexivity.
Defined.

Lemma nan_vertex_is_unclipped_witness :
  let far := Math3d.mkvec3 (S754_infinity false) F0 (of_int (-2)) F0 F0 F0 in
  let pv := Renderer.project_vertex (L := Interp.libm) F0 far Math3d.mat4_identity
              Math3d.mat4_identity Scene.frustum 8 8 in
  (Renderer.is_clipped pv = 0 /\
   is_nan (Math3d.x (Renderer.position_screen pv)) = true /\
   is_nan (Math3d.y (Renderer.position_screen pv)) = true) /\
  Renderer.render_wireframe (L := Interp.libm) F0 8 Scene.canvas
    (Renderer.mkmodel [far; Scene.vertex 0 0 (-2)] [(0, 1)])
    Math3d.mat4_identity Math3d.mat4_identity Scene.frustum None 0 F0 F1 = Undefined.
Proof.
  cbv zeta. split; [|vm_compute; reflexivity].
  apply (nan_vertex_is_unclipped (L := Interp.libm) F0
           (Math3d.mkvec3 (S754_infinity false) F0 (of_int (-2)) F0 F0 F0)
           Math3d.mat4_identity Math3d.mat4_identity Scene.frustum 8 8).
  vm_compute. reflexivity.
Defined.

Lemma compare_renderable_edges_order_witness :
  let pv := Renderer.mkpv zero_vector 0 in
  Renderer.compare_renderable_edges (Renderer.mkedge pv pv F2 0)
                                    (Renderer.mkedge pv pv F0 2) <= 0.
Proof.
  cbv zeta.
  destruct compare_renderable_edges_order as (_ & Htrans & _).
  apply (Htrans (Renderer.mkedge (Renderer.mkpv zero_vector 0) (Renderer.mkpv zero_vector 0) F2 0)
                (Renderer.mkedge (Renderer.mkpv zero_vector 0) (Renderer.mkpv zero_vector 0) F1 1)
                (Renderer.mkedge (Renderer.mkpv zero_vector 0) (Renderer.mkpv zero_vector 0) F0 2));
    try reflexivity; vm_compute; discriminate.
Defined.
